(** * RpcSession: connection pools, exclusive acquisition, setup and shutdown

    A shallow embedding of [libs/binder/RpcSession.cpp].  The session is a
    record of the fields the member functions read and write; the
    [sp<RpcConnection>] objects live in a store ([mHeap]) and the two pools
    hold addresses into it, so that a handle, a pool entry and a worker that
    name the same connection see the same [exclusiveTid].  Code that can
    abort ([LOG_ALWAYS_FATAL_IF]) or block on a condition variable returns an
    [outcome].  Beside the session, the file embeds the [JavaThreadAttacher]
    of the same source file and [operator|] on [Scheduler::ConfigEvent] from
    [services/surfaceflinger/Scheduler/Scheduler.h]. *)

From Stdlib Require Import ZArith Lia.
From stdpp Require Import base option list gmap.

Local Open Scope Z_scope.

(** ** Outcomes of member functions *)

Inductive outcome (A : Type) : Type :=
  | Done (a : A)   (* the call returns *)
  | Blocks         (* the call is parked on a condition variable *)
  | Aborts.        (* LOG_ALWAYS_FATAL fired *)
Arguments Done {A} a.
Arguments Blocks {A}.
Arguments Aborts {A}.

Definition obind {A B} (m : outcome A) (k : A -> outcome B) : outcome B :=
  match m with
  | Done a => k a
  | Blocks => Blocks
  | Aborts => Aborts
  end.

Notation "'do' x <- m ; k" := (obind m (fun x => k))
  (at level 10, x name, m at level 100, k at level 200).

(** ** Scalars *)

Abbreviation pid_t := Z (only parsing).
Abbreviation status_t := Z (only parsing).
Abbreviation ptr := nat (only parsing).   (* address of an RpcConnection object *)

(** [utils/Errors.h] and [errno.h] values (Linux). *)
Definition OK : status_t := 0.
Definition UNKNOWN_ERROR : status_t := -2147483648.
Definition WOULD_BLOCK : status_t := -11.
Definition BAD_VALUE : status_t := -22.
Definition DEAD_OBJECT : status_t := -32.
Definition INVALID_OPERATION : status_t := -38.

Definition EAGAIN : Z := 11.
Definition ECONNRESET : Z := 104.
Definition EINPROGRESS : Z := 115.

(** [size_t] arithmetic: 64-bit, wrapping. *)
Definition SIZE_MOD : Z := 18446744073709551616.   (* 2^64 *)
Definition size_add (a b : Z) : Z := (a + b) mod SIZE_MOD.
Definition size_sub (a b : Z) : Z := (a - b) mod SIZE_MOD.
Definition size_of {A} (v : list A) : Z := Z.of_nat (length v).
(** [std::vector<sp<RpcConnection>>::max_size()]: [PTRDIFF_MAX / 8]. *)
Definition VECTOR_MAX : Z := 1152921504606846975.

(** ** The data model *)

(** A session id: [RpcAddress], an opaque array of bytes. *)
Abbreviation RpcAddress := (list Byte.byte) (only parsing).
Definition RpcAddress_zero : RpcAddress := repeat Byte.x00 32.

Record RpcConnection := mkRpcConnection {
  rpcTransport : Z;
  exclusiveTid : option pid_t;
  allowNested  : bool
}.

Inductive ConnectionUse := CLIENT | CLIENT_ASYNC | CLIENT_REFCOUNT.

Definition is_async (use : ConnectionUse) : bool :=
  match use with CLIENT_ASYNC => true | _ => false end.
Definition is_refcount (use : ConnectionUse) : bool :=
  match use with CLIENT_REFCOUNT => true | _ => false end.

(** What [mEventListener] (a [wp<EventListener>]) refers to. *)
Inductive listener_ref := NoListener | ShutdownListenerRef | ExternalListenerRef.

Record RpcSession := mkRpcSession {
  mHeap : list RpcConnection;   (* the RpcConnection objects, by address *)
  mMaxThreads : Z;
  mProtocolVersion : option Z;
  mId : option RpcAddress;
  mForServer : bool;   (* mForServer != nullptr *)
  mShutdownTrigger : option bool;   (* nullptr, or the trigger and whether it has fired *)
  mShutdownListener : option bool;   (* nullptr, or the listener and its mShutdown flag *)
  mEventListener : listener_ref;
  mOutgoingConnections : list ptr;
  mOutgoingConnectionsOffset : Z;
  mIncomingConnections : list ptr;
  mMaxIncomingConnections : Z;
  mWaitingThreads : Z;
  mThreads : gset pid_t   (* keys of std::map<thread::id, std::thread> *)
}.

Definition set_mHeap (v : list RpcConnection) (s : RpcSession) : RpcSession :=
  mkRpcSession v (mMaxThreads s) (mProtocolVersion s) (mId s) (mForServer s)
    (mShutdownTrigger s) (mShutdownListener s) (mEventListener s)
    (mOutgoingConnections s) (mOutgoingConnectionsOffset s)
    (mIncomingConnections s) (mMaxIncomingConnections s) (mWaitingThreads s)
    (mThreads s).
Definition set_mMaxThreads (v : Z) (s : RpcSession) : RpcSession :=
  mkRpcSession (mHeap s) v (mProtocolVersion s) (mId s) (mForServer s)
    (mShutdownTrigger s) (mShutdownListener s) (mEventListener s)
    (mOutgoingConnections s) (mOutgoingConnectionsOffset s)
    (mIncomingConnections s) (mMaxIncomingConnections s) (mWaitingThreads s)
    (mThreads s).
Definition set_mForServer (v : bool) (s : RpcSession) : RpcSession :=
  mkRpcSession (mHeap s) (mMaxThreads s) (mProtocolVersion s) (mId s) v
    (mShutdownTrigger s) (mShutdownListener s) (mEventListener s)
    (mOutgoingConnections s) (mOutgoingConnectionsOffset s)
    (mIncomingConnections s) (mMaxIncomingConnections s) (mWaitingThreads s)
    (mThreads s).
Definition set_mProtocolVersion (v : option Z) (s : RpcSession) : RpcSession :=
  mkRpcSession (mHeap s) (mMaxThreads s) v (mId s) (mForServer s)
    (mShutdownTrigger s) (mShutdownListener s) (mEventListener s)
    (mOutgoingConnections s) (mOutgoingConnectionsOffset s)
    (mIncomingConnections s) (mMaxIncomingConnections s) (mWaitingThreads s)
    (mThreads s).
Definition set_mId (v : option RpcAddress) (s : RpcSession) : RpcSession :=
  mkRpcSession (mHeap s) (mMaxThreads s) (mProtocolVersion s) v (mForServer s)
    (mShutdownTrigger s) (mShutdownListener s) (mEventListener s)
    (mOutgoingConnections s) (mOutgoingConnectionsOffset s)
    (mIncomingConnections s) (mMaxIncomingConnections s) (mWaitingThreads s)
    (mThreads s).
Definition set_mShutdownTrigger (v : option bool) (s : RpcSession) : RpcSession :=
  mkRpcSession (mHeap s) (mMaxThreads s) (mProtocolVersion s) (mId s)
    (mForServer s) v (mShutdownListener s) (mEventListener s)
    (mOutgoingConnections s) (mOutgoingConnectionsOffset s)
    (mIncomingConnections s) (mMaxIncomingConnections s) (mWaitingThreads s)
    (mThreads s).
Definition set_mShutdownListener (v : option bool) (s : RpcSession) : RpcSession :=
  mkRpcSession (mHeap s) (mMaxThreads s) (mProtocolVersion s) (mId s)
    (mForServer s) (mShutdownTrigger s) v (mEventListener s)
    (mOutgoingConnections s) (mOutgoingConnectionsOffset s)
    (mIncomingConnections s) (mMaxIncomingConnections s) (mWaitingThreads s)
    (mThreads s).
Definition set_mEventListener (v : listener_ref) (s : RpcSession) : RpcSession :=
  mkRpcSession (mHeap s) (mMaxThreads s) (mProtocolVersion s) (mId s)
    (mForServer s) (mShutdownTrigger s) (mShutdownListener s) v
    (mOutgoingConnections s) (mOutgoingConnectionsOffset s)
    (mIncomingConnections s) (mMaxIncomingConnections s) (mWaitingThreads s)
    (mThreads s).
Definition set_mOutgoingConnections (v : list ptr) (s : RpcSession) : RpcSession :=
  mkRpcSession (mHeap s) (mMaxThreads s) (mProtocolVersion s) (mId s)
    (mForServer s) (mShutdownTrigger s) (mShutdownListener s)
    (mEventListener s) v (mOutgoingConnectionsOffset s)
    (mIncomingConnections s) (mMaxIncomingConnections s) (mWaitingThreads s)
    (mThreads s).
Definition set_mOutgoingConnectionsOffset (v : Z) (s : RpcSession) : RpcSession :=
  mkRpcSession (mHeap s) (mMaxThreads s) (mProtocolVersion s) (mId s)
    (mForServer s) (mShutdownTrigger s) (mShutdownListener s)
    (mEventListener s) (mOutgoingConnections s) v (mIncomingConnections s)
    (mMaxIncomingConnections s) (mWaitingThreads s) (mThreads s).
Definition set_mIncomingConnections (v : list ptr) (s : RpcSession) : RpcSession :=
  mkRpcSession (mHeap s) (mMaxThreads s) (mProtocolVersion s) (mId s)
    (mForServer s) (mShutdownTrigger s) (mShutdownListener s)
    (mEventListener s) (mOutgoingConnections s) (mOutgoingConnectionsOffset s)
    v (mMaxIncomingConnections s) (mWaitingThreads s) (mThreads s).
Definition set_mMaxIncomingConnections (v : Z) (s : RpcSession) : RpcSession :=
  mkRpcSession (mHeap s) (mMaxThreads s) (mProtocolVersion s) (mId s)
    (mForServer s) (mShutdownTrigger s) (mShutdownListener s)
    (mEventListener s) (mOutgoingConnections s) (mOutgoingConnectionsOffset s)
    (mIncomingConnections s) v (mWaitingThreads s) (mThreads s).
Definition set_mWaitingThreads (v : Z) (s : RpcSession) : RpcSession :=
  mkRpcSession (mHeap s) (mMaxThreads s) (mProtocolVersion s) (mId s)
    (mForServer s) (mShutdownTrigger s) (mShutdownListener s)
    (mEventListener s) (mOutgoingConnections s) (mOutgoingConnectionsOffset s)
    (mIncomingConnections s) (mMaxIncomingConnections s) v (mThreads s).
Definition set_mThreads (v : gset pid_t) (s : RpcSession) : RpcSession :=
  mkRpcSession (mHeap s) (mMaxThreads s) (mProtocolVersion s) (mId s)
    (mForServer s) (mShutdownTrigger s) (mShutdownListener s)
    (mEventListener s) (mOutgoingConnections s) (mOutgoingConnectionsOffset s)
    (mIncomingConnections s) (mMaxIncomingConnections s) (mWaitingThreads s) v.

(** [connection->exclusiveTid = v], through the pointer. *)
Definition set_exclusiveTid (v : option pid_t) (c : RpcConnection) : RpcConnection :=
  mkRpcConnection (rpcTransport c) v (allowNested c).
Definition store_exclusiveTid (p : ptr) (v : option pid_t) (s : RpcSession) : RpcSession :=
  set_mHeap (alter (set_exclusiveTid v) p (mHeap s)) s.

(** The owner recorded in the object at [p]; [None] for a free connection and
    for an address the store does not hold. *)
Definition owner_of (s : RpcSession) (p : ptr) : option pid_t :=
  c ← mHeap s !! p; exclusiveTid c.

(** ** ExclusiveConnection *)

Record ExclusiveConnection := mkExclusiveConnection {
  mConnection : option ptr;      (* nullptr = None *)
  mReentrant  : bool
}.

(** [ExclusiveConnection::findConnection].  [exclusive] is the value behind
    the out-pointer (both call sites pass a non-null pointer); [available] is
    [None] when the caller passes [nullptr] and [Some v] when it points to an
    [sp] holding [v]. *)
Fixpoint findConnection_loop (heap : list RpcConnection) (tid : pid_t)
    (sockets : list ptr) (socketsIndexHint : Z) (idx : list nat)
    (exclusive : option ptr) (available : option (option ptr))
  : outcome (option ptr * option (option ptr)) :=
  match idx with
  | [] => Done (exclusive, available)
  | i :: rest =>
    match sockets !! Z.to_nat (size_add (Z.of_nat i) socketsIndexHint mod size_of sockets) with
    | None => Aborts
    | Some p =>
      match heap !! p with
      | None => Aborts
      | Some socket =>
        if bool_decide (available = Some None) && bool_decide (exclusiveTid socket = None)
        then (* *available = socket; continue *)
          findConnection_loop heap tid sockets socketsIndexHint rest exclusive (Some (Some p))
        else if bool_decide (exclusiveTid socket = Some tid)
        then (* *exclusive = socket; break *)
          Done (Some p, available)
        else findConnection_loop heap tid sockets socketsIndexHint rest exclusive available
      end
    end
  end.

Definition findConnection (heap : list RpcConnection) (tid : pid_t)
    (exclusive : option ptr) (available : option (option ptr))
    (sockets : list ptr) (socketsIndexHint : Z)
  : outcome (option ptr * option (option ptr)) :=
  if (0 <? size_of sockets) && (size_of sockets <=? socketsIndexHint) then Aborts
  else if bool_decide (exclusive ≠ None) then Done (exclusive, available)
  else findConnection_loop heap tid sockets socketsIndexHint
         (seq 0 (length sockets)) exclusive available.

(** What one pass through the [while (true)] body of [find] ends with. *)
Inductive find_step :=
  | Bound (h : ExclusiveConnection) (s : RpcSession)   (* break *)
  | ReturnWouldBlock (s : RpcSession)                  (* return WOULD_BLOCK *)
  | WaitForConnection (s : RpcSession).                (* mAvailableConnectionCv.wait *)

Definition join_available (a : option (option ptr)) : option ptr :=
  match a with Some v => v | None => None end.

Definition find_iteration (tid : pid_t) (use : ConnectionUse) (s : RpcSession)
  : outcome find_step :=
  do scan <-
     findConnection (mHeap s) tid None (Some None)
       (mOutgoingConnections s) (mOutgoingConnectionsOffset s);
  let exclusive := fst scan in
  let available := join_available (snd scan) in
  let s1 :=
    if is_async use && (bool_decide (exclusive ≠ None) || bool_decide (available ≠ None))
    then set_mOutgoingConnectionsOffset
           (size_add (mOutgoingConnectionsOffset s) 1 mod size_of (mOutgoingConnections s)) s
    else s in
  do exclusive' <-
     (if negb (is_async use) then
        do scan_in <-
           findConnection (mHeap s1) tid None None (mIncomingConnections s1) 0;
        match fst scan_in with
        | Some q =>
          match mHeap s1 !! q with
          | None => Aborts
          | Some c =>
            if allowNested c then Done (Some q)
            else if is_refcount use && bool_decide (available = None) then Done (Some q)
            else Done exclusive
          end
        | None => Done exclusive
        end
      else Done exclusive);
  match exclusive' with
  | Some p => Done (Bound (mkExclusiveConnection (Some p) true) s1)
  | None =>
    match available with
    | Some p =>
      Done (Bound (mkExclusiveConnection (Some p) false)
                  (store_exclusiveTid p (Some tid) s1))
    | None =>
      if size_of (mOutgoingConnections s1) =? 0
      then Done (ReturnWouldBlock s1)
      else Done (WaitForConnection s1)
    end
  end.

Record find_result := mkFindResult {
  fr_status : status_t;
  fr_connection : ExclusiveConnection;
  fr_session : RpcSession;
  fr_waits : nat                 (* calls of mAvailableConnectionCv.wait *)
}.

(** The [while (true)] loop.  While the caller sleeps in [wait] the mutex is
    released and other threads change the session; [wakeups] lists what they
    did before each wake-up.  When it is exhausted the caller is still
    parked. *)
Fixpoint find_loop (wakeups : list (RpcSession -> RpcSession)) (tid : pid_t)
    (use : ConnectionUse) (waits : nat) (s : RpcSession) : outcome find_result :=
  do step <- find_iteration tid use s;
  match step with
  | Bound h s' =>
    Done (mkFindResult OK h
            (set_mWaitingThreads (size_sub (mWaitingThreads s') 1) s') waits)
  | ReturnWouldBlock s' =>
    Done (mkFindResult WOULD_BLOCK (mkExclusiveConnection None false) s' waits)
  | WaitForConnection s' =>
    match wakeups with
    | [] => Blocks
    | w :: ws => find_loop ws tid use (S waits) (w s')
    end
  end.

(** [ExclusiveConnection::find]. *)
Definition find (wakeups : list (RpcSession -> RpcSession)) (tid : pid_t)
    (use : ConnectionUse) (s : RpcSession) : outcome find_result :=
  find_loop wakeups tid use 0%nat
    (set_mWaitingThreads (size_add (mWaitingThreads s) 1) s).

(** [~ExclusiveConnection]: the session afterwards and the number of
    [notify_one] calls made. *)
Definition ExclusiveConnection_destroy (h : ExclusiveConnection) (s : RpcSession)
  : RpcSession * nat :=
  match mReentrant h, mConnection h with
  | false, Some p =>
    let s' := store_exclusiveTid p None s in
    if 0 <? mWaitingThreads s' then (s', 1%nat) else (s', 0%nat)
  | _, _ => (s, 0%nat)
  end.

(** The object a scan visits at step [i]. *)
Definition scan_index (sockets : list ptr) (hint : Z) (i : nat) : nat :=
  Z.to_nat (size_add (Z.of_nat i) hint mod size_of sockets).

Definition visits (heap : list RpcConnection) (sockets : list ptr) (hint : Z)
    (i : nat) (p : ptr) (c : RpcConnection) : Prop :=
  sockets !! scan_index sockets hint i = Some p ∧ heap !! p = Some c.

(** Step [i] of a scan lands on an object of the store. *)
Definition valid_at (heap : list RpcConnection) (sockets : list ptr) (hint : Z)
    (i : nat) : Prop :=
  ∃ p c, visits heap sockets hint i p c.

(** Every address in a pool names an object, and a pool is no longer than a
    vector can be. *)
Definition pool_valid (heap : list RpcConnection) (sockets : list ptr) : Prop :=
  Forall (λ p, is_Some (heap !! p)) sockets ∧ size_of sockets ≤ VECTOR_MAX.

Definition pool_free (heap : list RpcConnection) (sockets : list ptr) : Prop :=
  Forall (λ p, ∃ c, heap !! p = Some c ∧ exclusiveTid c = None) sockets.

Definition owns_none (heap : list RpcConnection) (tid : pid_t) (sockets : list ptr) : Prop :=
  Forall (λ p, ∀ c, heap !! p = Some c → exclusiveTid c ≠ Some tid) sockets.

(** [find] then the handle's destructor, as every caller does. *)
Definition acquire_release (tid : pid_t) (use : ConnectionUse) (s : RpcSession)
  : outcome (status_t * option ptr * RpcSession) :=
  do r <- find [] tid use s;
  Done (fr_status r, mConnection (fr_connection r),
        fst (ExclusiveConnection_destroy (fr_connection r) (fr_session r))).

Definition step_session (st : find_step) : RpcSession :=
  match st with
  | Bound _ s => s
  | ReturnWouldBlock s => s
  | WaitForConnection s => s
  end.

(** ** [JavaThreadAttacher] *)

(** What the process offers to one [JavaThreadAttacher]: whether
    [getJavaVM()] finds a VM when the object is built and when it is
    destroyed, and whether the two JNI calls return [JNI_OK]. *)
Record jvm_env := mkJvmEnv {
  jvm_at_construction : bool;
  jvm_attach_ok : bool;
  jvm_at_destruction : bool;
  jvm_detach_ok : bool
}.

Inductive jni_event :=
  | JniAttachCurrentThread
  | JniDetachCurrentThread
  | JniWarnUnableToDetach.   (* ALOGW("Unable to detach current thread from JVM") *)

(** The constructor: the value of [mAttached] and the calls made. *)
Definition JavaThreadAttacher_construct (e : jvm_env) : outcome (bool * list jni_event) :=
  if negb (jvm_at_construction e) then Done (false, [])
  else if negb (jvm_attach_ok e) then Aborts
  else Done (true, [JniAttachCurrentThread]).

(** The destructor, from the value of [mAttached]. *)
Definition JavaThreadAttacher_destroy (e : jvm_env) (mAttached : bool)
  : outcome (bool * list jni_event) :=
  if negb mAttached then Done (mAttached, [])
  else if negb (jvm_at_destruction e) then Aborts
  else if negb (jvm_detach_ok e) then Done (false, [JniDetachCurrentThread])
  else Done (mAttached, [JniDetachCurrentThread; JniWarnUnableToDetach]).

(** The life of the object declared in [join]. *)
Definition JavaThreadAttacher_scope (e : jvm_env) : outcome (bool * list jni_event) :=
  do built <- JavaThreadAttacher_construct e;
  do gone <- JavaThreadAttacher_destroy e (fst built);
  Done (fst gone, snd built ++ snd gone).

#[global] Instance jni_event_eq_dec : EqDecision jni_event.
Proof. solve_decision. Defined.

Definition count_jni (ev : jni_event) (tr : list jni_event) : nat :=
  length (filter (λ x, x = ev) tr).

(** ** [Scheduler::ConfigEvent] ([Scheduler.h]) *)

Module Scheduler.

Inductive ConfigEvent := None | Changed.

(** [operator|]. *)
Definition or (first second : ConfigEvent) : ConfigEvent :=
  match first with
  | Changed => Changed
  | None =>
    match second with
    | Changed => Changed
    | None => None
    end
  end.

End Scheduler.

(** ** Session members *)

Section Session.

(** Declared in headers that are not part of the sources at hand
    ([RpcSession.h], [RpcWireFormat.h], [IBinder.h]): the initial value of
    [RpcConnection::allowNested], the wire protocol versions and the one-way
    flag of a transaction. *)
Variable allowNested_initial : bool.
Variable RPC_WIRE_PROTOCOL_VERSION : Z.
Variable RPC_WIRE_PROTOCOL_VERSION_NEXT : Z.
Variable RPC_WIRE_PROTOCOL_VERSION_EXPERIMENTAL : Z.
Variable FLAG_ONEWAY : Z.

(** [RpcSession::transact].  [state_transact] stands for
    [RpcState::transact] on the bound connection. *)
Definition transact (state_transact : ptr -> Z -> RpcSession -> status_t * RpcSession)
    (wakeups : list (RpcSession -> RpcSession)) (tid : pid_t) (flags : Z)
    (s : RpcSession) : outcome (status_t * RpcSession) :=
  do r <- find wakeups tid
            (if Z.land flags FLAG_ONEWAY =? 0 then CLIENT else CLIENT_ASYNC) s;
  if fr_status r =? OK then
    match mConnection (fr_connection r) with
    | None => Aborts
    | Some p =>
      let res := state_transact p flags (fr_session r) in
      Done (fst res, fst (ExclusiveConnection_destroy (fr_connection r) (snd res)))
    end
  else
    Done (fr_status r,
          fst (ExclusiveConnection_destroy (fr_connection r) (fr_session r))).

(** [sp<RpcConnection>::make()] followed by the two assignments that both
    callers make before the object becomes reachable from a pool: the new
    object's address and the store holding it. *)
Definition new_connection (transport : Z) (tid : pid_t) (heap : list RpcConnection)
  : ptr * list RpcConnection :=
  (length heap, heap ++ [mkRpcConnection transport (Some tid) allowNested_initial]).

(** [RpcSession::setProtocolVersion]. *)
Definition setProtocolVersion (version : Z) (s : RpcSession) : bool * RpcSession :=
  if (RPC_WIRE_PROTOCOL_VERSION_NEXT <=? version) &&
     negb (version =? RPC_WIRE_PROTOCOL_VERSION_EXPERIMENTAL)
  then (false, s)
  else
    match mProtocolVersion s with
    | Some current =>
      if current <? version then (false, s)
      else (true, set_mProtocolVersion (Some version) s)
    | None => (true, set_mProtocolVersion (Some version) s)
    end.

(** [RpcSession::assignIncomingConnectionToThisThread]; [None] is the
    [nullptr] result. *)
Definition assignIncomingConnectionToThisThread (tid : pid_t) (rpcTransport : Z)
    (s : RpcSession) : option ptr * RpcSession :=
  if mMaxThreads s <=? size_of (mIncomingConnections s) then (None, s)
  else if size_of (mIncomingConnections s) <? mMaxIncomingConnections s then (None, s)
  else
    let '(session, heap) := new_connection rpcTransport tid (mHeap s) in
    let s1 := set_mHeap heap s in
    let s2 := set_mIncomingConnections (mIncomingConnections s1 ++ [session]) s1 in
    (Some session,
     set_mMaxIncomingConnections (size_of (mIncomingConnections s2)) s2).

(** [std::find] followed by [erase(it)]: drops the first occurrence. *)
Fixpoint erase_first (p : ptr) (l : list ptr) : option (list ptr) :=
  match l with
  | [] => None
  | q :: rest =>
    if bool_decide (q = p) then Some rest
    else option_map (cons q) (erase_first p rest)
  end.

(** [WaitForShutdownListener::onSessionAllIncomingThreadsEnded]. *)
Definition onSessionAllIncomingThreadsEnded (s : RpcSession) : RpcSession :=
  match mEventListener s, mShutdownListener s with
  | ShutdownListenerRef, Some _ => set_mShutdownListener (Some true) s
  | _, _ => s
  end.

(** [mEventListener.promote() != nullptr]. *)
Definition promote_listener (s : RpcSession) : bool :=
  match mEventListener s with
  | NoListener => false
  | ShutdownListenerRef | ExternalListenerRef => true
  end.

(** [RpcSession::removeIncomingConnection], up to the point where the mutex
    is dropped: the result, the session, and whether the listener is still to
    be told that all incoming threads have ended. *)
Definition removeIncomingConnection_locked (connection : ptr) (s : RpcSession)
  : bool * RpcSession * bool :=
  match erase_first connection (mIncomingConnections s) with
  | Some rest =>
    let s' := set_mIncomingConnections rest s in
    (true, s', (size_of rest =? 0) && promote_listener s')
  | None => (false, s, false)
  end.

Definition removeIncomingConnection (connection : ptr) (s : RpcSession)
  : bool * RpcSession :=
  let '(found, s', tell) := removeIncomingConnection_locked connection s in
  (found, if tell then onSessionAllIncomingThreadsEnded s' else s').

(** [RpcSession::addOutgoingConnection]: the first critical section. *)
Definition addOutgoingConnection_publish (tid : pid_t) (rpcTransport : Z)
    (s : RpcSession) : ptr * RpcSession :=
  let '(connection, heap) := new_connection rpcTransport tid (mHeap s) in
  let s1 := set_mHeap heap s in
  (connection, set_mOutgoingConnections (mOutgoingConnections s1 ++ [connection]) s1).

(** The whole function.  [sendConnectionInit] is what happens to the session
    while [RpcState::sendConnectionInit] runs and the mutex is not held. *)
Definition addOutgoingConnection (sendConnectionInit : ptr -> RpcSession -> RpcSession)
    (tid : pid_t) (rpcTransport : Z) (init : bool) (s : RpcSession)
  : status_t * ptr * RpcSession :=
  let '(connection, s1) := addOutgoingConnection_publish tid rpcTransport s in
  let status := OK in
  let s2 := if init then sendConnectionInit connection s1 else s1 in
  (status, connection, store_exclusiveTid connection None s2).

(** *** Incoming workers *)

(** [RpcSession::preJoinThreadOwnership], called by the worker itself. *)
Definition preJoinThreadOwnership (tid : pid_t) (s : RpcSession) : RpcSession :=
  set_mThreads ({[tid]} ∪ mThreads s) s.

Record PreJoinSetupResult := mkPreJoinSetupResult {
  connection : option ptr;
  status : status_t
}.

(** [RpcSession::preJoinSetup]; [readConnectionInit] is the status of
    [RpcState::readConnectionInit]. *)
Definition preJoinSetup (readConnectionInit : status_t) (tid : pid_t)
    (rpcTransport : Z) (s : RpcSession) : PreJoinSetupResult * RpcSession :=
  let '(conn, s') := assignIncomingConnectionToThisThread tid rpcTransport s in
  (mkPreJoinSetupResult conn
     (match conn with None => DEAD_OBJECT | Some _ => readConnectionInit end), s').

(** [RpcSession::join] after the command loop has ended: the critical section
    that takes the worker out of [mThreads] ... *)
Definition join_unregister (tid : pid_t) (s : RpcSession) : outcome RpcSession :=
  if bool_decide (tid ∈ mThreads s)
  then Done (set_mThreads (mThreads s ∖ {[tid]}) s)
  else Aborts.

(** ... and the rest: the connection leaves the incoming pool. *)
Definition join_exit (tid : pid_t) (setupResult : PreJoinSetupResult) (s : RpcSession)
  : outcome RpcSession :=
  do s1 <- join_unregister tid s;
  match connection setupResult with
  | Some p =>
    let '(found, s2) := removeIncomingConnection p s1 in
    if found then Done s2 else Aborts
  | None => Done s1
  end.

(** What the environment decides about one worker: its thread id, how the
    peer's connection-init frame reads, and whether the worker has already
    run [join] to its end when [addIncomingConnection] returns to the
    caller. *)
Record worker_env := mkWorkerEnv {
  we_tid : pid_t;
  we_readConnectionInit : status_t;
  we_exits : bool
}.

(** [RpcSession::addIncomingConnection]: the caller returns once the worker
    has taken ownership, that is after [preJoinSetup]. *)
Definition addIncomingConnection (w : worker_env) (rpcTransport : Z) (s : RpcSession)
  : outcome (status_t * RpcSession) :=
  let s1 := preJoinThreadOwnership (we_tid w) s in
  let '(setupResult, s2) :=
    preJoinSetup (we_readConnectionInit w) (we_tid w) rpcTransport s1 in
  if we_exits w
  then do s3 <- join_exit (we_tid w) setupResult s2; Done (OK, s3)
  else Done (OK, s2).

(** *** Connecting *)

Record RpcConnectionHeader := mkRpcConnectionHeader {
  version : Z;
  options : Z;
  sessionId : RpcAddress
}.

(** Modelled from the spec: [RpcWireFormat.h] is not part of the sources at
    hand; bit 0 of [options] says that the connection is an incoming one. *)
Definition RPC_CONNECTION_OPTION_INCOMING : Z := 1.

Record init_env := mkInitEnv {
  ie_newTransport : option Z;                      (* mCtx->newTransport *)
  ie_writeHeader : RpcConnectionHeader -> status_t;  (* interruptableWriteFully *)
  ie_sendConnectionInit : ptr -> RpcSession -> RpcSession;
  ie_worker : worker_env
}.

(** [RpcSession::initAndAddConnection]. *)
Definition initAndAddConnection (env : init_env) (tid : pid_t) (fd : Z)
    (sessionId : RpcAddress) (incoming : bool) (s : RpcSession)
  : outcome (status_t * RpcSession) :=
  match mShutdownTrigger s with
  | None => Aborts
  | Some _ =>
    match ie_newTransport env with
    | None => Done (UNKNOWN_ERROR, s)
    | Some server =>
      let header :=
        mkRpcConnectionHeader
          (default RPC_WIRE_PROTOCOL_VERSION (mProtocolVersion s))
          (if incoming then Z.lor 0 RPC_CONNECTION_OPTION_INCOMING else 0)
          sessionId in
      let sendHeaderStatus := ie_writeHeader env header in
      if negb (sendHeaderStatus =? OK) then Done (sendHeaderStatus, s)
      else if incoming then addIncomingConnection (ie_worker env) server s
      else
        let '(st, _, s') :=
          addOutgoingConnection (ie_sendConnectionInit env) tid server true s in
        Done (st, s')
    end
  end.

(** The result of a system call: its value, or [-1] with [errno]. *)
Inductive sys_result := SysOk (value : Z) | SysErr (errno : Z).

(** What the system answers during one pass of the retry loop. *)
Record connect_env := mkConnectEnv {
  ce_socket : sys_result;       (* TEMP_FAILURE_RETRY(socket(..)): the fd *)
  ce_connect : sys_result;      (* TEMP_FAILURE_RETRY(connect(..)): 0 *)
  ce_poll : status_t;           (* mShutdownTrigger->triggerablePoll *)
  ce_getsockopt : sys_result;   (* getsockopt(SO_ERROR): the pending error *)
  ce_init : init_env
}.

Inductive sock_event :=
  | EvUsleep (usec : Z)
  | EvSocket
  | EvConnect
  | EvPoll
  | EvGetsockopt
  | EvInit (fd : Z).

(** How one [connect] ends: with a status to return, or with the errno the
    rest of the loop body looks at (0 when the socket is connected). *)
Definition connect_errno (e : connect_env) : (status_t + Z) * list sock_event :=
  match ce_connect e with
  | SysOk _ => (inr 0, [EvConnect])
  | SysErr connErrno =>
    if (connErrno =? EAGAIN) || (connErrno =? EINPROGRESS) then
      if negb (ce_poll e =? OK) then (inl (ce_poll e), [EvConnect; EvPoll])
      else
        match ce_getsockopt e with
        | SysErr savedErrno => (inl (- savedErrno), [EvConnect; EvPoll; EvGetsockopt])
        | SysOk soError => (inr soError, [EvConnect; EvPoll; EvGetsockopt])
        end
    else (inr connErrno, [EvConnect])
  end.

(** [RpcSession::setupOneSocketConnection]: the [for] loop over [tries], and
    the system calls made on the way. *)
Fixpoint setupOneSocketConnection_loop (tries : list nat) (env : nat -> connect_env)
    (tid : pid_t) (sessionId : RpcAddress) (incoming : bool) (s : RpcSession)
    (trace : list sock_event) : outcome (status_t * RpcSession * list sock_event) :=
  match tries with
  | [] => Done (UNKNOWN_ERROR, s, trace)
  | t :: rest =>
    let e := env t in
    let trace := if (0 <? t)%nat then trace ++ [EvUsleep 10000] else trace in
    match ce_socket e with
    | SysErr savedErrno => Done (- savedErrno, s, trace ++ [EvSocket])
    | SysOk serverFd =>
      let '(res, evs) := connect_errno e in
      let trace := trace ++ EvSocket :: evs in
      match res with
      | inl st => Done (st, s, trace)
      | inr connErrno =>
        if connErrno =? ECONNRESET then
          setupOneSocketConnection_loop rest env tid sessionId incoming s trace
        else if negb (connErrno =? 0) then Done (- connErrno, s, trace)
        else
          do r <- initAndAddConnection (ce_init e) tid serverFd sessionId incoming s;
          Done (fst r, snd r, trace ++ [EvInit serverFd])
      end
    end
  end.

Definition setupOneSocketConnection (env : nat -> connect_env) (tid : pid_t)
    (sessionId : RpcAddress) (incoming : bool) (s : RpcSession)
  : outcome (status_t * RpcSession * list sock_event) :=
  setupOneSocketConnection_loop (seq 0 5) env tid sessionId incoming s [].

(** *** Client setup *)

(** The indices a loop [for (size_t i = 0; cond(i); i++)] runs through, when
    [cond] fails somewhere at or below [bound]. *)
Fixpoint take_while {A} (cond : A -> bool) (l : list A) : list A :=
  match l with
  | [] => []
  | x :: rest => if cond x then x :: take_while cond rest else []
  end.

Definition for_indices (bound : Z) (cond : Z -> bool) : list Z :=
  take_while cond (Z.of_nat <$> seq 0 (S (Z.to_nat bound))).

(** [RpcSession::initShutdownTrigger]; [made] tells whether
    [FdTrigger::make()] returned a trigger. *)
Definition initShutdownTrigger (made : bool) (s : RpcSession) : status_t * RpcSession :=
  match mShutdownTrigger s with
  | None =>
    let s1 := set_mShutdownTrigger (if made then Some false else None) s in
    let s2 := set_mEventListener ShutdownListenerRef
                (set_mShutdownListener (Some false) s1) in
    if made then (OK, s2) else (INVALID_OPERATION, s2)
  | Some _ => (OK, s)
  end.

(** The answers of the peer, as [RpcState] reports them. *)
Record setup_env := mkSetupEnv {
  se_FdTrigger_make : bool;
  se_readNewSessionResponse : status_t * Z;
  se_getMaxThreads : status_t * Z;
  se_getSessionId : status_t * RpcAddress
}.

Definition release (h : ExclusiveConnection) (s : RpcSession) : RpcSession :=
  fst (ExclusiveConnection_destroy h s).

(** [RpcSession::getRemoteMaxThreads]. *)
Definition getRemoteMaxThreads (env : setup_env) (tid : pid_t) (s : RpcSession)
  : outcome (status_t * Z * RpcSession) :=
  do r <- find [] tid CLIENT s;
  if negb (fr_status r =? OK)
  then Done (fr_status r, 0, release (fr_connection r) (fr_session r))
  else Done (fst (se_getMaxThreads env), snd (se_getMaxThreads env),
             release (fr_connection r) (fr_session r)).

(** [RpcSession::readId]. *)
Definition readId (env : setup_env) (tid : pid_t) (s : RpcSession)
  : outcome (status_t * RpcSession) :=
  if mForServer s then Aborts
  else
    do r <- find [] tid CLIENT s;
    if negb (fr_status r =? OK)
    then Done (fr_status r, release (fr_connection r) (fr_session r))
    else
      let s1 := set_mId (Some RpcAddress_zero) (fr_session r) in
      if negb (fst (se_getSessionId env) =? OK)
      then Done (fst (se_getSessionId env), release (fr_connection r) s1)
      else Done (OK, release (fr_connection r)
                       (set_mId (Some (snd (se_getSessionId env))) s1)).

(** Where in [setupClient] a call of [connectAndInit] is made. *)
Inductive call_site := Seed | Outgoing (i : Z) | Incoming (i : Z).

Definition connect_fn :=
  call_site -> RpcAddress -> bool -> RpcSession -> outcome (status_t * RpcSession).

(** The body shared by the two [for] loops of [setupClient]. *)
Fixpoint connect_each (connectAndInit : connect_fn) (site : Z -> call_site)
    (indices : list Z) (incoming : bool) (s : RpcSession)
  : outcome (status_t * RpcSession) :=
  match indices with
  | [] => Done (OK, s)
  | i :: rest =>
    match mId s with
    | None => Aborts                       (* mId.value() *)
    | Some id =>
      do r <- connectAndInit (site i) id incoming s;
      if negb (fst r =? OK) then Done r
      else connect_each connectAndInit site rest incoming (snd r)
    end
  end.

(** The block of [setupClient] that holds the seed connection while the
    protocol version is agreed. *)
Definition negotiate_version (env : setup_env) (tid : pid_t) (s : RpcSession)
  : outcome (status_t * RpcSession) :=
  do r <- find [] tid CLIENT s;
  if negb (fr_status r =? OK)
  then Done (fr_status r, release (fr_connection r) (fr_session r))
  else if negb (fst (se_readNewSessionResponse env) =? OK)
  then Done (fst (se_readNewSessionResponse env),
             release (fr_connection r) (fr_session r))
  else
    let '(accepted, s1) :=
      setProtocolVersion (snd (se_readNewSessionResponse env)) (fr_session r) in
    if accepted then Done (OK, release (fr_connection r) s1)
    else Done (BAD_VALUE, release (fr_connection r) s1).

(** [RpcSession::setupClient]. *)
Definition setupClient (connectAndInit : connect_fn) (env : setup_env)
    (tid : pid_t) (s : RpcSession) : outcome (status_t * RpcSession) :=
  if negb (size_of (mOutgoingConnections s) =? 0) then Aborts
  else
    let '(st0, s0) := initShutdownTrigger (se_FdTrigger_make env) s in
    if negb (st0 =? OK) then Done (st0, s0)
    else
      do r1 <- connectAndInit Seed RpcAddress_zero false s0;
      if negb (fst r1 =? OK) then Done r1
      else
        do r2 <- negotiate_version env tid (snd r1);
        if negb (fst r2 =? OK) then Done r2
        else
          do r3 <- getRemoteMaxThreads env tid (snd r2);
          let '(st3, numThreadsAvailable, s3) := r3 in
          if negb (st3 =? OK) then Done (st3, s3)
          else
            do r4 <- readId env tid s3;
            if negb (fst r4 =? OK) then Done r4
            else
              do r5 <- connect_each connectAndInit Outgoing
                         (for_indices numThreadsAvailable
                            (λ i, size_add i 1 <? numThreadsAvailable))
                         false (snd r4);
              if negb (fst r5 =? OK) then Done r5
              else
                connect_each connectAndInit Incoming
                  (for_indices (mMaxThreads (snd r5))
                     (λ i, i <? mMaxThreads (snd r5)))
                  true (snd r5).

(** [RpcSession::setupSocketClient]: [connectAndInit] is
    [setupOneSocketConnection] on the given address. *)
Definition setupSocketClient (addr : call_site -> nat -> connect_env)
    (env : setup_env) (tid : pid_t) (s : RpcSession)
  : outcome (status_t * RpcSession) :=
  setupClient
    (λ site sessionId incoming s',
       do r <- setupOneSocketConnection (addr site) tid sessionId incoming s';
       Done (fst (fst r), snd (fst r)))
    env tid s.

(** [RpcSession::setMaxThreads]. *)
Definition setMaxThreads (threads : Z) (s : RpcSession) : outcome RpcSession :=
  if negb (size_of (mOutgoingConnections s) =? 0) ||
     negb (size_of (mIncomingConnections s) =? 0)
  then Aborts
  else Done (set_mMaxThreads threads s).

(** [RpcSession::setForServer]; the parameters that must not be null are
    taken to be so, and [made] is as in [initShutdownTrigger]. *)
Definition setForServer (made : bool) (sessionId : RpcAddress) (s : RpcSession)
  : outcome (bool * RpcSession) :=
  if mForServer s then Aborts
  else if promote_listener s then Aborts
  else
    match mShutdownTrigger s with
    | Some _ => Aborts
    | None =>
      if made then
        Done (true,
              set_mEventListener ExternalListenerRef
                (set_mForServer true
                   (set_mId (Some sessionId)
                      (set_mShutdownTrigger (Some false) s))))
      else Done (false, s)
    end.

(** *** Shutdown *)

(** [RpcSession::shutdownAndWait] up to the wait: the trigger fires. *)
Definition shutdownAndWait_begin (wait : bool) (s : RpcSession) : outcome RpcSession :=
  match mShutdownTrigger s with
  | None => Aborts
  | Some _ =>
    let s1 := set_mShutdownTrigger (Some true) s in
    if wait then
      match mShutdownListener s1 with
      | None => Aborts
      | Some _ => Done s1
      end
    else Done s1
  end.

(** [WaitForShutdownListener::waitForShutdown] leaves its loop when
    [mShutdown] is set; the check that follows it, under the same lock. *)
Definition waitForShutdown_done (s : RpcSession) : bool :=
  match mShutdownListener s with
  | Some true => true
  | _ => false
  end.

Definition shutdownAndWait_end (s : RpcSession) : outcome bool :=
  if bool_decide (mThreads s = ∅) then Done true else Aborts.

(** Where an incoming worker stands. *)
Inductive worker_pc :=
  | WStarted (rpcTransport : Z)          (* the thread has been created *)
  | WRegistered (rpcTransport : Z)       (* preJoinThreadOwnership done *)
  | WServing (r : PreJoinSetupResult)    (* preJoinSetup done, in join *)
  | WUnregistered (r : PreJoinSetupResult)  (* out of mThreads *)
  | WAllEnded      (* pool emptied; onSessionAllIncomingThreadsEnded is next *)
  | WEnded         (* onSessionIncomingThreadEnded is next *)
  | WFinished.

(** Where the caller of [shutdownAndWait(true)] stands. *)
Inductive waiter_pc := NotCalled | Waiting | Returned.

Record system := mkSystem {
  sys_session : RpcSession;
  sys_workers : gmap pid_t worker_pc;
  sys_waiter : waiter_pc
}.

(** What the threads that are neither incoming workers nor the caller of
    [shutdownAndWait] can do to the session, one critical section at a
    time. *)
Inductive session_op : RpcSession -> RpcSession -> Prop :=
  | op_find_enter s :
      session_op s (set_mWaitingThreads (size_add (mWaitingThreads s) 1) s)
  | op_find_pass tid use s st :
      find_iteration tid use s = Done st ->
      session_op s (step_session st)
  | op_find_leave s :
      session_op s (set_mWaitingThreads (size_sub (mWaitingThreads s) 1) s)
  | op_release h s :
      session_op s (release h s)
  | op_setProtocolVersion v s :
      session_op s (snd (setProtocolVersion v s))
  | op_setMaxThreads n s s' :
      setMaxThreads n s = Done s' ->
      session_op s s'
  | op_initShutdownTrigger made s :
      session_op s (snd (initShutdownTrigger made s))
  | op_setForServer made id s r :
      setForServer made id s = Done r ->
      session_op s (snd r)
  | op_setId id s :
      session_op s (set_mId id s)
  | op_addOutgoing_publish tid transport s :
      session_op s (snd (addOutgoingConnection_publish tid transport s))
  | op_addOutgoing_clear p s :
      session_op s (store_exclusiveTid p None s)
  | op_shutdown_no_wait s s' :
      shutdownAndWait_begin false s = Done s' ->
      session_op s s'.

Inductive label :=
  | LSpawn (tid : pid_t)
  | LWorker (tid : pid_t)
  | LOther
  | LShutdownCalled
  | LShutdownReturns.

Definition set_worker (tid : pid_t) (pc : worker_pc) (s : RpcSession) (σ : system) : system :=
  mkSystem s (<[tid := pc]> (sys_workers σ)) (sys_waiter σ).

(** The interleavings of the session's threads. *)
Inductive step : system -> label -> system -> Prop :=
  | step_spawn σ tid transport :
      (sys_workers σ !! tid = None ∨ sys_workers σ !! tid = Some WFinished) ->
      step σ (LSpawn tid) (set_worker tid (WStarted transport) (sys_session σ) σ)
  | step_register σ tid transport :
      sys_workers σ !! tid = Some (WStarted transport) ->
      step σ (LWorker tid)
        (set_worker tid (WRegistered transport)
           (preJoinThreadOwnership tid (sys_session σ)) σ)
  | step_setup σ tid transport readInit :
      sys_workers σ !! tid = Some (WRegistered transport) ->
      step σ (LWorker tid)
        (set_worker tid
           (WServing (fst (preJoinSetup readInit tid transport (sys_session σ))))
           (snd (preJoinSetup readInit tid transport (sys_session σ))) σ)
  | step_unregister σ tid r s' :
      sys_workers σ !! tid = Some (WServing r) ->
      join_unregister tid (sys_session σ) = Done s' ->
      step σ (LWorker tid) (set_worker tid (WUnregistered r) s' σ)
  | step_remove σ tid r p s' tell :
      sys_workers σ !! tid = Some (WUnregistered r) ->
      connection r = Some p ->
      removeIncomingConnection_locked p (sys_session σ) = (true, s', tell) ->
      step σ (LWorker tid)
        (set_worker tid (if tell then WAllEnded else WEnded) s' σ)
  | step_no_connection σ tid r :
      sys_workers σ !! tid = Some (WUnregistered r) ->
      connection r = None ->
      step σ (LWorker tid) (set_worker tid WEnded (sys_session σ) σ)
  | step_all_ended σ tid :
      sys_workers σ !! tid = Some WAllEnded ->
      step σ (LWorker tid)
        (set_worker tid WEnded (onSessionAllIncomingThreadsEnded (sys_session σ)) σ)
  | step_ended σ tid :
      sys_workers σ !! tid = Some WEnded ->
      step σ (LWorker tid) (set_worker tid WFinished (sys_session σ) σ)
  | step_other σ s' :
      session_op (sys_session σ) s' ->
      step σ LOther (mkSystem s' (sys_workers σ) (sys_waiter σ))
  | step_shutdown_called σ s' :
      sys_waiter σ = NotCalled ->
      shutdownAndWait_begin true (sys_session σ) = Done s' ->
      step σ LShutdownCalled (mkSystem s' (sys_workers σ) Waiting)
  | step_shutdown_returns σ :
      sys_waiter σ = Waiting ->
      waitForShutdown_done (sys_session σ) = true ->
      shutdownAndWait_end (sys_session σ) = Done true ->
      step σ LShutdownReturns (mkSystem (sys_session σ) (sys_workers σ) Returned).








(** Two sessions with the same pools and the same limits on them. *)
Definition pools_same (s s' : RpcSession) : Prop :=
  mOutgoingConnections s' = mOutgoingConnections s ∧
  mIncomingConnections s' = mIncomingConnections s ∧
  mMaxIncomingConnections s' = mMaxIncomingConnections s ∧
  mMaxThreads s' = mMaxThreads s.

(** A failing system call sets a non-zero [errno]. *)
Definition errno_set (e : connect_env) : Prop :=
  ce_socket e ≠ SysErr 0 ∧ ce_getsockopt e ≠ SysErr 0.




(** The offset stays below the pool size (and at 0 for an empty pool). *)
Definition offset_ok (s : RpcSession) : Prop :=
  0 ≤ mOutgoingConnectionsOffset s ∧
  mOutgoingConnectionsOffset s < Z.max 1 (size_of (mOutgoingConnections s)).

(** *** Reading a trace of [setupOneSocketConnection] *)




(** Pass [t] got a socket and ended in [ECONNRESET]. *)
Definition reset_pass (env : nat -> connect_env) (t : nat) : Prop :=
  ∃ fd, ce_socket (env t) = SysOk fd ∧ fst (connect_errno (env t)) = inr ECONNRESET.


(** What pass [t] does up to the point where it looks at [connErrno]. *)
Definition sleep_before (t : nat) : list sock_event :=
  if (0 <? t)%nat then [EvUsleep 10000] else [].
Definition pass_trace (env : nat -> connect_env) (t : nat) : list sock_event :=
  sleep_before t ++ EvSocket :: snd (connect_errno (env t)).

(** *** Further members *)

(** [utils/Errors.h]: [NAME_NOT_FOUND = -ENOENT]. *)
Definition NAME_NOT_FOUND : status_t := -2.

(** [RpcSession::getMaxThreads] and [RpcSession::getProtocolVersion]. *)
Definition getMaxThreads (s : RpcSession) : Z := mMaxThreads s.
Definition getProtocolVersion (s : RpcSession) : option Z := mProtocolVersion s.

(** [RpcSession::~RpcSession]. *)
Definition RpcSession_destroy (s : RpcSession) : outcome unit :=
  if negb (size_of (mIncomingConnections s) =? 0) then Aborts else Done tt.

(** One entry of the list [getAddrInfo] resolves: how connecting to that
    address goes, and what the peer behind it answers. *)
Record addrinfo := mkAddrinfo {
  ai_addr : call_site -> nat -> connect_env;
  ai_peer : setup_env
}.

(** [RpcSession::setupInetClient]: the loop over [ai_next] ... *)
Fixpoint setupInetClient_loop (ais : list addrinfo) (tid : pid_t) (s : RpcSession)
  : outcome (status_t * RpcSession) :=
  match ais with
  | [] => Done (NAME_NOT_FOUND, s)
  | ai :: rest =>
    do r <- setupSocketClient (ai_addr ai) (ai_peer ai) tid s;
    if fst r =? OK then Done (OK, snd r)
    else setupInetClient_loop rest tid (snd r)
  end.

(** ... and the function; [aiStart = []] is the [nullptr] that a failed
    resolution gives. *)
Definition setupInetClient (aiStart : list addrinfo) (tid : pid_t) (s : RpcSession)
  : outcome (status_t * RpcSession) :=
  match aiStart with
  | [] => Done (UNKNOWN_ERROR, s)
  | _ :: _ => setupInetClient_loop aiStart tid s
  end.

(** [RpcSession::addNullDebuggingClient]; [opened] is the result of
    [open("/dev/null")] and [newTransport] that of [mCtx->newTransport]. *)
Definition addNullDebuggingClient (made : bool) (opened : sys_result)
    (newTransport : option Z) (sendConnectionInit : ptr -> RpcSession -> RpcSession)
    (tid : pid_t) (s : RpcSession) : status_t * RpcSession :=
  let '(st0, s0) := initShutdownTrigger made s in
  if negb (st0 =? OK) then (st0, s0)
  else
    match opened with
    | SysErr savedErrno => (- savedErrno, s0)
    | SysOk serverFd =>
      match newTransport with
      | None => (UNKNOWN_ERROR, s0)
      | Some server =>
        let '(st, _, s1) := addOutgoingConnection sendConnectionInit tid server false s0 in
        (st, s1)
      end
    end.

(** [RpcSession::sendDecStrong]; [state_sendDecStrong] stands for
    [RpcState::sendDecStrong] on the bound connection. *)
Definition sendDecStrong (state_sendDecStrong : ptr -> RpcSession -> status_t * RpcSession)
    (wakeups : list (RpcSession -> RpcSession)) (tid : pid_t) (s : RpcSession)
  : outcome (status_t * RpcSession) :=
  do r <- find wakeups tid CLIENT_REFCOUNT s;
  if negb (fr_status r =? OK)
  then Done (fr_status r, release (fr_connection r) (fr_session r))
  else
    match mConnection (fr_connection r) with
    | None => Aborts
    | Some p =>
      let res := state_sendDecStrong p (fr_session r) in
      Done (fst res, release (fr_connection r) (snd res))
    end.

(** [RpcSession::getRootObject]; the result is the binder, [None] for
    [nullptr]. *)
Definition getRootObject (state_getRootObject : ptr -> RpcSession -> option Z * RpcSession)
    (wakeups : list (RpcSession -> RpcSession)) (tid : pid_t) (s : RpcSession)
  : outcome (option Z * RpcSession) :=
  do r <- find wakeups tid CLIENT s;
  if negb (fr_status r =? OK)
  then Done (None, release (fr_connection r) (fr_session r))
  else
    match mConnection (fr_connection r) with
    | None => Aborts
    | Some p =>
      let res := state_getRootObject p (fr_session r) in
      Done (fst res, release (fr_connection r) (snd res))
    end.

(** [WaitForShutdownListener::waitForShutdown]: each [wait_for] ends in a
    timeout or not, after the other threads have done something to the
    session.  The result carries the number of [ALOGE] lines written. *)
Fixpoint waitForShutdown (wakeups : list (bool * (RpcSession -> RpcSession)))
    (logged : nat) (s : RpcSession) : outcome (RpcSession * nat) :=
  if waitForShutdown_done s then Done (s, logged)
  else
    match wakeups with
    | [] => Blocks
    | (timeout, w) :: ws =>
      waitForShutdown ws (if timeout then S logged else logged) (w s)
    end.

(** [RpcSession::shutdownAndWait], as one thread sees it; the closing
    [mState->clear()] works on [RpcState] alone. *)
Definition shutdownAndWait (wait : bool) (wakeups : list (bool * (RpcSession -> RpcSession)))
    (s : RpcSession) : outcome (bool * RpcSession * nat) :=
  do s1 <- shutdownAndWait_begin wait s;
  if wait then
    do r <- waitForShutdown wakeups 0 s1;
    do ok <- shutdownAndWait_end (fst r);
    Done (true, fst r, snd r)
  else Done (true, s1, 0%nat).

(** *** Shapes of a session *)

(** Every pool entry names an object and the offset is in range: what
    [findConnection] needs in order not to abort. *)
Definition session_wf (s : RpcSession) : Prop :=
  pool_valid (mHeap s) (mOutgoingConnections s) ∧
  pool_valid (mHeap s) (mIncomingConnections s) ∧
  offset_ok s.

(** Some incoming connection has gone: the pool is below its high-water
    mark. *)
Definition closed_for_admission (s : RpcSession) : Prop :=
  size_of (mIncomingConnections s) < mMaxIncomingConnections s.

(** [tid] serves the incoming connection [q]. *)
Definition serves (s : RpcSession) (tid : pid_t) (q : ptr) : Prop :=
  q ∈ mIncomingConnections s ∧ owner_of s q = Some tid.

(** Every outgoing connection is held by a thread other than [tid]. *)
Definition outgoing_busy (s : RpcSession) (tid : pid_t) : Prop :=
  Forall (λ p, ∃ t, owner_of s p = Some t ∧ t ≠ tid) (mOutgoingConnections s).

(** What a pass through the loop of [find] that binds a connection has
    done: the connection was the caller's own, and the session differs at
    most in the offset; or it was a free outgoing one, and is the caller's
    now. *)
Definition bound_spec (tid : pid_t) (use : ConnectionUse) (s : RpcSession)
    (h : ExclusiveConnection) (s' : RpcSession) : Prop :=
  ∃ p c, mConnection h = Some p ∧ mHeap s !! p = Some c ∧
    (mReentrant h = true →
       exclusiveTid c = Some tid ∧
       s' = set_mOutgoingConnectionsOffset (mOutgoingConnectionsOffset s') s ∧
       (p ∈ mOutgoingConnections s ∨
        is_async use = false ∧ p ∈ mIncomingConnections s)) ∧
    (mReentrant h = false →
       exclusiveTid c = None ∧ p ∈ mOutgoingConnections s ∧
       s' = store_exclusiveTid p (Some tid)
              (set_mOutgoingConnectionsOffset (mOutgoingConnectionsOffset s') s)).

(** ** Sample sessions and environments *)

(** A server-side session: no outgoing connection, one incoming connection
    served by thread 9. *)
Definition ex_server : RpcSession :=
  mkRpcSession [mkRpcConnection 40 (Some 9) true] 1 (Some 0) (Some RpcAddress_zero)
    true (Some false) None ExternalListenerRef [] 0 [0%nat] 1 0 ({[9]} : gset Z).

(** What [find] hands back on [ex_server] to a thread that serves nothing. *)
Definition ex_would_block : find_result :=
  mkFindResult WOULD_BLOCK (mkExclusiveConnection None false)
    (set_mWaitingThreads 1 ex_server) 0.

(** A client with three free outgoing connections and the offset at 1. *)
Definition ex_client3 : RpcSession :=
  mkRpcSession
    [mkRpcConnection 10 None false; mkRpcConnection 11 None false;
     mkRpcConnection 12 None false]
    1 (Some 0) (Some RpcAddress_zero) false (Some false) (Some false)
    ShutdownListenerRef [0%nat; 1%nat; 2%nat] 1 [] 0 0 ∅.

(** A client whose only outgoing connection is held by thread 7 while another
    thread waits for one. *)
Definition ex_busy : RpcSession :=
  mkRpcSession [mkRpcConnection 10 (Some 7) false]
    1 (Some 0) (Some RpcAddress_zero) false (Some false) (Some false)
    ShutdownListenerRef [0%nat] 0 [] 0 1 ∅.

(** A session as constructed, with [mMaxThreads] set. *)
Definition ex_fresh (maxThreads : Z) : RpcSession :=
  mkRpcSession [] maxThreads None None false None None NoListener [] 0 [] 0 0 ∅.

(** The same after [initShutdownTrigger]. *)
Definition ex_ready (maxThreads : Z) : RpcSession :=
  snd (initShutdownTrigger true (ex_fresh maxThreads)).

(** A peer that takes every connection: the transport can be built, the
    header is written, the init frame is sent without anybody else touching
    the session, and the worker of incoming connection [i] is thread
    [100 + i]. *)
Definition ex_init (worker : Z) (exits : bool) : init_env :=
  mkInitEnv (Some 50) (λ _, OK) (λ _ s, s) (mkWorkerEnv worker OK exits).

Definition ex_connects (worker : Z) (exits : bool) : connect_env :=
  mkConnectEnv (SysOk 3) (SysOk 0) OK (SysOk 0) (ex_init worker exits).


Definition ex_addr (exits : bool) (site : call_site) (t : nat) : connect_env :=
  match site with
  | Incoming i => ex_connects (100 + i) exits
  | _ => ex_connects 100 exits
  end.

(** The peer reports [n] threads. *)
Definition ex_peer (n : Z) : setup_env :=
  mkSetupEnv true (OK, 0) (OK, n) (OK, repeat Byte.x01 32).



(** A server-side session whose worker, thread 9, serves a connection that
    does not allow nesting, while the only outgoing connection is held by
    thread 7. *)
Definition ex_worker_busy : RpcSession :=
  mkRpcSession [mkRpcConnection 10 (Some 7) false; mkRpcConnection 40 (Some 9) false]
    1 (Some 0) (Some RpcAddress_zero) true (Some false) None ExternalListenerRef
    [0%nat] 0 [1%nat] 1 0 ({[9]} : gset Z).

(** A peer whose answer to the new session cannot be read. *)
Definition ex_peer_silent : setup_env :=
  mkSetupEnv true (DEAD_OBJECT, 0) (OK, 1) (OK, repeat Byte.x01 32).

(** An address that takes every connection, with the peer behind it. *)
Definition ex_ai (peer : setup_env) : addrinfo := mkAddrinfo (ex_addr false) peer.

(** An address on which no socket can be opened ([EACCES]). *)
Definition ex_unreachable : addrinfo :=
  mkAddrinfo (λ _ _, mkConnectEnv (SysErr 13) (SysOk 0) OK (SysOk 0) (ex_init 100 false))
    (ex_peer 1).

(* ================================================================== *)
(** * Properties *)

Section FindConnection.
Context (heap : list RpcConnection) (tid : pid_t) (sockets : list ptr) (hint : Z).

Lemma scan_index_lt i :
  0 < size_of sockets → (scan_index sockets hint i < length sockets)%nat.
Proof.
  intros Hpos. unfold scan_index, size_of in *.
  pose proof (Z.mod_pos_bound (size_add (Z.of_nat i) hint) (Z.of_nat (length sockets)) Hpos).
  lia.
Qed.

Lemma scan_index_exact i :
  0 ≤ hint → (i < length sockets)%nat → hint < size_of sockets →
  size_of sockets ≤ VECTOR_MAX →
  scan_index sockets hint i =
    Z.to_nat ((Z.of_nat i + hint) mod size_of sockets).
Proof.
  intros H0 Hi Hh Hs.
  unfold scan_index, size_add, size_of, SIZE_MOD, VECTOR_MAX in *.
  rewrite (Z.mod_small (Z.of_nat i + hint)); [done | lia].
Qed.

Lemma pool_valid_visits i :
  pool_valid heap sockets → (i < length sockets)%nat →
  ∃ p c, visits heap sockets hint i p c ∧ p ∈ sockets.
Proof.
  intros [Hv _] Hi.
  assert (Hlt : (scan_index sockets hint i < length sockets)%nat)
    by (apply scan_index_lt; unfold size_of; lia).
  destruct (lookup_lt_is_Some_2 _ _ Hlt) as [p Hp].
  assert (Hin : p ∈ sockets) by (apply list_elem_of_lookup; eauto).
  rewrite Forall_forall in Hv. destruct (Hv p Hin) as [c Hc].
  exists p, c. by repeat split.
Qed.

(** A scan that can no longer fill [available] and meets no connection of
    the caller returns what it was given. *)
Lemma findConnection_loop_stable idx exclusive available :
  available ≠ Some None →
  Forall (λ i, ∃ p c, visits heap sockets hint i p c ∧ exclusiveTid c ≠ Some tid) idx →
  findConnection_loop heap tid sockets hint idx exclusive available
    = Done (exclusive, available).
Proof.
  intros Hav. induction 1 as [|i idx (p & c & [Hp Hc] & Hown) _ IH]; [done|].
  cbn [findConnection_loop]. fold (scan_index sockets hint i).
  rewrite Hp, Hc.
  rewrite (bool_decide_eq_false_2 (available = Some None)) by done.
  rewrite (bool_decide_eq_false_2 (exclusiveTid c = Some tid)) by done.
  exact IH.
Qed.

(** With every connection free, the first one visited becomes
    [available]. *)
Lemma findConnection_loop_all_free i idx exclusive :
  Forall (λ j, ∃ p c, visits heap sockets hint j p c ∧ exclusiveTid c = None) (i :: idx) →
  ∃ p c, visits heap sockets hint i p c ∧
    findConnection_loop heap tid sockets hint (i :: idx) exclusive (Some None)
      = Done (exclusive, Some (Some p)).
Proof.
  intros Hall. apply Forall_cons in Hall as [(p & c & [Hp Hc] & Hfree) Hrest].
  exists p, c. split; [done|].
  cbn [findConnection_loop]. fold (scan_index sockets hint i).
  rewrite Hp, Hc, Hfree.
  rewrite !bool_decide_eq_true_2 by done. cbn [andb].
  apply findConnection_loop_stable; [done|].
  eapply Forall_impl; [exact Hrest|].
  intros j (q & d & Hv & Hd). exists q, d. split; [done|]. by rewrite Hd.
Qed.

(** A scan does not abort when every step lands on an object of the
    store. *)
Lemma findConnection_loop_total idx exclusive available :
  Forall (λ i, ∃ p c, visits heap sockets hint i p c) idx →
  ∃ e a, findConnection_loop heap tid sockets hint idx exclusive available = Done (e, a).
Proof.
  intros Hall. revert exclusive available.
  induction Hall as [|i idx (p & c & Hp & Hc) _ IH]; intros exclusive available.
  - by eexists _, _.
  - cbn [findConnection_loop]. fold (scan_index sockets hint i). rewrite Hp, Hc.
    destruct (_ && _); [apply IH|].
    destruct (bool_decide _); [by eexists _, _ | apply IH].
Qed.

End FindConnection.

Lemma seq_visits heap sockets hint (P : RpcConnection → Prop) :
  pool_valid heap sockets →
  Forall (λ p, ∀ c, heap !! p = Some c → P c) sockets →
  Forall (λ i, ∃ p c, visits heap sockets hint i p c ∧ P c) (seq 0 (length sockets)).
Proof.
  intros Hv HP. apply Forall_forall. intros i Hi.
  apply list_elem_of_In, in_seq in Hi.
  destruct (pool_valid_visits heap sockets hint i Hv) as (p & c & Hvis & Hin); [lia|].
  exists p, c. split; [done|].
  rewrite Forall_forall in HP. apply (HP p Hin). apply Hvis.
Qed.

(** The incoming scan of a thread that serves no incoming connection. *)
Lemma findConnection_owns_none heap tid sockets :
  pool_valid heap sockets → owns_none heap tid sockets →
  findConnection heap tid None None sockets 0 = Done (None, None).
Proof.
  intros Hv Hown. unfold findConnection.
  replace ((0 <? size_of sockets) && (size_of sockets <=? 0)) with false
    by (symmetry; apply andb_false_iff; lia).
  rewrite bool_decide_eq_false_2 by (intros H; by apply H).
  apply findConnection_loop_stable; [done|].
  by apply seq_visits.
Qed.

Lemma findConnection_nil heap tid exclusive available hint :
  exclusive = None →
  findConnection heap tid exclusive available [] hint = Done (None, available).
Proof. intros ->. done. Qed.

Lemma find_iteration_no_outgoing tid use s :
  mOutgoingConnections s = [] →
  pool_valid (mHeap s) (mIncomingConnections s) →
  owns_none (mHeap s) tid (mIncomingConnections s) →
  find_iteration tid use s = Done (ReturnWouldBlock s).
Proof.
  intros Hout Hv Hown. unfold find_iteration. rewrite Hout.
  rewrite findConnection_nil by done. cbn. rewrite andb_false_r.
  destruct (is_async use); cbn.
  - by rewrite Hout.
  - rewrite findConnection_owns_none by done. cbn. by rewrite Hout.
Qed.

Lemma find_no_outgoing wakeups tid use s :
  mOutgoingConnections s = [] →
  pool_valid (mHeap s) (mIncomingConnections s) →
  owns_none (mHeap s) tid (mIncomingConnections s) →
  find wakeups tid use s =
    Done (mkFindResult WOULD_BLOCK (mkExclusiveConnection None false)
            (set_mWaitingThreads (size_add (mWaitingThreads s) 1) s) 0).
Proof.
  intros Hout Hv Hown. unfold find.
  destruct wakeups; cbn [find_loop];
    rewrite find_iteration_no_outgoing by done; done.
Qed.

(** C1. With an empty outgoing pool and no connection owned by the calling
    thread, [ExclusiveConnection::find] returns [WOULD_BLOCK] with an unbound
    handle and without a single wait on [mAvailableConnectionCv], whatever
    other threads would have done; [transact] on such a session returns
    [WOULD_BLOCK] for one-way and for synchronous calls alike. *)
Theorem C1_find_would_block_without_waiting
    (wakeups : list (RpcSession → RpcSession)) (tid : pid_t)
    (use : ConnectionUse) (s : RpcSession)
    (state_transact : ptr → Z → RpcSession → status_t * RpcSession) (flags : Z) :
  mOutgoingConnections s = [] →
  pool_valid (mHeap s) (mIncomingConnections s) →
  owns_none (mHeap s) tid (mIncomingConnections s) →
  (∃ r, find wakeups tid use s = Done r ∧
        fr_status r = WOULD_BLOCK ∧ fr_waits r = 0%nat ∧
        mConnection (fr_connection r) = None) ∧
  (∃ s', transact state_transact wakeups tid flags s = Done (WOULD_BLOCK, s')).
Proof.
  intros Hout Hv Hown. split.
  - eexists. split; [by apply find_no_outgoing|]. done.
  - unfold transact. rewrite find_no_outgoing by done. cbn. by eexists.
Qed.

(** ** The waiting-thread counter *)

Lemma size_add_sub_1 w : 0 ≤ w < SIZE_MOD → size_sub (size_add w 1) 1 = w.
Proof.
  intros Hw. unfold size_sub, size_add, SIZE_MOD in *.
  destruct (decide (w = 18446744073709551615)) as [->|Hne]; [done|].
  rewrite (Z.mod_small (w + 1)) by lia. rewrite Z.mod_small; lia.
Qed.

Lemma find_iteration_waiting tid use s st :
  find_iteration tid use s = Done st →
  mWaitingThreads (step_session st) = mWaitingThreads s.
Proof.
  unfold find_iteration, obind. intros H.
  repeat case_match; simplify_eq; done.
Qed.

Lemma find_loop_waiting wakeups tid use n s r :
  Forall (λ w, ∀ s', mWaitingThreads (w s') = mWaitingThreads s') wakeups →
  find_loop wakeups tid use n s = Done r →
  (fr_status r = OK ∧
   mWaitingThreads (fr_session r) = size_sub (mWaitingThreads s) 1) ∨
  (fr_status r = WOULD_BLOCK ∧ mConnection (fr_connection r) = None ∧
   mWaitingThreads (fr_session r) = mWaitingThreads s).
Proof.
  intros Hw. revert n s. induction Hw as [|w ws Hpres _ IH]; intros n s.
  - cbn [find_loop]. destruct (find_iteration tid use s) as [st| |] eqn:Hit; [|done..].
    apply find_iteration_waiting in Hit. cbn [obind].
    destruct st; cbn in *; intros ?; simplify_eq; cbn; [left|right]; by rewrite ?Hit.
  - cbn [find_loop]. destruct (find_iteration tid use s) as [st| |] eqn:Hit; [|done..].
    apply find_iteration_waiting in Hit. cbn [obind].
    destruct st; cbn in *; intros H; simplify_eq; cbn; [left|right|]; rewrite ?Hit; try done.
    apply IH in H. by rewrite Hpres, Hit in H.
Qed.

(** C2. What [find] does to [mWaitingThreads]: it raises the counter on entry;
    a call that returns [OK] has lowered it again, and a call that returns
    [WOULD_BLOCK] has left through the early return and leaves it one
    higher than it found it. *)
Theorem C2_find_waiting_threads_by_return_path
    (wakeups : list (RpcSession → RpcSession)) (tid : pid_t)
    (use : ConnectionUse) (s : RpcSession) (r : find_result) :
  0 ≤ mWaitingThreads s < SIZE_MOD - 1 →
  Forall (λ w, ∀ s', mWaitingThreads (w s') = mWaitingThreads s') wakeups →
  find wakeups tid use s = Done r →
  (fr_status r = OK ∧ mWaitingThreads (fr_session r) = mWaitingThreads s) ∨
  (fr_status r = WOULD_BLOCK ∧
   mWaitingThreads (fr_session r) = mWaitingThreads s + 1).
Proof.
  intros Hrange Hw Hfind. unfold find in Hfind.
  apply find_loop_waiting in Hfind as [[Hst Hcnt]|(Hst & _ & Hcnt)]; [| |done].
  - left. split; [done|]. rewrite Hcnt. cbn.
    apply size_add_sub_1. unfold SIZE_MOD in *. lia.
  - right. split; [done|]. rewrite Hcnt. cbn.
    unfold size_add, SIZE_MOD in *. rewrite Z.mod_small; lia.
Qed.

(** ** The rotating offset *)

Lemma find_iteration_offset tid use s st :
  find_iteration tid use s = Done st →
  ∃ e a,
    findConnection (mHeap s) tid None (Some None)
      (mOutgoingConnections s) (mOutgoingConnectionsOffset s) = Done (e, a) ∧
    mOutgoingConnectionsOffset (step_session st) =
      if is_async use && (bool_decide (e ≠ None) || bool_decide (join_available a ≠ None))
      then size_add (mOutgoingConnectionsOffset s) 1 mod size_of (mOutgoingConnections s)
      else mOutgoingConnectionsOffset s.
Proof.
  unfold find_iteration. intros H.
  destruct (findConnection _ _ _ _ (mOutgoingConnections s) _) as [[e a]| |] eqn:Hscan;
    [|done..].
  exists e, a. split; [done|]. cbn [obind fst snd] in H.
  destruct (is_async use && _); unfold obind in H;
    repeat case_match; simplify_eq; done.
Qed.

Lemma alter_owner_restore (heap : list RpcConnection) (p : ptr) t c :
  heap !! p = Some c → exclusiveTid c = None →
  alter (set_exclusiveTid None) p (alter (set_exclusiveTid (Some t)) p heap) = heap.
Proof.
  intros Hp Hfree. apply list_eq. intros q.
  destruct (decide (p = q)) as [<-|Hne].
  - rewrite !list_lookup_alter_eq, Hp. cbn. destruct c; cbn in *. by subst.
  - by rewrite !list_lookup_alter_ne.
Qed.

(** A one-way acquisition on a pool whose connections are all free takes the
    connection under the offset and moves the offset on. *)
Lemma find_iteration_async_free tid s :
  mOutgoingConnections s ≠ [] →
  pool_free (mHeap s) (mOutgoingConnections s) →
  size_of (mOutgoingConnections s) ≤ VECTOR_MAX →
  0 ≤ mOutgoingConnectionsOffset s < size_of (mOutgoingConnections s) →
  ∃ p c,
    mOutgoingConnections s !! Z.to_nat (mOutgoingConnectionsOffset s) = Some p ∧
    mHeap s !! p = Some c ∧ exclusiveTid c = None ∧
    find_iteration tid CLIENT_ASYNC s =
      Done (Bound (mkExclusiveConnection (Some p) false)
              (store_exclusiveTid p (Some tid)
                 (set_mOutgoingConnectionsOffset
                    ((mOutgoingConnectionsOffset s + 1)
                       mod size_of (mOutgoingConnections s)) s))).
Proof.
  intros Hne Hfree Hmax Hoff.
  set (out := mOutgoingConnections s) in *. set (off := mOutgoingConnectionsOffset s) in *.
  assert (Hv : pool_valid (mHeap s) out).
  { split; [|done]. eapply Forall_impl; [exact Hfree|]. intros p (c & -> & _). eauto. }
  assert (Hall : Forall (λ j, ∃ p c, visits (mHeap s) out off j p c ∧ exclusiveTid c = None)
                   (seq 0 (length out))).
  { apply seq_visits; [done|]. eapply Forall_impl; [exact Hfree|].
    intros p (c & Hc & Hn) c' Hc'. by simplify_eq. }
  destruct out as [|p0 out'] eqn:Hout; [done|]. cbn [length seq] in Hall.
  destruct (findConnection_loop_all_free (mHeap s) tid (p0 :: out') off 0 _ None Hall)
    as (p & c & [Hp Hc] & Hloop).
  rewrite scan_index_exact in Hp; [|unfold size_of in *; cbn [length] in *; lia..].
  rewrite Z.add_0_l, Z.mod_small in Hp by lia.
  apply Forall_cons in Hall as [(p' & c' & [Hp' Hc'] & Hfree') _].
  exists p, c. split_and!; [done|done| |].
  { rewrite scan_index_exact in Hp'; [|unfold size_of in *; cbn [length] in *; lia..].
    rewrite Z.add_0_l, Z.mod_small in Hp' by lia. by simplify_eq. }
  unfold find_iteration. fold out off. rewrite Hout.
  unfold findConnection.
  replace ((0 <? size_of (p0 :: out')) && (size_of (p0 :: out') <=? off)) with false
    by (symmetry; apply andb_false_iff; lia).
  rewrite bool_decide_eq_false_2 by (intros H; by apply H).
  cbn [length seq]. rewrite Hloop. cbn.
  unfold size_add, SIZE_MOD, VECTOR_MAX in *.
  rewrite (Z.mod_small (off + 1)) by lia. rewrite <- Hout. done.
Qed.

Lemma acquire_release_async_free tid s :
  mOutgoingConnections s ≠ [] →
  pool_free (mHeap s) (mOutgoingConnections s) →
  size_of (mOutgoingConnections s) ≤ VECTOR_MAX →
  0 ≤ mOutgoingConnectionsOffset s < size_of (mOutgoingConnections s) →
  0 ≤ mWaitingThreads s < SIZE_MOD →
  ∃ p,
    mOutgoingConnections s !! Z.to_nat (mOutgoingConnectionsOffset s) = Some p ∧
    acquire_release tid CLIENT_ASYNC s =
      Done (OK, Some p,
            set_mOutgoingConnectionsOffset
              ((mOutgoingConnectionsOffset s + 1) mod size_of (mOutgoingConnections s)) s).
Proof.
  intros Hne Hfree Hmax Hoff Hw.
  destruct (find_iteration_async_free tid
              (set_mWaitingThreads (size_add (mWaitingThreads s) 1) s))
    as (p & c & Hp & Hc & Hnone & Hit); [done..|].
  cbn in Hp, Hc. exists p. split; [done|].
  unfold acquire_release, find. cbn [find_loop]. rewrite Hit. cbn.
  rewrite size_add_sub_1 by done.
  assert (Hheap : alter (set_exclusiveTid None) p
                    (alter (set_exclusiveTid (Some tid)) p (mHeap s)) = mHeap s)
    by (by eapply alter_owner_restore).
  destruct s; cbn in *.
  destruct (0 <? _); cbn;
    unfold store_exclusiveTid, set_mWaitingThreads, set_mHeap; cbn;
    by rewrite Hheap.
Qed.

(** C3. (a) Every pass through the loop of [find], and so every call that
    returns without having waited, leaves [mOutgoingConnectionsOffset] at
    [(offset + 1) mod size] when the use is [CLIENT_ASYNC] and the outgoing
    scan found an exclusive or an available candidate, and leaves it as it
    was in every other case.  (b) On a pool of three free outgoing
    connections with the offset at [i], three one-way acquisitions, each
    released before the next, bind the connections at positions [i],
    [(i+1) mod 3] and [(i+2) mod 3]. *)
Theorem C3_async_offset_rotation :
  (∀ tid use s st,
     offset_ok s →
     size_of (mOutgoingConnections s) ≤ VECTOR_MAX →
     find_iteration tid use s = Done st →
     ∃ e a,
       findConnection (mHeap s) tid None (Some None)
         (mOutgoingConnections s) (mOutgoingConnectionsOffset s) = Done (e, a) ∧
       mOutgoingConnectionsOffset (step_session st) =
         if is_async use && (bool_decide (e ≠ None) || bool_decide (join_available a ≠ None))
         then (mOutgoingConnectionsOffset s + 1) mod size_of (mOutgoingConnections s)
         else mOutgoingConnectionsOffset s) ∧
  (∀ tid use s r,
     offset_ok s →
     size_of (mOutgoingConnections s) ≤ VECTOR_MAX →
     find [] tid use s = Done r →
     ∃ e a,
       findConnection (mHeap s) tid None (Some None)
         (mOutgoingConnections s) (mOutgoingConnectionsOffset s) = Done (e, a) ∧
       mOutgoingConnectionsOffset (fr_session r) =
         if is_async use && (bool_decide (e ≠ None) || bool_decide (join_available a ≠ None))
         then (mOutgoingConnectionsOffset s + 1) mod size_of (mOutgoingConnections s)
         else mOutgoingConnectionsOffset s) ∧
  (∀ t1 t2 t3 s i pool,
     mOutgoingConnections s = pool → length pool = 3%nat →
     pool_free (mHeap s) pool →
     mOutgoingConnectionsOffset s = i → 0 ≤ i < 3 →
     0 ≤ mWaitingThreads s < SIZE_MOD →
     ∃ c1 c2 c3 s1 s2 s3,
       acquire_release t1 CLIENT_ASYNC s = Done (OK, Some c1, s1) ∧
       acquire_release t2 CLIENT_ASYNC s1 = Done (OK, Some c2, s2) ∧
       acquire_release t3 CLIENT_ASYNC s2 = Done (OK, Some c3, s3) ∧
       pool !! Z.to_nat i = Some c1 ∧
       pool !! Z.to_nat ((i + 1) mod 3) = Some c2 ∧
       pool !! Z.to_nat ((i + 2) mod 3) = Some c3).
Proof.
  assert (Hpass : ∀ tid use s st,
            offset_ok s →
            size_of (mOutgoingConnections s) ≤ VECTOR_MAX →
            find_iteration tid use s = Done st →
            ∃ e a,
              findConnection (mHeap s) tid None (Some None)
                (mOutgoingConnections s) (mOutgoingConnectionsOffset s) = Done (e, a) ∧
              mOutgoingConnectionsOffset (step_session st) =
                if is_async use &&
                   (bool_decide (e ≠ None) || bool_decide (join_available a ≠ None))
                then (mOutgoingConnectionsOffset s + 1)
                       mod size_of (mOutgoingConnections s)
                else mOutgoingConnectionsOffset s).
  { intros tid use s st [Hoff0 Hoff1] Hmax Hit.
    destruct (find_iteration_offset _ _ _ _ Hit) as (e & a & Hscan & Hoffset).
    exists e, a. split; [done|]. rewrite Hoffset.
    destruct (is_async use && _); [|done].
    unfold size_add, SIZE_MOD, VECTOR_MAX in *. f_equal. rewrite Z.mod_small; lia. }
  split_and!.
  - exact Hpass.
  - intros tid use s r Hoff Hmax Hfind. unfold find in Hfind.
    cbn [find_loop] in Hfind.
    destruct (find_iteration _ _ _) as [st| |] eqn:Hit; [|done..].
    pose proof Hit as Hit'.
    apply Hpass in Hit' as (e & a & Hscan & Hoffset); [|exact Hoff|exact Hmax].
    cbn in Hscan, Hoffset. exists e, a. split; [done|].
    rewrite <- Hoffset. cbn [obind] in Hfind. destruct st; simplify_eq; done.
  - intros t1 t2 t3 s i pool Hpool Hlen Hfree Hi Hrange Hw.
    assert (Hsz : size_of pool = 3) by (unfold size_of; lia).
    assert (Hne : pool ≠ []) by (intros ->; done).
    destruct (acquire_release_async_free t1 s) as (c1 & Hc1 & Hacq1);
      [rewrite ?Hpool, ?Hsz, ?Hi; unfold VECTOR_MAX; done || lia..|].
    set (s1 := set_mOutgoingConnectionsOffset _ s) in Hacq1.
    destruct (acquire_release_async_free t2 s1) as (c2 & Hc2 & Hacq2);
      [subst s1; cbn; rewrite ?Hpool, ?Hsz, ?Hi; unfold VECTOR_MAX;
       try done; try lia; try (apply Z.mod_pos_bound; lia)..|].
    set (s2 := set_mOutgoingConnectionsOffset _ s1) in Hacq2.
    destruct (acquire_release_async_free t3 s2) as (c3 & Hc3 & Hacq3);
      [subst s2 s1; cbn; rewrite ?Hpool, ?Hsz, ?Hi; unfold VECTOR_MAX;
       try done; try lia; try (apply Z.mod_pos_bound; lia)..|].
    set (s3 := set_mOutgoingConnectionsOffset _ s2) in Hacq3.
    exists c1, c2, c3, s1, s2, s3. split_and!; try done.
    + by rewrite <- Hpool, <- Hi.
    + subst s1. cbn in Hc2. by rewrite Hpool, Hsz, Hi in Hc2.
    + subst s2 s1. cbn in Hc3. rewrite Hpool, Hsz, Hi in Hc3.
      rewrite <- Hc3. do 2 f_equal. rewrite Zplus_mod_idemp_l. f_equal. lia.
Qed.

(** ** Release *)

(** C4. The destructor of a bound handle.  Non-reentrant: the connection's
    [exclusiveTid] becomes [nullopt], [notify_one] is called once when
    [mWaitingThreads > 0] and not at all otherwise, and nothing else in the
    session changes (the other fields of that object, every other object,
    every other member).  Reentrant: the session is returned as it was and
    nobody is notified. *)
Theorem C4_release_exclusive_connection
    (h : ExclusiveConnection) (s : RpcSession) (p : ptr) (c : RpcConnection) :
  mConnection h = Some p →
  mHeap s !! p = Some c →
  (mReentrant h = false →
     ∃ s' n,
       ExclusiveConnection_destroy h s = (s', n) ∧
       owner_of s' p = None ∧
       (n = 1%nat ↔ 0 < mWaitingThreads s) ∧ (n = 0%nat ↔ mWaitingThreads s ≤ 0) ∧
       mHeap s' !! p = Some (mkRpcConnection (rpcTransport c) None (allowNested c)) ∧
       (∀ q, q ≠ p → mHeap s' !! q = mHeap s !! q) ∧
       length (mHeap s') = length (mHeap s) ∧
       set_mHeap (mHeap s) s' = s) ∧
  (mReentrant h = true → ExclusiveConnection_destroy h s = (s, 0%nat)).
Proof.
  intros Hconn Hc. unfold ExclusiveConnection_destroy. rewrite Hconn. split; intros ->.
  - assert (Hp : mHeap (store_exclusiveTid p None s) !! p
                 = Some (mkRpcConnection (rpcTransport c) None (allowNested c))).
    { cbn. by rewrite list_lookup_alter_eq, Hc. }
    exists (store_exclusiveTid p None s), (if 0 <? mWaitingThreads s then 1%nat else 0%nat).
    split_and!.
    + cbn. by destruct (0 <? _).
    + unfold owner_of. by rewrite Hp.
    + destruct (0 <? _) eqn:E; split; intros; try done; lia.
    + destruct (0 <? _) eqn:E; split; intros; try done; lia.
    + done.
    + intros q Hq. cbn. by rewrite list_lookup_alter_ne.
    + cbn. apply length_alter.
    + by destruct s.
  - done.
Qed.


(** ** Incoming connections *)

(** C5. [assignIncomingConnectionToThisThread] returns [nullptr] exactly when
    the incoming pool has reached [mMaxThreads] or has shrunk below
    [mMaxIncomingConnections], and then leaves the session as it was.
    Otherwise it appends one new object to the incoming pool, owned by the
    calling thread, sets [mMaxIncomingConnections] to the new pool size and
    touches neither the outgoing pool nor any existing object.  Either way
    [size(incoming) <= mMaxIncomingConnections <= mMaxThreads] is kept. *)
Theorem C5_assign_incoming_connection
    (tid : pid_t) (transport : Z) (s : RpcSession) :
  let r := assignIncomingConnectionToThisThread tid transport s in
  (fst r = None ↔
     (mMaxThreads s ≤ size_of (mIncomingConnections s) ∨
      size_of (mIncomingConnections s) < mMaxIncomingConnections s)) ∧
  (fst r = None → snd r = s) ∧
  (∀ p, fst r = Some p →
     mIncomingConnections (snd r) = mIncomingConnections s ++ [p] ∧
     owner_of (snd r) p = Some tid ∧
     mMaxIncomingConnections (snd r) = size_of (mIncomingConnections (snd r)) ∧
     mOutgoingConnections (snd r) = mOutgoingConnections s ∧
     mMaxThreads (snd r) = mMaxThreads s ∧
     mHeap s !! p = None ∧
     (∀ q, q ≠ p → mHeap (snd r) !! q = mHeap s !! q)) ∧
  (size_of (mIncomingConnections s) ≤ mMaxIncomingConnections s ≤ mMaxThreads s →
   size_of (mIncomingConnections (snd r)) ≤ mMaxIncomingConnections (snd r)
     ≤ mMaxThreads (snd r)).
Proof.
  unfold assignIncomingConnectionToThisThread, new_connection. cbn zeta.
  destruct (mMaxThreads s <=? _) eqn:Hmax; [|destruct (_ <? _) eqn:Hseen]; cbn.
  - split_and!; [split; [lia|done] | done | done | done].
  - split_and!; [split; [lia|done] | done | done | done].
  - split_and!.
    + split; [done|lia].
    + done.
    + intros p [= <-]. split_and!; try done.
      * unfold owner_of. cbn. by rewrite lookup_app_r, Nat.sub_diag.
      * apply lookup_ge_None_2. lia.
      * intros q Hq. destruct (decide (q < length (mHeap s))%nat).
        -- by rewrite lookup_app_l.
        -- rewrite lookup_app_r by lia.
           rewrite (lookup_ge_None_2 (mHeap s)) by lia.
           destruct (q - length (mHeap s))%nat eqn:E; [lia|done].
    + intros _. unfold size_of in *. rewrite length_app. cbn [length]. lia.
Qed.

(** ** The protocol version *)

(** C6. Once [mProtocolVersion] holds [p], [setProtocolVersion(v)] with
    [v > p] returns [false] and changes nothing, and with [v <= p], for a
    version the session knows (below [RPC_WIRE_PROTOCOL_VERSION_NEXT], or the
    experimental one), returns [true] and stores [v]. *)
Theorem C6_protocol_version_only_lowered (p v : Z) (s : RpcSession) :
  mProtocolVersion s = Some p →
  (p < v → setProtocolVersion v s = (false, s)) ∧
  (v ≤ p →
   v < RPC_WIRE_PROTOCOL_VERSION_NEXT ∨ v = RPC_WIRE_PROTOCOL_VERSION_EXPERIMENTAL →
   setProtocolVersion v s = (true, set_mProtocolVersion (Some v) s) ∧
   mProtocolVersion (snd (setProtocolVersion v s)) = Some v).
Proof.
  intros Hp. unfold setProtocolVersion. rewrite Hp. split.
  - intros Hlt. destruct (_ && _); [done|].
    by rewrite (proj2 (Z.ltb_lt p v)).
  - intros Hle Hknown.
    replace ((RPC_WIRE_PROTOCOL_VERSION_NEXT <=? v) &&
             negb (v =? RPC_WIRE_PROTOCOL_VERSION_EXPERIMENTAL)) with false.
    + by rewrite (proj2 (Z.ltb_ge p v)).
    + symmetry. destruct Hknown as [Hlt| ->].
      * apply andb_false_iff. left. lia.
      * rewrite Z.eqb_refl. apply andb_false_r.
Qed.


(** ** Scans that find a candidate *)

Section Candidates.
Context (heap : list RpcConnection) (tid : pid_t) (sockets : list ptr) (hint : Z).

Lemma findConnection_loop_available_set idx exclusive q :
  Forall (valid_at heap sockets hint) idx →
  ∃ e, findConnection_loop heap tid sockets hint idx exclusive (Some (Some q))
         = Done (e, Some (Some q)).
Proof.
  induction 1 as [|i idx (p & c & Hp & Hc) _ IH]; [by eexists|].
  cbn [findConnection_loop]. fold (scan_index sockets hint i). rewrite Hp, Hc.
  rewrite (bool_decide_eq_false_2 (Some (Some q) = Some None)) by done.
  cbn [andb]. destruct (bool_decide _); [by eexists | done].
Qed.

Lemma findConnection_loop_finds idx exclusive available :
  Forall (valid_at heap sockets hint) idx →
  Exists (λ i, ∃ p c, visits heap sockets hint i p c ∧ exclusiveTid c = None) idx →
  ∃ e a, findConnection_loop heap tid sockets hint idx exclusive (Some available)
           = Done (e, Some a) ∧ (e ≠ None ∨ a ≠ None).
Proof.
  intros Hall Hex. induction Hall as [|i idx (p & c & Hp & Hc) Hrest IH].
  { by apply Exists_nil in Hex. }
  cbn [findConnection_loop]. fold (scan_index sockets hint i). rewrite Hp, Hc.
  destruct available as [q|].
  - rewrite (bool_decide_eq_false_2 (Some (Some q) = Some None)) by done.
    cbn [andb]. destruct (bool_decide _).
    + eexists _, _. split; [done|]. by right.
    + destruct (findConnection_loop_available_set idx exclusive q Hrest) as [e ->].
      eexists _, _. split; [done|]. by right.
  - rewrite (bool_decide_eq_true_2 (Some None = Some None)) by done. cbn [andb].
    destruct (exclusiveTid c) as [owner|] eqn:Hown.
    + rewrite (bool_decide_eq_false_2 (Some owner = None)) by done.
      destruct (bool_decide (Some owner = Some tid)).
      * eexists _, _. split; [done|]. by left.
      * apply IH. apply Exists_cons in Hex as [(p' & c' & [Hp' Hc'] & Hfree)|]; [|done].
        exfalso. rewrite Hp in Hp'. simplify_eq; try congruence.
    + rewrite (bool_decide_eq_true_2 (None = None)) by done.
      destruct (findConnection_loop_available_set idx exclusive p Hrest) as [e ->].
      eexists _, _. split; [done|]. by right.
Qed.

(** A connection reported as [exclusive] is an object of the store. *)
Lemma findConnection_loop_exclusive_valid idx available e a q :
  findConnection_loop heap tid sockets hint idx None available = Done (e, a) →
  e = Some q → is_Some (heap !! q).
Proof.
  revert available. induction idx as [|i idx IH]; intros available; cbn [findConnection_loop].
  { intros; simplify_eq. }
  destruct (sockets !! _) as [p|]; [|done].
  destruct (heap !! p) as [c|] eqn:Hc; [|done].
  destruct (_ && _); [apply IH|].
  destruct (bool_decide _); [|apply IH].
  intros ? ?; simplify_eq. eauto.
Qed.

(** Starting anywhere, a scan of [size] steps passes every position. *)
Lemma scan_covers j :
  0 ≤ hint < size_of sockets → size_of sockets ≤ VECTOR_MAX →
  (j < length sockets)%nat →
  ∃ i, (i < length sockets)%nat ∧ scan_index sockets hint i = j.
Proof.
  intros Hh Hmax Hj. unfold size_of in *.
  set (n := Z.of_nat (length sockets)) in *.
  pose proof (Z.mod_pos_bound (Z.of_nat j - hint) n ltac:(lia)) as Hb.
  exists (Z.to_nat ((Z.of_nat j - hint) mod n)). split; [lia|].
  rewrite scan_index_exact; [|unfold size_of; fold n; lia..].
  unfold size_of. fold n. rewrite Z2Nat.id by lia.
  rewrite Zplus_mod_idemp_l. replace (Z.of_nat j - hint + hint) with (Z.of_nat j) by lia.
  rewrite Z.mod_small by lia. lia.
Qed.
End Candidates.


Lemma findConnection_finds heap tid sockets hint :
  pool_valid heap sockets → 0 ≤ hint < size_of sockets →
  (∃ p c, p ∈ sockets ∧ heap !! p = Some c ∧ exclusiveTid c = None) →
  ∃ e a, findConnection heap tid None (Some None) sockets hint = Done (e, Some a) ∧
         (e ≠ None ∨ a ≠ None).
Proof.
  intros Hv Hh (p & c & Hin & Hc & Hfree). unfold findConnection.
  replace ((0 <? size_of sockets) && (size_of sockets <=? hint)) with false
    by (symmetry; apply andb_false_iff; lia).
  rewrite bool_decide_eq_false_2 by (intros H; by apply H).
  apply findConnection_loop_finds.
  - eapply Forall_impl; [apply (seq_visits heap sockets hint (λ _, True)); [done|]|].
    + apply Forall_forall. done.
    + intros i (q & d & Hq & _). by exists q, d.
  - apply list_elem_of_lookup in Hin as [j Hj].
    destruct (scan_covers sockets hint j) as (i & Hi & Hscan);
      [done | apply Hv | by eapply lookup_lt_Some |].
    apply Exists_exists. exists i. split.
    + apply list_elem_of_In, in_seq. lia.
    + exists p, c. unfold visits. by rewrite Hscan.
Qed.

Lemma findConnection_incoming heap tid sockets :
  pool_valid heap sockets →
  ∃ e a, findConnection heap tid None None sockets 0 = Done (e, a) ∧
         (∀ q, e = Some q → is_Some (heap !! q)).
Proof.
  intros Hv. unfold findConnection.
  replace ((0 <? size_of sockets) && (size_of sockets <=? 0)) with false
    by (symmetry; apply andb_false_iff; lia).
  rewrite bool_decide_eq_false_2 by (intros H; by apply H).
  destruct (findConnection_loop_total heap tid sockets 0 (seq 0 (length sockets)) None None)
    as (e & a & Hloop).
  { eapply Forall_impl; [apply (seq_visits heap sockets 0 (λ _, True)); [done|]|].
    - apply Forall_forall. done.
    - intros i (q & d & Hq & _). by exists q, d. }
  exists e, a. split; [done|]. intros q ->.
  by eapply findConnection_loop_exclusive_valid.
Qed.

(** With a free connection in the outgoing pool, a pass through the loop of
    [find] binds a connection, whoever calls and for whatever use. *)
Local Ltac bound_done :=
  eexists _, _; split; [reflexivity | cbn; by eexists].

Lemma find_iteration_acquires tid use s :
  pool_valid (mHeap s) (mOutgoingConnections s) →
  pool_valid (mHeap s) (mIncomingConnections s) →
  0 ≤ mOutgoingConnectionsOffset s < size_of (mOutgoingConnections s) →
  (∃ p c, p ∈ mOutgoingConnections s ∧ mHeap s !! p = Some c ∧ exclusiveTid c = None) →
  ∃ h s', find_iteration tid use s = Done (Bound h s') ∧ is_Some (mConnection h).
Proof.
  intros Hout Hin Hoff Hfree.
  destruct (findConnection_finds _ tid _ _ Hout Hoff Hfree) as (e & a & Hscan & Hcand).
  destruct (findConnection_incoming _ tid _ Hin) as (ei & ai & Hscan_in & Hvalid).
  unfold find_iteration. rewrite Hscan. cbn [obind fst snd join_available].
  match goal with |- context [Bound _ ?x] => set (s1 := x) end.
  assert (Hheap : mHeap s1 = mHeap s) by (subst s1; by destruct (_ && _)).
  assert (Hinc : mIncomingConnections s1 = mIncomingConnections s)
    by (subst s1; by destruct (_ && _)).
  rewrite Hheap, Hinc. destruct (negb (is_async use)).
  - rewrite Hscan_in. cbn [obind fst snd].
    destruct ei as [q|].
    + destruct (Hvalid q eq_refl) as [c ->]. cbn [obind fst snd].
      destruct (allowNested c); cbn [obind]; [bound_done|].
      destruct (is_refcount use && _); cbn [obind]; [bound_done|].
      destruct e; [bound_done|]. destruct a; [bound_done|]. by destruct Hcand.
    + cbn [obind]. destruct e; [bound_done|]. destruct a; [bound_done|].
      by destruct Hcand.
  - cbn [obind]. destruct e; [bound_done|]. destruct a; [bound_done|].
    by destruct Hcand.
Qed.

Lemma find_acquires wakeups tid use s :
  pool_valid (mHeap s) (mOutgoingConnections s) →
  pool_valid (mHeap s) (mIncomingConnections s) →
  0 ≤ mOutgoingConnectionsOffset s < size_of (mOutgoingConnections s) →
  (∃ p c, p ∈ mOutgoingConnections s ∧ mHeap s !! p = Some c ∧ exclusiveTid c = None) →
  ∃ r, find wakeups tid use s = Done r ∧ fr_status r = OK ∧ fr_waits r = 0%nat ∧
       is_Some (mConnection (fr_connection r)).
Proof.
  intros Hout Hin Hoff Hfree.
  destruct (find_iteration_acquires tid use
              (set_mWaitingThreads (size_add (mWaitingThreads s) 1) s))
    as (h & s' & Hit & Hconn); [done..|].
  unfold find. destruct wakeups; cbn [find_loop]; rewrite Hit; cbn [obind];
    by eexists.
Qed.


(** ** Outgoing connections *)

Lemma pool_valid_mono (heap heap' : list RpcConnection) sockets :
  (∀ p, is_Some (heap !! p) → is_Some (heap' !! p)) →
  pool_valid heap sockets → pool_valid heap' sockets.
Proof.
  intros Hmono [Hv Hsz]. split; [|done].
  eapply Forall_impl; [exact Hv|]. intros p. apply Hmono.
Qed.

Lemma is_Some_alter_app (heap : list RpcConnection) f p c q :
  is_Some (heap !! q) → is_Some (alter f p (heap ++ [c]) !! q).
Proof.
  intros Hq. apply lookup_lt_is_Some. rewrite length_alter, length_app.
  apply lookup_lt_is_Some in Hq. lia.
Qed.

(** C10. [addOutgoingConnection] returns [OK] having created one new object,
    put it at the back of the outgoing pool with the calling thread as owner,
    and cleared the owner again after the connection-init write: whatever
    went on during that write (as long as live objects stay in place), the
    new connection is free when the function returns.  When the write leaves
    the session alone, the new connection is the last of the outgoing pool
    and a [find] by any thread, for any use, then binds a connection without
    waiting. *)
Theorem C10_add_outgoing_connection_is_free
    (sendConnectionInit : ptr → RpcSession → RpcSession)
    (tid : pid_t) (transport : Z) (init : bool) (s : RpcSession) :
  (∀ p s0, (length (mHeap s0) ≤ length (mHeap (sendConnectionInit p s0)))%nat) →
  ∃ p s',
    addOutgoingConnection sendConnectionInit tid transport init s = (OK, p, s') ∧
    mHeap s !! p = None ∧
    (let s1 := snd (addOutgoingConnection_publish tid transport s) in
     mOutgoingConnections s1 = mOutgoingConnections s ++ [p] ∧
     owner_of s1 p = Some tid) ∧
    (∃ c, mHeap s' !! p = Some c ∧ exclusiveTid c = None) ∧
    ((∀ s0, sendConnectionInit p s0 = s0) →
       mOutgoingConnections s' = mOutgoingConnections s ++ [p] ∧
       mIncomingConnections s' = mIncomingConnections s ∧
       (pool_valid (mHeap s) (mOutgoingConnections s) →
        pool_valid (mHeap s) (mIncomingConnections s) →
        offset_ok s → size_of (mOutgoingConnections s) < VECTOR_MAX →
        ∀ wakeups t use, ∃ r,
          find wakeups t use s' = Done r ∧ fr_status r = OK ∧ fr_waits r = 0%nat ∧
          is_Some (mConnection (fr_connection r)))).
Proof.
  intros Hkeep.
  unfold addOutgoingConnection, addOutgoingConnection_publish, new_connection.
  cbn zeta. set (p := length (mHeap s)).
  set (c := mkRpcConnection transport (Some tid) allowNested_initial).
  set (s1 := set_mOutgoingConnections _ (set_mHeap (mHeap s ++ [c]) s)).
  set (s2 := if init then sendConnectionInit p s1 else s1).
  assert (Hs1 : mHeap s1 !! p = Some c).
  { subst s1 p. cbn. by rewrite lookup_app_r, Nat.sub_diag. }
  assert (Hlen : (p < length (mHeap s2))%nat).
  { apply lookup_lt_Some in Hs1. subst s2. destruct init; [|done].
    specialize (Hkeep p s1). lia. }
  destruct (lookup_lt_is_Some_2 _ _ Hlen) as [c2 Hc2].
  exists p, (store_exclusiveTid p None s2).
  split; [|split; [|split; [|split]]].
  - done.
  - apply lookup_ge_None_2. subst p. lia.
  - assert (Hown : owner_of s1 p = Some tid) by (unfold owner_of; by rewrite Hs1).
    cbn zeta. split; [done | exact Hown].
  - exists (set_exclusiveTid None c2). cbn. by rewrite list_lookup_alter_eq, Hc2.
  - intros Hid.
    assert (Hs2 : s2 = s1) by (subst s2; destruct init; [apply Hid|done]).
    rewrite Hs2. split_and!; [done..|].
    intros Hout Hin [Hoff0 Hoff1] Hsz wakeups t use.
    apply find_acquires; cbn.
    + split.
      * apply Forall_app. split.
        -- eapply Forall_impl; [apply Hout|]. intros q. apply is_Some_alter_app.
        -- apply Forall_singleton. apply lookup_lt_is_Some.
           rewrite length_alter, length_app. subst p. cbn. lia.
      * unfold size_of in *. rewrite length_app. cbn [length]. lia.
    + eapply pool_valid_mono; [|exact Hin]. intros q. apply is_Some_alter_app.
    + unfold size_of in *. rewrite length_app. cbn [length]. lia.
    + exists p, (set_exclusiveTid None c). split_and!.
      * apply elem_of_app. right. by apply list_elem_of_singleton.
      * rewrite list_lookup_alter_eq. fold p c.
        replace (mHeap s ++ [c]) with (mHeap s1) by done. by rewrite Hs1.
      * done.
Qed.


(** ** The connect retry loop *)





Section RetryLoop.
Context (env : nat → connect_env) (tid : pid_t) (sid : RpcAddress)
        (incoming : bool) (s : RpcSession).

Lemma slept_trace (trace : list sock_event) t :
  (if (0 <? t)%nat then trace ++ [EvUsleep 10000] else trace) = trace ++ sleep_before t.
Proof. unfold sleep_before. destruct (0 <? t)%nat; by rewrite ?app_nil_r. Qed.

(** One pass, case by case. *)
Lemma loop_socket_fails t rest trace e :
  ce_socket (env t) = SysErr e →
  setupOneSocketConnection_loop (t :: rest) env tid sid incoming s trace = Done (- e, s, trace ++ sleep_before t ++ [EvSocket]).
Proof.
  intros He. cbn [setupOneSocketConnection_loop].
  by rewrite He, slept_trace, <- app_assoc.
Qed.

Lemma loop_connect_returns t rest trace fd st :
  ce_socket (env t) = SysOk fd → fst (connect_errno (env t)) = inl st →
  setupOneSocketConnection_loop (t :: rest) env tid sid incoming s trace = Done (st, s, trace ++ pass_trace env t).
Proof.
  intros Hfd Hres. unfold pass_trace. cbn [setupOneSocketConnection_loop].
  rewrite Hfd, slept_trace. destruct (connect_errno (env t)) as [res evs].
  cbn in Hres. subst res. cbn. by rewrite <- app_assoc.
Qed.

Lemma loop_retries t rest trace :
  reset_pass env t →
  setupOneSocketConnection_loop (t :: rest) env tid sid incoming s trace = setupOneSocketConnection_loop rest env tid sid incoming s
    (trace ++ pass_trace env t).
Proof.
  intros (fd & Hfd & Hres). unfold pass_trace.
  cbn [setupOneSocketConnection_loop].
  rewrite Hfd, slept_trace. destruct (connect_errno (env t)) as [res evs].
  cbn in Hres. subst res. cbn. by rewrite <- app_assoc.
Qed.

Lemma loop_connect_fails t rest trace fd e :
  ce_socket (env t) = SysOk fd → fst (connect_errno (env t)) = inr e →
  e ≠ ECONNRESET → e ≠ 0 →
  setupOneSocketConnection_loop (t :: rest) env tid sid incoming s trace = Done (- e, s, trace ++ pass_trace env t).
Proof.
  intros Hfd Hres Hne H0. unfold pass_trace.
  cbn [setupOneSocketConnection_loop].
  rewrite Hfd, slept_trace. destruct (connect_errno (env t)) as [res evs].
  cbn in Hres. subst res. cbn [fst snd].
  rewrite (proj2 (Z.eqb_neq e ECONNRESET)), (proj2 (Z.eqb_neq e 0)) by done.
  cbn. by rewrite <- app_assoc.
Qed.

Lemma loop_connected t rest trace fd :
  ce_socket (env t) = SysOk fd → fst (connect_errno (env t)) = inr 0 →
  setupOneSocketConnection_loop (t :: rest) env tid sid incoming s trace =
    do r <- initAndAddConnection (ce_init (env t)) tid fd sid incoming s;
    Done (fst r, snd r, trace ++ pass_trace env t ++ [EvInit fd]).
Proof.
  intros Hfd Hres. unfold pass_trace.
  cbn [setupOneSocketConnection_loop].
  rewrite Hfd, slept_trace. destruct (connect_errno (env t)) as [res evs].
  cbn in Hres. subst res. cbn [fst snd].
  change (0 =? ECONNRESET) with false. change (0 =? 0) with true. cbn [negb].
  by rewrite <- !app_assoc.
Qed.


End RetryLoop.







(** ** Shutdown *)

(** What the other member functions leave alone. *)
Lemma find_iteration_frame tid use s st :
  find_iteration tid use s = Done st →
  mIncomingConnections (step_session st) = mIncomingConnections s ∧
  mMaxIncomingConnections (step_session st) = mMaxIncomingConnections s ∧
  mShutdownListener (step_session st) = mShutdownListener s ∧
  mOutgoingConnections (step_session st) = mOutgoingConnections s ∧
  mMaxThreads (step_session st) = mMaxThreads s ∧
  mThreads (step_session st) = mThreads s.
Proof.
  unfold find_iteration, obind. intros H.
  repeat case_match; simplify_eq; done.
Qed.

Lemma session_op_frame s s' :
  session_op s s' →
  mIncomingConnections s' = mIncomingConnections s ∧
  mMaxIncomingConnections s' = mMaxIncomingConnections s ∧
  (waitForShutdown_done s' = true → waitForShutdown_done s = true).
Proof.
  destruct 1 as [s|tid use s st Hit|s|h s|v s|n s s' Hset|made s
                 |made id s r Hset|id s|tid transport s|p s|s s' Hsh].
  - done.
  - by destruct (find_iteration_frame _ _ _ _ Hit) as (-> & -> & Hl & _);
      unfold waitForShutdown_done; rewrite Hl.
  - done.
  - unfold release, ExclusiveConnection_destroy. repeat case_match; done.
  - unfold setProtocolVersion. repeat case_match; done.
  - unfold setMaxThreads in Hset. case_match; simplify_eq. done.
  - unfold initShutdownTrigger, waitForShutdown_done.
    destruct (mShutdownTrigger s); [done|]. by destruct made.
  - unfold setForServer in Hset. repeat case_match; simplify_eq; done.
  - done.
  - done.
  - done.
  - unfold shutdownAndWait_begin in Hsh. repeat case_match; simplify_eq; done.
Qed.

Lemma erase_first_length p l rest :
  erase_first p l = Some rest → length l = S (length rest).
Proof.
  revert rest. induction l as [|q l IH]; intros rest; cbn; [done|].
  case_bool_decide; [by intros [= ->]|].
  destruct (erase_first p l) as [rest'|]; [|done].
  intros [= <-]. cbn. by rewrite (IH rest').
Qed.
















(** ** Client setup *)

Lemma pools_same_trans s1 s2 s3 :
  pools_same s1 s2 → pools_same s2 s3 → pools_same s1 s3.
Proof. intros (?&?&?&?) (?&?&?&?). unfold pools_same. split_and!; congruence. Qed.

Lemma find_pools_same tid use s r :
  find [] tid use s = Done r → pools_same s (fr_session r).
Proof.
  unfold find. cbn [find_loop]. intros H.
  destruct (find_iteration _ _ _) as [st| |] eqn:Hit; [|done..].
  destruct (find_iteration_frame _ _ _ _ Hit) as (Hin & Hmax & _ & Hout & Hmt & _).
  cbn [obind] in H. destruct st; simplify_eq; cbn in *; by unfold pools_same.
Qed.

Lemma release_pools_same h s : pools_same s (release h s).
Proof. unfold release, ExclusiveConnection_destroy. repeat case_match; done. Qed.

Lemma negotiate_version_pools_same env tid s st s' :
  negotiate_version env tid s = Done (st, s') → pools_same s s'.
Proof.
  unfold negotiate_version. intros H.
  destruct (find [] tid CLIENT s) as [r| |] eqn:Hfind; [|done..].
  apply find_pools_same in Hfind. cbn [obind] in H.
  assert (Hset : ∀ v, pools_same (fr_session r) (snd (setProtocolVersion v (fr_session r)))).
  { intros v. unfold setProtocolVersion. repeat case_match; done. }
  repeat case_match; simplify_eq;
    (eapply pools_same_trans; [exact Hfind|]);
    try apply release_pools_same.
  all: eapply pools_same_trans; [|apply release_pools_same].
  all: match goal with
       | H : setProtocolVersion ?v _ = (_, ?s1) |- _ =>
         specialize (Hset v); by rewrite H in Hset
       end.
Qed.



Lemma initShutdownTrigger_pools_same made s :
  pools_same s (snd (initShutdownTrigger made s)).
Proof. unfold initShutdownTrigger. repeat case_match; done. Qed.






(** What a successful [initAndAddConnection] does to the pools. *)
Lemma initAndAddConnection_outgoing env tid fd sid s s' :
  (∀ p s0, pools_same s0 (ie_sendConnectionInit env p s0)) →
  initAndAddConnection env tid fd sid false s = Done (OK, s') →
  size_of (mOutgoingConnections s') = size_of (mOutgoingConnections s) + 1 ∧
  mIncomingConnections s' = mIncomingConnections s ∧
  mMaxIncomingConnections s' = mMaxIncomingConnections s ∧
  mMaxThreads s' = mMaxThreads s.
Proof.
  intros Hquiet. unfold initAndAddConnection.
  destruct (mShutdownTrigger s); [|done].
  destruct (ie_newTransport env) as [server|]; [|done].
  destruct (ie_writeHeader env _ =? OK) eqn:Hw; cbn [negb];
    [|intros [= Hst <-]; by rewrite Hst in Hw].
  unfold addOutgoingConnection, addOutgoingConnection_publish, new_connection.
  cbn zeta. intros [= <-].
  match goal with |- context [ie_sendConnectionInit env ?p ?s0] =>
    destruct (Hquiet p s0) as (Hout & Hin & Hmax & Hmt) end.
  cbn in *. rewrite Hout, Hin, Hmax, Hmt. unfold size_of. rewrite length_app.
  cbn [length]. split_and!; [lia|done..].
Qed.



Lemma connect_errno_status e st :
  errno_set e → fst (connect_errno e) = inl st → st ≠ OK.
Proof.
  intros [_ Hg]. unfold connect_errno.
  repeat case_match; cbn; intros; simplify_eq.
  - intros Hok. match goal with H : negb (_ =? OK) = true |- _ => rewrite Hok in H end.
    done.
  - unfold OK. intros Hz. apply Hg. f_equal. lia.
Qed.

(** A socket setup that returns [OK] went through [initAndAddConnection]. *)
Lemma setupOneSocketConnection_loop_ok tries env tid sid incoming s trace s' tr :
  (∀ t, errno_set (env t)) →
  setupOneSocketConnection_loop tries env tid sid incoming s trace = Done (OK, s', tr) →
  ∃ t fd, initAndAddConnection (ce_init (env t)) tid fd sid incoming s = Done (OK, s').
Proof.
  intros Herr. revert trace. induction tries as [|t rest IH]; intros trace Hrun.
  { cbn in Hrun. simplify_eq. }
  destruct (ce_socket (env t)) as [fd|e] eqn:Hfd.
  - destruct (connect_errno (env t)) as [res evs] eqn:Hce.
    destruct res as [st|e].
    + rewrite (loop_connect_returns env tid sid incoming s t rest trace fd st) in Hrun
        by (by rewrite ?Hce). simplify_eq.
      by destruct (connect_errno_status (env t) OK (Herr t)); rewrite ?Hce.
    + destruct (decide (e = ECONNRESET)) as [->|Hne].
      * rewrite loop_retries in Hrun by (exists fd; by rewrite Hce). by eapply IH.
      * destruct (decide (e = 0)) as [->|H0].
        -- rewrite (loop_connected env tid sid incoming s t rest trace fd) in Hrun
             by (by rewrite ?Hce).
           destruct (initAndAddConnection _ _ _ _ _ _) as [[st s0]| |] eqn:Hinit;
             [|done..].
           cbn in Hrun. simplify_eq. eauto.
        -- rewrite (loop_connect_fails env tid sid incoming s t rest trace fd e) in Hrun
             by (by rewrite ?Hce). simplify_eq. unfold OK in *. lia.
  - rewrite (loop_socket_fails env tid sid incoming s t rest trace e) in Hrun by done.
    simplify_eq. destruct (Herr t) as [Hs _]. exfalso. apply Hs. rewrite Hfd.
    f_equal. unfold OK in *. lia.
Qed.

Section ConnectEach.
Context (connectAndInit : connect_fn).



End ConnectEach.






Lemma socket_connect_ok (addr : call_site → nat → connect_env) tid site sid
    incoming s s' :
  (∀ t, errno_set (addr site t)) →
  (do r <- setupOneSocketConnection (addr site) tid sid incoming s;
   Done (fst (fst r), snd (fst r))) = Done (OK, s') →
  ∃ t fd,
    initAndAddConnection (ce_init (addr site t)) tid fd sid incoming s = Done (OK, s').
Proof.
  intros Herr H. unfold setupOneSocketConnection in H.
  destruct (setupOneSocketConnection_loop _ _ _ _ _ _ _) as [[[st s1] tr]| |] eqn:Hloop;
    [|done..].
  cbn in H. simplify_eq. by eapply setupOneSocketConnection_loop_ok.
Qed.


(* ================================================================== *)
(** * Further properties of the members *)

(** ** What a scan reports *)

Lemma findConnection_loop_sound heap tid sockets hint idx available e a :
  (∀ p, available = Some (Some p) →
        p ∈ sockets ∧ ∃ c, heap !! p = Some c ∧ exclusiveTid c = None) →
  findConnection_loop heap tid sockets hint idx None available = Done (e, a) →
  (∀ p, e = Some p → p ∈ sockets ∧ ∃ c, heap !! p = Some c ∧ exclusiveTid c = Some tid) ∧
  (∀ p, a = Some (Some p) → p ∈ sockets ∧ ∃ c, heap !! p = Some c ∧ exclusiveTid c = None) ∧
  (available = None → a = None).
Proof.
  revert available. induction idx as [|i idx IH]; intros available Hav;
    cbn [findConnection_loop].
  { intros [= <- <-]. by split_and!. }
  destruct (sockets !! _) as [p|] eqn:Hp; [|done].
  destruct (heap !! p) as [c|] eqn:Hc; [|done].
  assert (Hin : p ∈ sockets) by (apply list_elem_of_lookup; eauto).
  destruct (bool_decide (available = Some None)) eqn:E1;
    [destruct (bool_decide (exclusiveTid c = None)) eqn:E2|]; cbn [andb].
  - apply bool_decide_eq_true in E1, E2. intros H. apply IH in H.
    + destruct H as (He & Ha & _). split_and!; [done|done|]. by rewrite E1.
    + intros q [= <-]. eauto.
  - destruct (bool_decide (exclusiveTid c = Some tid)) eqn:E3.
    + apply bool_decide_eq_true in E3. intros [= <- <-].
      split_and!; [|done|done]. intros q [= <-]. eauto.
    + by apply IH.
  - destruct (bool_decide (exclusiveTid c = Some tid)) eqn:E3.
    + apply bool_decide_eq_true in E3. intros [= <- <-].
      split_and!; [|done|done]. intros q [= <-]. eauto.
    + by apply IH.
Qed.

Lemma findConnection_sound heap tid sockets hint available e a :
  available = None ∨ available = Some None →
  findConnection heap tid None available sockets hint = Done (e, a) →
  (∀ p, e = Some p → p ∈ sockets ∧ ∃ c, heap !! p = Some c ∧ exclusiveTid c = Some tid) ∧
  (∀ p, a = Some (Some p) → p ∈ sockets ∧ ∃ c, heap !! p = Some c ∧ exclusiveTid c = None) ∧
  (available = None → a = None).
Proof.
  intros Hav. unfold findConnection. destruct (_ && _); [done|].
  rewrite bool_decide_eq_false_2 by (intros H; by apply H).
  apply findConnection_loop_sound. intros p Hp. destruct Hav; simplify_eq.
Qed.

Lemma owner_of_store_eq p v s c :
  mHeap s !! p = Some c → owner_of (store_exclusiveTid p v s) p = v.
Proof. intros Hc. unfold owner_of. cbn. by rewrite list_lookup_alter_eq, Hc. Qed.

Lemma owner_of_lookup s p c :
  mHeap s !! p = Some c → owner_of s p = exclusiveTid c.
Proof. intros Hc. unfold owner_of. by rewrite Hc. Qed.

(** What a pass through the loop of [find] that binds a connection has
    done. *)
Lemma find_iteration_bound tid use s h s' :
  find_iteration tid use s = Done (Bound h s') → bound_spec tid use s h s'.
Proof.
  unfold find_iteration.
  destruct (findConnection _ _ _ _ (mOutgoingConnections s) _) as [[e a]| |] eqn:Hscan;
    [|done..].
  apply findConnection_sound in Hscan as (He & Ha & _); [|by right].
  cbn [obind fst snd].
  match goal with |- context [Bound _ ?x] => set (s1 := x) end.
  assert (Hs1 : s1 = set_mOutgoingConnectionsOffset (mOutgoingConnectionsOffset s1) s).
  { subst s1. destruct (_ && _); by destruct s. }
  assert (Hheap : mHeap s1 = mHeap s) by (by rewrite Hs1).
  assert (Hinc : mIncomingConnections s1 = mIncomingConnections s) by (by rewrite Hs1).
  clearbody s1.
  assert (Hfin : ∀ x : option nat,
    (∀ p, x = Some p → (∃ c, mHeap s !! p = Some c ∧ exclusiveTid c = Some tid) ∧
       (p ∈ mOutgoingConnections s ∨ is_async use = false ∧ p ∈ mIncomingConnections s)) →
    match x with
    | Some p => Done (Bound (mkExclusiveConnection (Some p) true) s1)
    | None =>
      match join_available a with
      | Some p => Done (Bound (mkExclusiveConnection (Some p) false)
                          (store_exclusiveTid p (Some tid) s1))
      | None => if size_of (mOutgoingConnections s1) =? 0
                then Done (ReturnWouldBlock s1) else Done (WaitForConnection s1)
      end
    end = Done (Bound h s') →
    bound_spec tid use s h s').
  { intros [p|] Hx.
    - intros [= <- <-]. destruct (Hx p eq_refl) as [(c & Hc & Hown) Hwhere].
      exists p, c. cbn. split_and!; [done|done| |done]. done.
    - destruct a as [[p|]|]; cbn [join_available].
      + intros [= <- <-]. destruct (Ha p eq_refl) as (Hin & c & Hc & Hfree).
        exists p, c. cbn [mConnection mReentrant]. split_and!; [done|done|done|].
        intros _. split_and!; [done|done|]. rewrite Hs1 at 1. by destruct s.
      + destruct (_ =? _); done.
      + destruct (_ =? _); done. }
  destruct (negb (is_async use)) eqn:Hasync.
  - apply negb_true_iff in Hasync.
    destruct (findConnection _ _ _ _ (mIncomingConnections s1) _) as [[ei ai]| |] eqn:Hscan_in;
      [|done..].
    rewrite Hheap, Hinc in Hscan_in.
    apply findConnection_sound in Hscan_in as (Hei & _ & _); [|by left].
    cbn [obind fst snd].
    assert (Hout_ok : ∀ p, e = Some p →
       (∃ c, mHeap s !! p = Some c ∧ exclusiveTid c = Some tid) ∧
       (p ∈ mOutgoingConnections s ∨ is_async use = false ∧ p ∈ mIncomingConnections s)).
    { intros p Hp. destruct (He p Hp) as (Hin & Hc). split; [done|by left]. }
    assert (Hin_ok : ∀ q p, ei = Some q → Some q = Some p →
       (∃ c, mHeap s !! p = Some c ∧ exclusiveTid c = Some tid) ∧
       (p ∈ mOutgoingConnections s ∨ is_async use = false ∧ p ∈ mIncomingConnections s)).
    { intros q p Hq [= <-]. destruct (Hei q Hq) as (Hin & Hc). split; [done|by right]. }
    destruct ei as [q|]; [|by apply Hfin].
    rewrite Hheap. destruct (mHeap s !! q) as [c|]; [|done].
    destruct (allowNested c); cbn [obind]; [apply (Hfin (Some q)); eauto|].
    destruct (is_refcount use && _); cbn [obind];
      [apply (Hfin (Some q)); eauto | apply (Hfin e); eauto].
  - cbn [obind]. apply Hfin. intros p Hp. destruct (He p Hp) as (Hin & Hc).
    split; [done|by left].
Qed.

(** A pass that binds nothing leaves the session as it was. *)
Lemma find_iteration_unbound tid use s st :
  find_iteration tid use s = Done st →
  (∀ h s', st ≠ Bound h s') → step_session st = s.
Proof.
  unfold find_iteration.
  destruct (findConnection _ _ _ _ (mOutgoingConnections s) _) as [[e a]| |]; [|done..].
  cbn [obind fst snd]. intros H Hnb.
  destruct (is_async use) eqn:Hasync; cbn [negb andb] in H.
  - cbn [obind] in H. destruct e as [p|], a as [[q|]|]; cbn in H;
      try (injection H as <-; by edestruct Hnb);
      destruct (_ =? _); by injection H as <-.
  - unfold obind in H. repeat case_match; simplify_eq; cbn;
      done || (by edestruct Hnb).
Qed.

Lemma find_loop_waits_ge wakeups tid use n s r :
  find_loop wakeups tid use n s = Done r → (n ≤ fr_waits r)%nat.
Proof.
  revert n s. induction wakeups as [|w ws IH]; intros n s; cbn [find_loop];
    destruct (find_iteration tid use s) as [[h s'|s'|s']| |]; cbn [obind];
    intros H; simplify_eq; cbn; try lia.
  apply IH in H. lia.
Qed.

(** A call of [find] that has not waited is one pass through the loop. *)
Lemma find_first_pass wakeups tid use s r :
  find wakeups tid use s = Done r → fr_waits r = 0%nat →
  ∃ st, find_iteration tid use (set_mWaitingThreads (size_add (mWaitingThreads s) 1) s)
          = Done st ∧
    match st with
    | Bound h s' =>
      r = mkFindResult OK h (set_mWaitingThreads (size_sub (mWaitingThreads s') 1) s') 0
    | ReturnWouldBlock s' =>
      r = mkFindResult WOULD_BLOCK (mkExclusiveConnection None false) s' 0
    | WaitForConnection _ => False
    end.
Proof.
  unfold find. intros H Hw.
  destruct wakeups as [|w ws]; cbn [find_loop] in H;
    destruct (find_iteration _ _ _) as [[h s'|s'|s']| |]; cbn [obind] in H;
    simplify_eq; try (by eexists).
  apply find_loop_waits_ge in H. lia.
Qed.

Lemma bound_spec_owner tid use s h s' :
  bound_spec tid use s h s' →
  ∃ p, mConnection h = Some p ∧ owner_of s' p = Some tid.
Proof.
  intros (p & c & Hconn & Hc & Hre & Hnew). exists p. split; [done|].
  destruct (mReentrant h).
  - destruct (Hre eq_refl) as (Hown & -> & _).
    rewrite (owner_of_lookup _ _ c); done.
  - destruct (Hnew eq_refl) as (_ & _ & ->). by apply (owner_of_store_eq _ _ _ c).
Qed.

Lemma find_loop_owner wakeups tid use n s r :
  find_loop wakeups tid use n s = Done r →
  (fr_status r = OK ∧
   ∃ p, mConnection (fr_connection r) = Some p ∧ owner_of (fr_session r) p = Some tid) ∨
  (fr_status r = WOULD_BLOCK ∧ fr_connection r = mkExclusiveConnection None false).
Proof.
  revert n s. induction wakeups as [|w ws IH]; intros n s; cbn [find_loop];
    destruct (find_iteration tid use s) as [[h s'|s'|s']| |] eqn:Hit; cbn [obind];
    intros H; simplify_eq; cbn; try (by right); try (by eapply IH);
    left; (split; [done|]);
    apply find_iteration_bound, bound_spec_owner in Hit; exact Hit.
Qed.

Lemma find_loop_waits_le wakeups tid use n s r :
  find_loop wakeups tid use n s = Done r → (fr_waits r ≤ n + length wakeups)%nat.
Proof.
  revert n s. induction wakeups as [|w ws IH]; intros n s; cbn [find_loop];
    destruct (find_iteration tid use s) as [[h s'|s'|s']| |]; cbn [obind];
    intros H; simplify_eq; cbn; try lia.
  apply IH in H. lia.
Qed.

(** X1. Whatever happens while it waits, [ExclusiveConnection::find] returns
    in one of two ways: [OK] with the handle bound to a connection whose
    [exclusiveTid] is the calling thread at the moment of return, or
    [WOULD_BLOCK] with the handle unbound and not reentrant.  No other status
    is returned, [OK] never comes with an empty handle, and the call has
    waited at most once per wake-up. *)
Theorem X1_find_returns_a_connection_of_the_caller
    (wakeups : list (RpcSession → RpcSession)) (tid : pid_t)
    (use : ConnectionUse) (s : RpcSession) (r : find_result) :
  find wakeups tid use s = Done r →
  (fr_waits r ≤ length wakeups)%nat ∧
  ((fr_status r = OK ∧
    ∃ p, mConnection (fr_connection r) = Some p ∧ owner_of (fr_session r) p = Some tid) ∨
   (fr_status r = WOULD_BLOCK ∧ fr_connection r = mkExclusiveConnection None false)).
Proof.
  unfold find. intros Hfind. split.
  - apply find_loop_waits_le in Hfind. lia.
  - by apply find_loop_owner in Hfind.
Qed.

(** X2. A [find] that returns [OK] without having waited has bound either a
    connection that the calling thread already held (the handle is then
    reentrant and no object of the store has changed) or an outgoing
    connection that nobody held (the handle is then not reentrant and the
    only change to the store is that connection's [exclusiveTid]).  It never
    binds a connection held by another thread, a non-reentrant handle never
    names an incoming connection, and a one-way call never uses one. *)
Theorem X2_find_takes_own_or_free_connections_only
    (wakeups : list (RpcSession → RpcSession)) (tid : pid_t)
    (use : ConnectionUse) (s : RpcSession) (r : find_result) :
  find wakeups tid use s = Done r → fr_waits r = 0%nat → fr_status r = OK →
  ∃ p c, mConnection (fr_connection r) = Some p ∧ mHeap s !! p = Some c ∧
    exclusiveTid c = (if mReentrant (fr_connection r) then Some tid else None) ∧
    (∀ t, t ≠ tid → exclusiveTid c ≠ Some t) ∧
    (∀ q, q ≠ p → mHeap (fr_session r) !! q = mHeap s !! q) ∧
    (mReentrant (fr_connection r) = true → mHeap (fr_session r) = mHeap s) ∧
    (mReentrant (fr_connection r) = false → p ∈ mOutgoingConnections s) ∧
    (use = CLIENT_ASYNC → p ∈ mOutgoingConnections s) ∧
    (p ∈ mOutgoingConnections s ∨ p ∈ mIncomingConnections s).
Proof.
  intros Hfind Hw Hok.
  destruct (find_first_pass _ _ _ _ _ Hfind Hw) as ([h s'|s'|s'] & Hit & Hr);
    [|by subst r|done].
  apply find_iteration_bound in Hit as (p & c & Hconn & Hc & Hre & Hnew).
  subst r. cbn [fr_connection fr_session fr_status] in *. cbn in Hc.
  exists p, c. destruct (mReentrant h).
  - destruct (Hre eq_refl) as (Hown & Hs' & Hwhere). cbn in Hwhere.
    assert (Hheap : mHeap s' = mHeap s) by (by rewrite Hs').
    split_and!; try done.
    + intros t Ht. rewrite Hown. congruence.
    + intros q _. cbn. by rewrite Hheap.
    + intros ->. by destruct Hwhere as [|[? _]].
    + destruct Hwhere as [|[_ ?]]; eauto.
  - destruct (Hnew eq_refl) as (Hfree & Hin & Hs'). cbn in Hin.
    split_and!; try done.
    + intros t _. by rewrite Hfree.
    + intros q Hq. rewrite Hs'. cbn. by rewrite list_lookup_alter_ne.
    + by left.
Qed.

(** ** Acquire, use, release *)

Lemma find_nil_waits tid use s r : find [] tid use s = Done r → fr_waits r = 0%nat.
Proof.
  unfold find. cbn [find_loop].
  destruct (find_iteration _ _ _) as [[h s'|s'|s']| |]; cbn [obind];
    intros H; by simplify_eq.
Qed.

(** The two ways a [find] that has not waited ends, seen from the session it
    was called on: the handle's destructor gives back the session with at
    most the offset moved, or nothing is bound and only the counter of
    waiting threads has changed. *)
Lemma find_nowait_cases wakeups tid use s r :
  0 ≤ mWaitingThreads s < SIZE_MOD →
  find wakeups tid use s = Done r → fr_waits r = 0%nat →
  (fr_status r = OK ∧ is_Some (mConnection (fr_connection r)) ∧
   release (fr_connection r) (fr_session r) =
     set_mOutgoingConnectionsOffset (mOutgoingConnectionsOffset (fr_session r)) s ∧
   (is_async use = false →
    mOutgoingConnectionsOffset (fr_session r) = mOutgoingConnectionsOffset s)) ∨
  (fr_status r = WOULD_BLOCK ∧ fr_connection r = mkExclusiveConnection None false ∧
   fr_session r = set_mWaitingThreads (size_add (mWaitingThreads s) 1) s).
Proof.
  intros Hrange Hfind Hw.
  destruct (find_first_pass _ _ _ _ _ Hfind Hw) as ([h s'|s'|s'] & Hit & Hr); [| |done].
  - left. subst r. cbn [fr_status fr_connection fr_session].
    pose proof (find_iteration_offset _ _ _ _ Hit) as (e & a & _ & Hoff).
    apply find_iteration_bound in Hit as (p & c & Hconn & Hc & Hre & Hnew).
    cbn [step_session] in Hoff. cbn in Hc.
    split_and!; [done|by rewrite Hconn| |].
    + unfold release, ExclusiveConnection_destroy. rewrite Hconn.
      destruct (mReentrant h).
      * destruct (Hre eq_refl) as (_ & -> & _). cbn.
        rewrite size_add_sub_1 by done. by destruct s.
      * destruct (Hnew eq_refl) as (Hfree & _ & ->).
        set (sx := store_exclusiveTid p None _).
        replace (fst (if 0 <? mWaitingThreads sx then (sx, 1%nat) else (sx, 0%nat)))
          with sx by (by destruct (0 <? _)).
        subst sx. unfold store_exclusiveTid. cbn.
        rewrite size_add_sub_1 by done.
        rewrite (alter_owner_restore _ _ _ c) by done. by destruct s.
    + intros Hsync. rewrite Hsync in Hoff. exact Hoff.
  - right. subst r. cbn [fr_status fr_connection fr_session].
    split_and!; [done..|].
    by apply (find_iteration_unbound _ _ _ _ Hit).
Qed.

(** X3. An acquisition that succeeds without waiting, followed by the
    handle's destructor, leaves the session exactly as it was, apart from
    the offset that a one-way acquisition moves on: every
    [exclusiveTid], both pools and [mWaitingThreads] are back at their old
    values. *)
Theorem X3_acquire_then_release_restores_the_session
    (tid : pid_t) (use : ConnectionUse) (s : RpcSession)
    (c : option ptr) (s' : RpcSession) :
  0 ≤ mWaitingThreads s < SIZE_MOD →
  acquire_release tid use s = Done (OK, c, s') →
  is_Some c ∧
  s' = set_mOutgoingConnectionsOffset (mOutgoingConnectionsOffset s') s ∧
  (use ≠ CLIENT_ASYNC → s' = s).
Proof.
  intros Hrange. unfold acquire_release.
  destruct (find [] tid use s) as [r| |] eqn:Hfind; [|done..]. cbn [obind].
  intros [= Hst <- <-].
  destruct (find_nowait_cases _ _ _ _ _ Hrange Hfind (find_nil_waits _ _ _ _ Hfind))
    as [(_ & Hsome & Hrel & Hoff)|(Hwb & _)]; [|by rewrite Hwb in Hst].
  fold (release (fr_connection r) (fr_session r)). rewrite Hrel.
  split_and!; [done|done|].
  intros Hsync. rewrite Hoff by (by destruct use). by destruct s.
Qed.

(** X4. [transact], [sendDecStrong] and [getRootObject] hold no connection
    when they return.  When [RpcState] itself leaves the session alone, a
    call that did not wait returns the session it was given with at most the
    offset moved, or (when [find] gave [WOULD_BLOCK], which is then the
    result: the status for the first two, [nullptr] for [getRootObject])
    with only [mWaitingThreads] one higher; [RpcState] is not called in that
    case. *)
Theorem X4_calls_release_their_connection
    (state_transact : ptr → Z → RpcSession → status_t * RpcSession)
    (state_sendDecStrong : ptr → RpcSession → status_t * RpcSession)
    (state_getRootObject : ptr → RpcSession → option Z * RpcSession)
    (tid : pid_t) (flags : Z) (s : RpcSession) :
  0 ≤ mWaitingThreads s < SIZE_MOD →
  (∀ p f s0, snd (state_transact p f s0) = s0) →
  (∀ p s0, snd (state_sendDecStrong p s0) = s0) →
  (∀ p s0, snd (state_getRootObject p s0) = s0) →
  (∀ st s', transact state_transact [] tid flags s = Done (st, s') →
     s' = set_mOutgoingConnectionsOffset (mOutgoingConnectionsOffset s') s ∨
     st = WOULD_BLOCK ∧ s' = set_mWaitingThreads (size_add (mWaitingThreads s) 1) s) ∧
  (∀ st s', sendDecStrong state_sendDecStrong [] tid s = Done (st, s') →
     s' = s ∨
     st = WOULD_BLOCK ∧ s' = set_mWaitingThreads (size_add (mWaitingThreads s) 1) s) ∧
  (∀ b s', getRootObject state_getRootObject [] tid s = Done (b, s') →
     s' = s ∨
     b = None ∧ s' = set_mWaitingThreads (size_add (mWaitingThreads s) 1) s).
Proof.
  intros Hrange Ht Hd Hg. split_and!.
  - intros st s'. unfold transact.
    destruct (find [] tid _ s) as [r| |] eqn:Hfind; [|done..]. cbn [obind].
    destruct (find_nowait_cases _ _ _ _ _ Hrange Hfind (find_nil_waits _ _ _ _ Hfind))
      as [(Hok & [p Hp] & Hrel & _)|(Hwb & Hconn & Hs)].
    + rewrite Hok, Hp. cbn [Z.eqb OK]. intros [= <- <-]. left.
      rewrite Ht. fold (release (fr_connection r) (fr_session r)). by rewrite Hrel.
    + rewrite Hwb, Hconn. intros [= <- <-]. right. by rewrite Hs.
  - intros st s'. unfold sendDecStrong.
    destruct (find [] tid _ s) as [r| |] eqn:Hfind; [|done..]. cbn [obind].
    destruct (find_nowait_cases _ _ _ _ _ Hrange Hfind (find_nil_waits _ _ _ _ Hfind))
      as [(Hok & [p Hp] & Hrel & Hoff)|(Hwb & Hconn & Hs)].
    + rewrite Hok, Hp. cbn [Z.eqb OK negb]. intros [= <- <-]. left.
      rewrite Hd, Hrel, Hoff by done. by destruct s.
    + rewrite Hwb, Hconn. intros [= <- <-]. right. by rewrite Hs.
  - intros b s'. unfold getRootObject.
    destruct (find [] tid _ s) as [r| |] eqn:Hfind; [|done..]. cbn [obind].
    destruct (find_nowait_cases _ _ _ _ _ Hrange Hfind (find_nil_waits _ _ _ _ Hfind))
      as [(Hok & [p Hp] & Hrel & Hoff)|(Hwb & Hconn & Hs)].
    + rewrite Hok, Hp. cbn [Z.eqb OK negb]. intros [= <- <-]. left.
      rewrite Hg, Hrel, Hoff by done. by destruct s.
    + rewrite Hwb, Hconn. intros [= <- <-]. right. by rewrite Hs.
Qed.

(** ** Sessions on which [findConnection] cannot abort *)

Lemma findConnection_total heap tid sockets hint available :
  pool_valid heap sockets → ¬ (0 < size_of sockets ∧ size_of sockets ≤ hint) →
  ∃ e a, findConnection heap tid None available sockets hint = Done (e, a).
Proof.
  intros Hv Hh. unfold findConnection.
  replace ((0 <? size_of sockets) && (size_of sockets <=? hint)) with false
    by (symmetry; apply andb_false_iff; lia).
  rewrite bool_decide_eq_false_2 by (intros H; by apply H).
  apply findConnection_loop_total.
  eapply Forall_impl; [apply (seq_visits heap sockets hint (λ _, True)); [done|]|].
  - apply Forall_forall. done.
  - intros i (q & d & Hq & _). by exists q, d.
Qed.

Lemma pool_valid_store p v s sockets :
  pool_valid (mHeap s) sockets → pool_valid (mHeap (store_exclusiveTid p v s)) sockets.
Proof.
  apply pool_valid_mono. intros q Hq. cbn.
  apply lookup_lt_is_Some. rewrite length_alter. by apply lookup_lt_is_Some.
Qed.

Lemma offset_ok_range s :
  offset_ok s →
  ¬ (0 < size_of (mOutgoingConnections s) ∧
     size_of (mOutgoingConnections s) ≤ mOutgoingConnectionsOffset s).
Proof. unfold offset_ok. lia. Qed.

Lemma find_iteration_total tid use s :
  session_wf s → ∃ st, find_iteration tid use s = Done st.
Proof.
  intros (Hout & Hin & Hoff).
  destruct (findConnection_total _ tid _ _ (Some None) Hout (offset_ok_range _ Hoff))
    as (e & a & Hscan).
  destruct (findConnection_incoming _ tid _ Hin) as (ei & ai & Hscan_in & Hvalid).
  unfold find_iteration. rewrite Hscan. cbn [obind fst snd].
  match goal with |- context [Bound _ ?x] => set (s1 := x) end.
  assert (Hheap : mHeap s1 = mHeap s) by (subst s1; by destruct (_ && _)).
  assert (Hinc : mIncomingConnections s1 = mIncomingConnections s)
    by (subst s1; by destruct (_ && _)).
  rewrite Hheap, Hinc. clearbody s1.
  assert (Hfin : ∀ x : option nat, ∃ st,
    match x with
    | Some p => Done (Bound (mkExclusiveConnection (Some p) true) s1)
    | None =>
      match join_available a with
      | Some p => Done (Bound (mkExclusiveConnection (Some p) false)
                          (store_exclusiveTid p (Some tid) s1))
      | None => if size_of (mOutgoingConnections s1) =? 0
                then Done (ReturnWouldBlock s1) else Done (WaitForConnection s1)
      end
    end = Done st).
  { intros [p|]; [by eexists|]. destruct (join_available a); [by eexists|].
    destruct (_ =? _); by eexists. }
  destruct (negb (is_async use)); [|apply (Hfin e)].
  rewrite Hscan_in. cbn [obind fst snd].
  destruct ei as [q|]; [|apply (Hfin e)].
  destruct (Hvalid q eq_refl) as [c ->].
  destruct (allowNested c); cbn [obind]; [apply (Hfin (Some q))|].
  destruct (is_refcount use && _); cbn [obind]; [apply (Hfin (Some q))|apply (Hfin e)].
Qed.

Lemma find_iteration_heap_dom tid use s st q :
  find_iteration tid use s = Done st →
  is_Some (mHeap s !! q) → is_Some (mHeap (step_session st) !! q).
Proof.
  intros Hit Hq. destruct st as [h s'|s'|s'].
  - apply find_iteration_bound in Hit as (p & c & _ & _ & Hre & Hnew). cbn.
    destruct (mReentrant h).
    + by destruct (Hre eq_refl) as (_ & -> & _).
    + destruct (Hnew eq_refl) as (_ & _ & ->). cbn.
      apply lookup_lt_is_Some. rewrite length_alter. by apply lookup_lt_is_Some.
  - by rewrite (find_iteration_unbound _ _ _ _ Hit).
  - by rewrite (find_iteration_unbound _ _ _ _ Hit).
Qed.

Lemma find_iteration_offset_ok tid use s st :
  find_iteration tid use s = Done st →
  size_of (mOutgoingConnections s) ≤ VECTOR_MAX →
  offset_ok s → offset_ok (step_session st).
Proof.
  intros Hit Hmax Hoff.
  destruct (find_iteration_frame _ _ _ _ Hit) as (_ & _ & _ & Hout & _).
  destruct (find_iteration_offset _ _ _ _ Hit) as (e & a & Hscan & Hnew).
  unfold offset_ok. rewrite Hout, Hnew.
  destruct (is_async use && _) eqn:Hmove; [|exact Hoff].
  apply findConnection_sound in Hscan as (He & Ha & _); [|by right].
  assert (Hpos : 0 < size_of (mOutgoingConnections s)).
  { apply andb_true_iff in Hmove as [_ Hc]. apply orb_true_iff in Hc as [Hc|Hc];
      apply bool_decide_eq_true in Hc.
    - destruct e as [p|]; [|done]. destruct (He p eq_refl) as [Hin _].
      destruct (mOutgoingConnections s); [by apply elem_of_nil in Hin|].
      unfold size_of. cbn [length]. lia.
    - destruct a as [[p|]|]; [|done..]. destruct (Ha p eq_refl) as [Hin _].
      destruct (mOutgoingConnections s); [by apply elem_of_nil in Hin|].
      unfold size_of. cbn [length]. lia. }
  pose proof (Z.mod_pos_bound (size_add (mOutgoingConnectionsOffset s) 1)
                (size_of (mOutgoingConnections s)) Hpos).
  lia.
Qed.

Lemma find_iteration_wf tid use s st :
  find_iteration tid use s = Done st → session_wf s → session_wf (step_session st).
Proof.
  intros Hit (Hout & Hin & Hoff).
  destruct (find_iteration_frame _ _ _ _ Hit) as (Hi & _ & _ & Ho & _).
  unfold session_wf. rewrite Hi, Ho. split_and!.
  - eapply pool_valid_mono; [|exact Hout]. intros q.
    by apply (find_iteration_heap_dom tid use).
  - eapply pool_valid_mono; [|exact Hin]. intros q.
    by apply (find_iteration_heap_dom tid use).
  - eapply find_iteration_offset_ok; [done|apply Hout|done].
Qed.

Lemma session_wf_waiting w s : session_wf s → session_wf (set_mWaitingThreads w s).
Proof. done. Qed.

Lemma find_loop_wf wakeups tid use n s :
  Forall (λ w, ∀ s0, session_wf s0 → session_wf (w s0)) wakeups →
  session_wf s →
  find_loop wakeups tid use n s = Blocks ∨
  ∃ r, find_loop wakeups tid use n s = Done r ∧ session_wf (fr_session r).
Proof.
  intros Hw. revert n s. induction Hw as [|w ws Hpres _ IH]; intros n s Hwf;
    cbn [find_loop];
    destruct (find_iteration_total tid use s Hwf) as (st & Hit); rewrite Hit;
    pose proof (find_iteration_wf _ _ _ _ Hit Hwf) as Hwf';
    cbn [obind]; destruct st as [h s'|s'|s']; cbn [step_session] in Hwf';
    try (right; eexists; split; [reflexivity|]; by cbn);
    [by left | apply IH; by apply Hpres].
Qed.

(** X5. On a session whose pool entries all name objects and whose offset is
    in range, [find] cannot run into the fatal index check of
    [findConnection]: it returns or it is parked, and what it returns is
    again such a session, also when other threads that keep this shape have
    worked on the session during the waits. *)
Theorem X5_find_does_not_abort_on_well_formed_sessions
    (wakeups : list (RpcSession → RpcSession)) (tid : pid_t)
    (use : ConnectionUse) (s : RpcSession) :
  session_wf s →
  Forall (λ w, ∀ s0, session_wf s0 → session_wf (w s0)) wakeups →
  find wakeups tid use s ≠ Aborts ∧
  (∀ r, find wakeups tid use s = Done r → session_wf (fr_session r)).
Proof.
  intros Hwf Hw. unfold find.
  destruct (find_loop_wf wakeups tid use 0
              (set_mWaitingThreads (size_add (mWaitingThreads s) 1) s) Hw)
    as [Hb|(r & Hr & Hwfr)]; [by apply session_wf_waiting| |].
  - rewrite Hb. split; [done|]. intros r Hr. discriminate Hr.
  - rewrite Hr. split; [done|]. intros r' [= <-]. exact Hwfr.
Qed.

Lemma erase_first_Forall (P : nat → Prop) p l rest :
  erase_first p l = Some rest → Forall P l → Forall P rest.
Proof.
  revert rest. induction l as [|q l IH]; intros rest; cbn [erase_first]; [done|].
  intros H Hall. apply Forall_cons in Hall as [Hq Hl].
  destruct (bool_decide (q = p)); [by simplify_eq|].
  destruct (erase_first p l) as [rest'|]; [|done]. cbn in H. simplify_eq.
  apply Forall_cons. split; [done|]. by apply IH.
Qed.

Lemma pool_valid_push (heap : list RpcConnection) sockets c :
  pool_valid heap sockets → size_of sockets < VECTOR_MAX →
  pool_valid (heap ++ [c]) (sockets ++ [length heap]).
Proof.
  intros [Hv _] Hsz. split.
  - apply Forall_app. split.
    + eapply Forall_impl; [exact Hv|]. intros q [d Hq]. exists d.
      by apply lookup_app_l_Some.
    + apply Forall_singleton. exists c.
      by rewrite lookup_app_r, Nat.sub_diag.
  - unfold size_of in *. rewrite length_app. cbn [length]. lia.
Qed.

Lemma pool_valid_grow (heap : list RpcConnection) sockets c :
  pool_valid heap sockets → pool_valid (heap ++ [c]) sockets.
Proof.
  apply pool_valid_mono. intros q [d Hq]. exists d. by apply lookup_app_l_Some.
Qed.

Lemma session_wf_store p v s : session_wf s → session_wf (store_exclusiveTid p v s).
Proof.
  intros (Hout & Hin & Hoff). split_and!; [| |done].
  - by apply pool_valid_store.
  - by apply pool_valid_store.
Qed.

Lemma session_wf_release h s : session_wf s → session_wf (release h s).
Proof.
  intros Hwf. unfold release, ExclusiveConnection_destroy.
  destruct (mReentrant h), (mConnection h) as [p|]; try done.
  destruct (0 <? _); by apply session_wf_store.
Qed.

Lemma session_wf_remove p s :
  session_wf s → session_wf (snd (removeIncomingConnection p s)).
Proof.
  intros (Hout & [Hin Hsz] & Hoff).
  unfold removeIncomingConnection, removeIncomingConnection_locked.
  destruct (erase_first p (mIncomingConnections s)) as [rest|] eqn:Herase; [|done].
  assert (Hwf : session_wf (set_mIncomingConnections rest s)).
  { split_and!; [done| |done]. split; [by eapply erase_first_Forall|].
    apply erase_first_length in Herase. cbn. unfold size_of in *. lia. }
  destruct (_ && _); [|done]. cbn [snd].
  unfold onSessionAllIncomingThreadsEnded. by repeat case_match.
Qed.

Lemma session_wf_assign tid transport s :
  session_wf s → size_of (mIncomingConnections s) < VECTOR_MAX →
  session_wf (snd (assignIncomingConnectionToThisThread tid transport s)).
Proof.
  intros (Hout & Hin & Hoff) Hsz.
  unfold assignIncomingConnectionToThisThread, new_connection.
  destruct (_ <=? _); [done|]. destruct (_ <? _); [done|]. cbn.
  split_and!; [by apply pool_valid_grow|by apply pool_valid_push|done].
Qed.

Lemma session_wf_publish tid transport s :
  session_wf s → size_of (mOutgoingConnections s) < VECTOR_MAX →
  session_wf (snd (addOutgoingConnection_publish tid transport s)).
Proof.
  intros (Hout & Hin & [Hoff1 Hoff2]) Hsz.
  unfold addOutgoingConnection_publish, new_connection. cbn.
  split_and!; [by apply pool_valid_push|by apply pool_valid_grow|].
  split; cbn; [done|]. unfold size_of in *. rewrite length_app. cbn [length]. lia.
Qed.

(** X6. The members that change the pools or the owners keep a session in
    the shape [find] relies on (every pool entry names an object, the
    offset is below the size of the outgoing pool): the destructor of a
    handle, [removeIncomingConnection], and, as long as the pool they append
    to is not at the largest size a vector can have,
    [assignIncomingConnectionToThisThread] and [addOutgoingConnection]. *)
Theorem X6_members_keep_the_session_well_formed (s : RpcSession) :
  session_wf s →
  (∀ h, session_wf (release h s)) ∧
  (∀ p, session_wf (snd (removeIncomingConnection p s))) ∧
  (∀ tid transport,
     size_of (mIncomingConnections s) < VECTOR_MAX →
     session_wf (snd (assignIncomingConnectionToThisThread tid transport s))) ∧
  (∀ sendConnectionInit tid transport init,
     size_of (mOutgoingConnections s) < VECTOR_MAX →
     (∀ p s0, session_wf s0 → session_wf (sendConnectionInit p s0)) →
     session_wf (snd (addOutgoingConnection sendConnectionInit tid transport init s))).
Proof.
  intros Hwf. split_and!.
  - intros h. by apply session_wf_release.
  - intros p. by apply session_wf_remove.
  - intros tid transport Hsz. by apply session_wf_assign.
  - intros f tid transport init Hsz Hf.
    pose proof (session_wf_publish tid transport s Hwf Hsz) as Hpub.
    unfold addOutgoingConnection.
    destruct (addOutgoingConnection_publish tid transport s) as [p s1]. cbn [snd] in *.
    apply session_wf_store. destruct init; [by apply Hf|done].
Qed.

(** ** Calls made by a thread that serves an incoming connection *)

Lemma findConnection_loop_finds_own heap tid sockets hint idx :
  Forall (valid_at heap sockets hint) idx →
  Exists (λ i, ∃ p c, visits heap sockets hint i p c ∧ exclusiveTid c = Some tid) idx →
  ∃ p, findConnection_loop heap tid sockets hint idx None None = Done (Some p, None).
Proof.
  intros Hall Hex. induction Hall as [|i idx (p & c & Hp & Hc) Hrest IH].
  { by apply Exists_nil in Hex. }
  cbn [findConnection_loop]. fold (scan_index sockets hint i). rewrite Hp, Hc.
  rewrite (bool_decide_eq_false_2 (None = Some None)) by done. cbn [andb].
  destruct (bool_decide (exclusiveTid c = Some tid)) eqn:E; [by eexists|].
  apply bool_decide_eq_false in E. apply IH.
  apply Exists_cons in Hex as [(p' & c' & [Hp' Hc'] & Hown)|]; [|done].
  exfalso. rewrite Hp in Hp'. simplify_eq.
Qed.

Lemma owner_of_Some s p t :
  owner_of s p = Some t → ∃ c, mHeap s !! p = Some c ∧ exclusiveTid c = Some t.
Proof. unfold owner_of. destruct (mHeap s !! p) as [c|]; [|done]. cbn. eauto. Qed.

(** The incoming scan of a thread that serves a connection finds one it
    serves. *)
Lemma findConnection_serving s tid q :
  pool_valid (mHeap s) (mIncomingConnections s) → serves s tid q →
  ∃ p c, findConnection (mHeap s) tid None None (mIncomingConnections s) 0
           = Done (Some p, None) ∧
         serves s tid p ∧ mHeap s !! p = Some c ∧ exclusiveTid c = Some tid.
Proof.
  intros Hv [Hin Hown]. apply owner_of_Some in Hown as (c & Hc & Hown).
  assert (Hpos : 0 < size_of (mIncomingConnections s)).
  { destruct (mIncomingConnections s); [by apply elem_of_nil in Hin|].
    unfold size_of. cbn [length]. lia. }
  assert (∃ p, findConnection (mHeap s) tid None None (mIncomingConnections s) 0
                 = Done (Some p, None)) as [p Hscan].
  { unfold findConnection.
    replace ((0 <? size_of (mIncomingConnections s)) &&
             (size_of (mIncomingConnections s) <=? 0)) with false
      by (symmetry; apply andb_false_iff; lia).
    rewrite bool_decide_eq_false_2 by (intros H; by apply H).
    apply findConnection_loop_finds_own.
    - eapply Forall_impl;
        [apply (seq_visits (mHeap s) (mIncomingConnections s) 0 (λ _, True)); [done|]|].
      + apply Forall_forall. done.
      + intros i (p & d & Hp & _). by exists p, d.
    - apply list_elem_of_lookup in Hin as [j Hj].
      destruct (scan_covers (mIncomingConnections s) 0 j) as (i & Hi & Hidx);
        [lia | apply Hv | by eapply lookup_lt_Some |].
      apply Exists_exists. exists i. split.
      + apply list_elem_of_In, in_seq. lia.
      + exists q, c. unfold visits. by rewrite Hidx. }
  pose proof Hscan as Hsound.
  apply findConnection_sound in Hsound as (He & _ & _); [|by left].
  destruct (He p eq_refl) as (Hpin & d & Hd & Hdown).
  exists p, d. split_and!; [done| |done|done].
  split; [done|]. by rewrite (owner_of_lookup _ _ d).
Qed.

(** X7. A nested call is not parked.  When the calling thread serves an
    incoming connection and the connections it serves have [allowNested]
    set, a [find] for a [CLIENT] or [CLIENT_REFCOUNT] use returns [OK] at
    once with a reentrant handle on an incoming connection that the thread
    serves, whatever the state of the outgoing pool, and changes no
    object. *)
Theorem X7_nested_call_reuses_the_serving_connection
    (wakeups : list (RpcSession → RpcSession)) (tid : pid_t)
    (use : ConnectionUse) (s : RpcSession) (q : ptr) :
  session_wf s → use ≠ CLIENT_ASYNC → serves s tid q →
  (∀ q' c, serves s tid q' → mHeap s !! q' = Some c → allowNested c = true) →
  ∃ r p, find wakeups tid use s = Done r ∧
    fr_status r = OK ∧ fr_waits r = 0%nat ∧
    fr_connection r = mkExclusiveConnection (Some p) true ∧
    serves s tid p ∧ mHeap (fr_session r) = mHeap s.
Proof.
  intros (Hout & Hin & Hoff) Huse Hserves Hnest.
  set (s0 := set_mWaitingThreads (size_add (mWaitingThreads s) 1) s).
  destruct (findConnection_total (mHeap s0) tid (mOutgoingConnections s0)
              (mOutgoingConnectionsOffset s0) (Some None) Hout (offset_ok_range _ Hoff))
    as (e & a & Hscan).
  destruct (findConnection_serving s tid q Hin Hserves) as (p & c & Hscan_in & Hp & Hc & _).
  assert (Hit : find_iteration tid use s0
                = Done (Bound (mkExclusiveConnection (Some p) true) s0)).
  { unfold find_iteration. rewrite Hscan. cbn [obind fst snd].
    replace (is_async use) with false by (by destruct use). cbn [andb negb].
    change (mHeap s0) with (mHeap s).
    change (mIncomingConnections s0) with (mIncomingConnections s).
    rewrite Hscan_in. cbn [obind fst snd]. rewrite Hc.
    by rewrite (Hnest p c Hp Hc). }
  eexists _, p. unfold find. fold s0.
  destruct wakeups; cbn [find_loop]; rewrite Hit; cbn [obind];
    (split; [reflexivity|]); by split_and!.
Qed.

Lemma findConnection_loop_busy heap tid sockets hint idx exclusive available :
  Forall (λ i, ∃ p c, visits heap sockets hint i p c ∧
                      ∃ t, exclusiveTid c = Some t ∧ t ≠ tid) idx →
  findConnection_loop heap tid sockets hint idx exclusive available
    = Done (exclusive, available).
Proof.
  induction 1 as [|i idx (p & c & [Hp Hc] & t & Ht & Hne) _ IH]; [done|].
  cbn [findConnection_loop]. fold (scan_index sockets hint i). rewrite Hp, Hc, Ht.
  rewrite (bool_decide_eq_false_2 (Some t = None)) by done. rewrite andb_false_r.
  rewrite (bool_decide_eq_false_2 (Some t = Some tid)) by congruence.
  exact IH.
Qed.

(** The outgoing scan when every outgoing connection is held by another
    thread. *)
Lemma findConnection_busy s tid :
  session_wf s → outgoing_busy s tid →
  findConnection (mHeap s) tid None (Some None) (mOutgoingConnections s)
    (mOutgoingConnectionsOffset s) = Done (None, Some None).
Proof.
  intros (Hout & _ & Hoff) Hbusy. unfold findConnection.
  replace ((0 <? size_of (mOutgoingConnections s)) &&
           (size_of (mOutgoingConnections s) <=? mOutgoingConnectionsOffset s)) with false
    by (symmetry; apply andb_false_iff; unfold offset_ok in Hoff; lia).
  rewrite bool_decide_eq_false_2 by (intros H; by apply H).
  apply findConnection_loop_busy. apply seq_visits; [done|].
  eapply Forall_impl; [exact Hbusy|]. intros p (t & Ht & Hne) c Hc.
  exists t. split; [|done]. by rewrite (owner_of_lookup _ _ c) in Ht.
Qed.

Lemma size_of_nonempty {A} (l : list A) : l ≠ [] → (size_of l =? 0) = false.
Proof.
  destruct l; [done|]. intros _. apply Z.eqb_neq. unfold size_of. cbn [length]. lia.
Qed.

(** The incoming scan reports nothing but a connection the caller serves. *)
Lemma findConnection_incoming_serves s tid :
  pool_valid (mHeap s) (mIncomingConnections s) →
  ∃ ei, findConnection (mHeap s) tid None None (mIncomingConnections s) 0
          = Done (ei, None) ∧
        ∀ p, ei = Some p → serves s tid p ∧ is_Some (mHeap s !! p).
Proof.
  intros Hin. destruct (findConnection_incoming _ tid _ Hin) as (ei & ai & Hscan & _).
  pose proof Hscan as Hsound.
  apply findConnection_sound in Hsound as (He & _ & Hai); [|by left].
  rewrite (Hai eq_refl) in Hscan. exists ei. split; [done|].
  intros p Hp. destruct (He p Hp) as (Hpin & c & Hc & Hown).
  split; [|by eexists]. split; [done|]. by rewrite (owner_of_lookup _ _ c).
Qed.

(** X8. With every outgoing connection held by other threads, a thread whose
    served connections do not allow nesting is parked by a [CLIENT] and by a
    [CLIENT_ASYNC] acquisition.  A [CLIENT_REFCOUNT] acquisition by such a
    thread does not wait when the thread serves an incoming connection: it
    returns [OK] with a reentrant handle on a connection the thread serves;
    when the thread serves none, it is parked like the others. *)
Theorem X8_refcount_falls_back_to_the_serving_connection
    (tid : pid_t) (s : RpcSession) :
  session_wf s → mOutgoingConnections s ≠ [] → outgoing_busy s tid →
  (∀ q c, serves s tid q → mHeap s !! q = Some c → allowNested c = false) →
  find [] tid CLIENT s = Blocks ∧
  find [] tid CLIENT_ASYNC s = Blocks ∧
  (∀ wakeups q, serves s tid q →
     ∃ r p, find wakeups tid CLIENT_REFCOUNT s = Done r ∧
       fr_status r = OK ∧ fr_waits r = 0%nat ∧
       fr_connection r = mkExclusiveConnection (Some p) true ∧ serves s tid p) ∧
  ((∀ q, ¬ serves s tid q) → find [] tid CLIENT_REFCOUNT s = Blocks).
Proof.
  intros Hwf Hne Hbusy Hflat.
  set (s0 := set_mWaitingThreads (size_add (mWaitingThreads s) 1) s).
  assert (Hscan : findConnection (mHeap s0) tid None (Some None)
                    (mOutgoingConnections s0) (mOutgoingConnectionsOffset s0)
                  = Done (None, Some None)) by (by apply (findConnection_busy s)).
  assert (Hsz : (size_of (mOutgoingConnections s) =? 0) = false)
    by (by apply size_of_nonempty).
  destruct Hwf as (_ & Hin & _).
  destruct (findConnection_incoming_serves s tid Hin) as (ei & Hscan_in & Hei).
  split_and!.
  - unfold find. fold s0. cbn [find_loop]. unfold find_iteration.
    rewrite Hscan. cbn [obind fst snd is_async andb negb join_available].
    change (mHeap s0) with (mHeap s).
    change (mIncomingConnections s0) with (mIncomingConnections s).
    rewrite Hscan_in. cbn [obind fst snd].
    change (mOutgoingConnections s0) with (mOutgoingConnections s).
    destruct ei as [p|]; [|cbn [obind]; by rewrite Hsz].
    destruct (Hei p eq_refl) as [Hp [c Hc]]. rewrite Hc, (Hflat p c Hp Hc).
    cbn [obind is_refcount andb]. by rewrite Hsz.
  - unfold find. fold s0. cbn [find_loop]. unfold find_iteration.
    rewrite Hscan. cbn [obind fst snd is_async andb negb join_available orb].
    rewrite (bool_decide_eq_false_2 (None ≠ None)) by (intros H; by apply H).
    cbn [orb obind]. change (mOutgoingConnections s0) with (mOutgoingConnections s).
    by rewrite Hsz.
  - intros wakeups q Hq.
    destruct (findConnection_serving s tid q Hin Hq) as (p & c & Hown & Hp & Hc & _).
    assert (Hit : find_iteration tid CLIENT_REFCOUNT s0
                  = Done (Bound (mkExclusiveConnection (Some p) true) s0)).
    { unfold find_iteration.
      rewrite Hscan. cbn [obind fst snd is_async andb negb join_available].
      change (mHeap s0) with (mHeap s).
      change (mIncomingConnections s0) with (mIncomingConnections s).
      rewrite Hown. cbn [obind fst snd]. by rewrite Hc, (Hflat p c Hp Hc). }
    eexists _, p. unfold find. fold s0.
    destruct wakeups; cbn [find_loop]; rewrite Hit; cbn [obind];
      (split; [reflexivity|]); by split_and!.
  - intros Hnone. unfold find. fold s0. cbn [find_loop]. unfold find_iteration.
    rewrite Hscan. cbn [obind fst snd is_async andb negb join_available].
    change (mHeap s0) with (mHeap s).
    change (mIncomingConnections s0) with (mIncomingConnections s).
    rewrite Hscan_in. cbn [obind fst snd].
    change (mOutgoingConnections s0) with (mOutgoingConnections s).
    destruct ei as [p|]; [|cbn [obind]; by rewrite Hsz].
    destruct (Hei p eq_refl) as [Hp _]. by destruct (Hnone p).
Qed.

(** ** Waiting for a connection *)

Lemma release_fresh p s :
  release (mkExclusiveConnection (Some p) false) s = store_exclusiveTid p None s.
Proof. unfold release, ExclusiveConnection_destroy. cbn. by destruct (0 <? _). Qed.

(** X9. No wake-up is lost between [find] and the destructor of a handle.
    A thread that [find] parks has left [mWaitingThreads] raised, so the
    destructor of any non-reentrant handle on an outgoing connection that
    runs meanwhile calls [notify_one]; and the parked thread, woken after
    that release, returns [OK] with a bound handle after this one wait, with
    [mWaitingThreads] back at the value it found. *)
Theorem X9_release_wakes_a_parked_find
    (tid : pid_t) (use : ConnectionUse) (s : RpcSession) (p : ptr) :
  session_wf s → 0 ≤ mWaitingThreads s < SIZE_MOD - 1 →
  p ∈ mOutgoingConnections s →
  find [] tid use s = Blocks →
  find_iteration tid use (set_mWaitingThreads (size_add (mWaitingThreads s) 1) s)
    = Done (WaitForConnection (set_mWaitingThreads (mWaitingThreads s + 1) s)) ∧
  snd (ExclusiveConnection_destroy (mkExclusiveConnection (Some p) false)
         (set_mWaitingThreads (mWaitingThreads s + 1) s)) = 1%nat ∧
  ∃ r, find [release (mkExclusiveConnection (Some p) false)] tid use s = Done r ∧
       fr_status r = OK ∧ fr_waits r = 1%nat ∧
       is_Some (mConnection (fr_connection r)) ∧
       mWaitingThreads (fr_session r) = mWaitingThreads s.
Proof.
  intros Hwf Hrange Hp Hblocks.
  assert (Hadd : size_add (mWaitingThreads s) 1 = mWaitingThreads s + 1).
  { unfold size_add, SIZE_MOD in *. rewrite Z.mod_small; lia. }
  rewrite Hadd. unfold find in *. rewrite Hadd in *.
  set (s0 := set_mWaitingThreads (mWaitingThreads s + 1) s) in *.
  assert (Hwf0 : session_wf s0) by done.
  destruct (find_iteration_total tid use s0 Hwf0) as (st & Hit).
  cbn [find_loop] in Hblocks. rewrite Hit in Hblocks. cbn [obind] in Hblocks.
  destruct st as [h s'|s'|s']; [done|done|].
  assert (s' = s0) as ->
    by (by apply (find_iteration_unbound _ _ _ _ Hit)).
  split; [done|]. split.
  { unfold ExclusiveConnection_destroy. cbn.
    replace (0 <? mWaitingThreads s + 1) with true by (symmetry; lia). done. }
  cbn [find_loop]. rewrite Hit. cbn [obind]. rewrite release_fresh.
  set (s1 := store_exclusiveTid p None s0).
  assert (Hwf1 : session_wf s1) by (by apply session_wf_store).
  destruct Hwf as ([Hall Hsz] & _ & Hoff).
  assert (is_Some (mHeap s !! p)) as [c Hc].
  { rewrite Forall_forall in Hall. by apply Hall. }
  destruct (find_iteration_acquires tid use s1) as (h & s2 & Hit1 & Hconn).
  - apply Hwf1.
  - apply Hwf1.
  - cbn. unfold offset_ok in Hoff.
    destruct (mOutgoingConnections s) as [|x l] eqn:Hout; [by apply elem_of_nil in Hp|].
    unfold size_of in *. cbn [length] in *. lia.
  - exists p, (set_exclusiveTid None c). split_and!; [done| |done].
    cbn. by rewrite list_lookup_alter_eq, Hc.
  - rewrite Hit1. cbn [obind]. eexists. split; [reflexivity|].
    cbn [fr_status fr_waits fr_connection fr_session]. split_and!; [done..|].
    apply find_iteration_waiting in Hit1. cbn in Hit1. cbn. rewrite Hit1.
    unfold size_sub, SIZE_MOD in *.
    replace (mWaitingThreads s + 1 - 1) with (mWaitingThreads s) by lia.
    rewrite Z.mod_small; lia.
Qed.

(** ** Workers that leave *)

Lemma erase_first_None p l : p ∉ l → erase_first p l = None.
Proof.
  induction l as [|q l IH]; [done|]. intros Hp. cbn [erase_first].
  apply not_elem_of_cons in Hp as [Hne Hl].
  rewrite bool_decide_eq_false_2 by congruence. by rewrite IH.
Qed.

Lemma erase_first_Some p l :
  p ∈ l → ∃ l1 l2, l = l1 ++ (p :: l2) ∧ (p ∉ l1) ∧ erase_first p l = Some (l1 ++ l2).
Proof.
  induction l as [|q l IH]; [by intros ?%elem_of_nil|]. intros Hp.
  cbn [erase_first]. destruct (decide (q = p)) as [->|Hne].
  - exists [], l. rewrite bool_decide_eq_true_2 by done.
    split_and!; [done|apply not_elem_of_nil|done].
  - apply elem_of_cons in Hp as [->|Hp]; [done|].
    destruct (IH Hp) as (l1 & l2 & -> & Hl1 & ->).
    exists (q :: l1), l2. rewrite bool_decide_eq_false_2 by done.
    split_and!; [done| |done].
    apply not_elem_of_cons. split; [congruence|done].
Qed.

(** X10. [removeIncomingConnection] on a connection that is not in the
    incoming pool returns [false] and changes nothing.  On one that is, it
    returns [true] having erased the first occurrence and nothing else from
    the pool; the listener is told that all incoming threads have ended
    exactly when that leaves the pool empty and [mEventListener] can be
    promoted, and no member other than the pool and the flag of the
    session's own shutdown listener differs afterwards. *)
Theorem X10_removeIncomingConnection_erases_one_entry (p : ptr) (s : RpcSession) :
  (p ∉ mIncomingConnections s →
     removeIncomingConnection p s = (false, s) ∧
     removeIncomingConnection_locked p s = (false, s, false)) ∧
  (p ∈ mIncomingConnections s →
     ∃ l1 l2, mIncomingConnections s = l1 ++ (p :: l2) ∧ (p ∉ l1) ∧
       fst (removeIncomingConnection p s) = true ∧
       mIncomingConnections (snd (removeIncomingConnection p s)) = l1 ++ l2 ∧
       (snd (removeIncomingConnection_locked p s) = true ↔
          l1 ++ l2 = [] ∧ mEventListener s ≠ NoListener) ∧
       set_mShutdownListener (mShutdownListener s)
         (set_mIncomingConnections (mIncomingConnections s)
            (snd (removeIncomingConnection p s))) = s ∧
       (mShutdownListener (snd (removeIncomingConnection p s)) ≠ mShutdownListener s →
          l1 ++ l2 = [] ∧ mEventListener s = ShutdownListenerRef ∧
          mShutdownListener (snd (removeIncomingConnection p s)) = Some true)).
Proof.
  unfold removeIncomingConnection, removeIncomingConnection_locked. split.
  - intros Hp. by rewrite erase_first_None.
  - intros Hp. destruct (erase_first_Some p _ Hp) as (l1 & l2 & Hl & Hl1 & ->).
    exists l1, l2. split; [done|]. split; [done|].
    set (rest := l1 ++ l2). clearbody rest.
    unfold promote_listener, onSessionAllIncomingThreadsEnded, size_of.
    destruct rest as [|x rest];
      [change (Z.of_nat (length (@nil nat)) =? 0) with true
      |replace (Z.of_nat (length (x :: rest)) =? 0) with false
         by (symmetry; apply Z.eqb_neq; cbn [length]; lia)];
      cbn;
      destruct (mEventListener s) eqn:Hl'; cbn;
      destruct (mShutdownListener s) eqn:Hsl; cbn;
      (split_and!;
       [ done | done
       | first [ by split | by split; [|intros [_ ?]] | by split; [|intros [? _]] ]
       | by destruct s; cbn in *; subst
       | first [ by rewrite Hsl | by intros ? ] ]).
Qed.

Lemma closed_after_remove p s :
  size_of (mIncomingConnections s) ≤ mMaxIncomingConnections s →
  fst (removeIncomingConnection p s) = true →
  closed_for_admission (snd (removeIncomingConnection p s)).
Proof.
  unfold removeIncomingConnection, removeIncomingConnection_locked, closed_for_admission.
  intros Hinv. destruct (erase_first p (mIncomingConnections s)) as [rest|] eqn:He; [|done].
  intros _. apply erase_first_length in He.
  destruct (_ && _); cbn [snd];
    unfold onSessionAllIncomingThreadsEnded; repeat case_match; cbn;
    unfold size_of in *; lia.
Qed.

Lemma closed_remove_any q s :
  closed_for_admission s → closed_for_admission (snd (removeIncomingConnection q s)).
Proof.
  unfold removeIncomingConnection, removeIncomingConnection_locked, closed_for_admission.
  intros Hc. destruct (erase_first q (mIncomingConnections s)) as [rest|] eqn:He; [|done].
  apply erase_first_length in He.
  destruct (_ && _); cbn [snd];
    unfold onSessionAllIncomingThreadsEnded; repeat case_match; cbn;
    unfold size_of in *; lia.
Qed.

Lemma closed_assign tid transport s :
  closed_for_admission s →
  assignIncomingConnectionToThisThread tid transport s = (None, s).
Proof.
  unfold closed_for_admission, assignIncomingConnectionToThisThread. intros Hc.
  destruct (_ <=? _); [done|].
  by replace (size_of (mIncomingConnections s) <? mMaxIncomingConnections s) with true
    by (symmetry; lia).
Qed.

(** X11. Once an incoming connection has been removed, the session admits
    no further worker.  After a successful [removeIncomingConnection] (on a
    pool at or below its high-water mark) the pool is below
    [mMaxIncomingConnections]; in that state
    [assignIncomingConnectionToThisThread] returns [nullptr] and changes
    nothing, [preJoinSetup] reports [DEAD_OBJECT] without a connection, and
    neither further removals nor anything the clients of the session do
    ([find], release, the setters, adding outgoing connections) ends that
    state. *)
Theorem X11_no_admission_after_a_connection_is_removed (p : ptr) (s : RpcSession) :
  size_of (mIncomingConnections s) ≤ mMaxIncomingConnections s →
  fst (removeIncomingConnection p s) = true →
  closed_for_admission (snd (removeIncomingConnection p s)) ∧
  (∀ s', closed_for_admission s' →
     (∀ tid transport,
        assignIncomingConnectionToThisThread tid transport s' = (None, s')) ∧
     (∀ readConnectionInit tid transport,
        preJoinSetup readConnectionInit tid transport s'
          = (mkPreJoinSetupResult None DEAD_OBJECT, s')) ∧
     (∀ q, closed_for_admission (snd (removeIncomingConnection q s'))) ∧
     (∀ s'', session_op s' s'' → closed_for_admission s'')).
Proof.
  intros Hinv Hrem. split; [by apply closed_after_remove|].
  intros s' Hc. split_and!.
  - intros. by apply closed_assign.
  - intros. unfold preJoinSetup. by rewrite closed_assign.
  - intros. by apply closed_remove_any.
  - intros s'' Hop. apply session_op_frame in Hop as (Hi & Hm & _).
    unfold closed_for_admission. by rewrite Hi, Hm.
Qed.

Lemma erase_first_app_last p l :
  ∃ rest, erase_first p (l ++ [p]) = Some rest ∧ length rest = length l ∧
          (p ∉ l → rest = l).
Proof.
  induction l as [|q l (rest & IH & Hlen & Hsame)]; cbn [app erase_first].
  - rewrite bool_decide_eq_true_2 by done. by exists [].
  - destruct (decide (q = p)) as [->|Hne].
    + rewrite bool_decide_eq_true_2 by done. exists (l ++ [p]).
      split_and!; [done| |].
      * rewrite length_app. cbn. lia.
      * intros Hp. exfalso. apply Hp. by left.
    + rewrite bool_decide_eq_false_2 by done. rewrite IH. exists (q :: rest).
      split_and!; [done|by cbn; rewrite Hlen|].
      intros Hp. apply not_elem_of_cons in Hp as [_ Hp]. by rewrite Hsame.
Qed.

Lemma pool_valid_fresh (heap : list RpcConnection) sockets :
  pool_valid heap sockets → length heap ∉ sockets.
Proof.
  intros [Hv _] Hin. rewrite Forall_forall in Hv. apply Hv in Hin.
  apply lookup_lt_is_Some in Hin. lia.
Qed.

(** X12. [setMaxThreads] is for sessions without connections.  With both
    pools empty it stores the value, which [getMaxThreads] then returns, and
    touches nothing else; after an [addOutgoingConnection] (whose
    connection-init write leaves the outgoing pool alone) or an
    [assignIncomingConnectionToThisThread] that was granted, it is fatal. *)
Theorem X12_setMaxThreads_only_before_the_first_connection (n : Z) (s : RpcSession) :
  (mOutgoingConnections s = [] → mIncomingConnections s = [] →
   ∃ s', setMaxThreads n s = Done s' ∧ getMaxThreads s' = n ∧
         set_mMaxThreads (mMaxThreads s) s' = s) ∧
  (∀ sendConnectionInit tid transport init,
     (∀ p s0, mOutgoingConnections (sendConnectionInit p s0) = mOutgoingConnections s0) →
     setMaxThreads n (snd (addOutgoingConnection sendConnectionInit tid transport init s))
       = Aborts) ∧
  (∀ tid transport,
     is_Some (fst (assignIncomingConnectionToThisThread tid transport s)) →
     setMaxThreads n (snd (assignIncomingConnectionToThisThread tid transport s))
       = Aborts).
Proof.
  split_and!.
  - intros Hout Hin. unfold setMaxThreads. rewrite Hout, Hin. cbn.
    eexists. split; [done|]. split; [done|]. by destruct s.
  - intros f tid transport init Hf. unfold setMaxThreads, addOutgoingConnection.
    cbn [addOutgoingConnection_publish new_connection snd].
    assert (Hne : ∀ l : list nat, (size_of (l ++ [length (mHeap s)]) =? 0) = false).
    { intros l. apply Z.eqb_neq. unfold size_of. rewrite length_app. cbn. lia. }
    destruct init; cbn; rewrite ?Hf; cbn; by rewrite Hne.
  - intros tid transport. unfold setMaxThreads, assignIncomingConnectionToThisThread.
    destruct (_ <=? _); [by intros [? ?]|]. destruct (_ <? _); [by intros [? ?]|].
    intros _. cbn.
    assert (Hne : (size_of (mIncomingConnections s ++ [length (mHeap s)]) =? 0) = false).
    { apply Z.eqb_neq. unfold size_of. rewrite length_app. cbn. lia. }
    rewrite Hne. by rewrite orb_true_r.
Qed.

(** X13. What [setProtocolVersion] answers and stores.  It returns [false]
    only without changing the session, and [true] only having stored the
    version it was given, which is then a known one (below
    [RPC_WIRE_PROTOCOL_VERSION_NEXT] or the experimental one) and not above
    a version stored before; on a session without a version every known
    version is accepted.  No other member changes, and over any sequence of
    calls the stored version, once there is one, never goes up. *)
Theorem X13_setProtocolVersion_answers_and_order (v : Z) (s : RpcSession) :
  (fst (setProtocolVersion v s) = false → snd (setProtocolVersion v s) = s) ∧
  (fst (setProtocolVersion v s) = true →
     getProtocolVersion (snd (setProtocolVersion v s)) = Some v ∧
     (v < RPC_WIRE_PROTOCOL_VERSION_NEXT ∨ v = RPC_WIRE_PROTOCOL_VERSION_EXPERIMENTAL) ∧
     (∀ p, mProtocolVersion s = Some p → v ≤ p)) ∧
  (mProtocolVersion s = None →
     v < RPC_WIRE_PROTOCOL_VERSION_NEXT ∨ v = RPC_WIRE_PROTOCOL_VERSION_EXPERIMENTAL →
     fst (setProtocolVersion v s) = true) ∧
  set_mProtocolVersion (mProtocolVersion s) (snd (setProtocolVersion v s)) = s ∧
  (∀ vs p, mProtocolVersion s = Some p →
     ∃ p', mProtocolVersion (foldl (λ s0 v0, snd (setProtocolVersion v0 s0)) s vs)
             = Some p' ∧ p' ≤ p).
Proof.
  split_and!.
  - unfold setProtocolVersion. by repeat case_match.
  - unfold setProtocolVersion, getProtocolVersion.
    destruct (_ && _) eqn:Hknown; [done|].
    assert (v < RPC_WIRE_PROTOCOL_VERSION_NEXT ∨ v = RPC_WIRE_PROTOCOL_VERSION_EXPERIMENTAL).
    { apply andb_false_iff in Hknown as [H|H]; [left; lia|right].
      apply negb_false_iff in H. lia. }
    destruct (mProtocolVersion s) as [p|] eqn:Hp.
    + destruct (p <? v) eqn:Hlt; [done|]. intros _. cbn.
      split_and!; [done|done|]. intros ? [= <-]. lia.
    + intros _. cbn. split_and!; [done|done|done].
  - intros Hnone Hknown. unfold setProtocolVersion. rewrite Hnone.
    replace ((RPC_WIRE_PROTOCOL_VERSION_NEXT <=? v) &&
             negb (v =? RPC_WIRE_PROTOCOL_VERSION_EXPERIMENTAL)) with false; [done|].
    symmetry. destruct Hknown as [Hlt| ->].
    + apply andb_false_iff. left. lia.
    + rewrite Z.eqb_refl. apply andb_false_r.
  - unfold setProtocolVersion. repeat case_match; destruct s; cbn in *; by subst.
  - intros vs. revert s. induction vs as [|v0 vs IH]; intros s0 p Hp; cbn [foldl].
    + exists p. split; [done|lia].
    + assert (∃ p0, mProtocolVersion (snd (setProtocolVersion v0 s0)) = Some p0 ∧ p0 ≤ p)
        as (p0 & Hp0 & Hle).
      { unfold setProtocolVersion. rewrite Hp. destruct (_ && _); [exists p; split; [done|lia]|].
        destruct (p <? v0) eqn:Hlt; [exists p; split; [done|lia]|].
        exists v0. split; [done|lia]. }
      destruct (IH _ p0 Hp0) as (p' & Hp' & Hle'). exists p'. split; [done|lia].
Qed.

Lemma mThreads_round_trip (tid : Z) (T : gset Z) : tid ∉ T → ({[tid]} ∪ T) ∖ {[tid]} = T.
Proof.
  intros Hnew. apply set_eq. intros x.
  rewrite elem_of_difference, elem_of_union, elem_of_singleton. split.
  - by intros [[->|Hx] Hne].
  - intros Hx. split; [by right|]. by intros ->.
Qed.

Lemma mThreads_registered (tid : Z) (T : gset Z) : tid ∈ ({[tid]} ∪ T : gset Z).
Proof. apply elem_of_union_l. by apply elem_of_singleton. Qed.

Lemma remove_found p s :
  p ∈ mIncomingConnections s → fst (removeIncomingConnection p s) = true.
Proof.
  intros Hp. unfold removeIncomingConnection, removeIncomingConnection_locked.
  by destruct (erase_first_Some p _ Hp) as (l1 & l2 & _ & _ & ->).
Qed.

Lemma remove_frame p s :
  mOutgoingConnections (snd (removeIncomingConnection p s)) = mOutgoingConnections s ∧
  mMaxThreads (snd (removeIncomingConnection p s)) = mMaxThreads s ∧
  mThreads (snd (removeIncomingConnection p s)) = mThreads s ∧
  mMaxIncomingConnections (snd (removeIncomingConnection p s)) = mMaxIncomingConnections s.
Proof.
  unfold removeIncomingConnection, removeIncomingConnection_locked.
  destruct (erase_first p (mIncomingConnections s)) as [rest|]; [|done].
  destruct (_ && _); [|done]. cbn [snd].
  unfold onSessionAllIncomingThreadsEnded. by repeat case_match.
Qed.

(** Neither fatal check of [join] fires for a worker that is registered and
    whose connection, if it has one, is in the incoming pool. *)
Lemma join_exit_done tid r s :
  tid ∈ mThreads s →
  (∀ p, connection r = Some p → p ∈ mIncomingConnections s) →
  join_exit tid r s =
    Done (match connection r with
          | Some p => snd (removeIncomingConnection p
                             (set_mThreads (mThreads s ∖ {[tid]}) s))
          | None => set_mThreads (mThreads s ∖ {[tid]}) s
          end).
Proof.
  intros Hreg Hconn. unfold join_exit, join_unregister.
  rewrite bool_decide_eq_true_2 by done. cbn [obind].
  destruct (connection r) as [p|]; [|done].
  pose proof (remove_found p (set_mThreads (mThreads s ∖ {[tid]}) s) (Hconn p eq_refl)).
  destruct (removeIncomingConnection _ _) as [found s'']. cbn in *. by subst.
Qed.

(** [addIncomingConnection] returns, and returns [OK]. *)
Lemma addIncomingConnection_total w transport s :
  ∃ s', addIncomingConnection w transport s = Done (OK, s').
Proof.
  unfold addIncomingConnection, preJoinSetup.
  set (s1 := preJoinThreadOwnership (we_tid w) s).
  assert (Hreg : we_tid w ∈ mThreads s1) by apply mThreads_registered.
  assert (Hconn : ∀ p,
            fst (assignIncomingConnectionToThisThread (we_tid w) transport s1) = Some p →
            p ∈ mIncomingConnections
                  (snd (assignIncomingConnectionToThisThread (we_tid w) transport s1))).
  { intros p. unfold assignIncomingConnectionToThisThread, new_connection.
    destruct (_ <=? _); [done|]. destruct (_ <? _); [done|]. cbn. intros [= <-].
    apply elem_of_app. right. by apply list_elem_of_singleton. }
  assert (Hth : mThreads (snd (assignIncomingConnectionToThisThread
                                 (we_tid w) transport s1)) = mThreads s1).
  { unfold assignIncomingConnectionToThisThread, new_connection.
    destruct (_ <=? _); [done|]. by destruct (_ <? _). }
  destruct (assignIncomingConnectionToThisThread (we_tid w) transport s1) as [conn s2].
  cbn [fst snd] in *. destruct (we_exits w); [|by eexists].
  rewrite join_exit_done; [by eexists|by rewrite Hth|done].
Qed.

(** X14. [addIncomingConnection] returns [OK] whatever becomes of the
    worker: also when [preJoinSetup] refuses the connection, and also when
    the worker has run [join] to its end (neither fatal check of [join]
    fires).  It never touches the outgoing pool or [mMaxThreads].  A worker
    that is still running is registered in [mThreads]; one that has ended
    has left [mThreads] and, on a session whose pool entries name objects,
    the incoming pool as they were.  When such a worker had been granted a
    connection, the session is closed for admission afterwards, and when
    the pool was empty and the session has its own shutdown listener, that
    listener has been told. *)
Theorem X14_addIncomingConnection_returns_OK
    (w : worker_env) (transport : Z) (s : RpcSession) :
  ∃ s', addIncomingConnection w transport s = Done (OK, s') ∧
    mOutgoingConnections s' = mOutgoingConnections s ∧
    mMaxThreads s' = mMaxThreads s ∧
    (we_exits w = false →
       we_tid w ∈ mThreads s' ∧
       (mIncomingConnections s' = mIncomingConnections s ∨
        mIncomingConnections s' = mIncomingConnections s ++ [length (mHeap s)])) ∧
    (we_exits w = true →
       (we_tid w ∉ mThreads s → mThreads s' = mThreads s) ∧
       (pool_valid (mHeap s) (mIncomingConnections s) →
        mIncomingConnections s' = mIncomingConnections s) ∧
       (size_of (mIncomingConnections s) < mMaxThreads s →
        mMaxIncomingConnections s ≤ size_of (mIncomingConnections s) →
        closed_for_admission s' ∧
        (mIncomingConnections s = [] → mEventListener s = ShutdownListenerRef →
         is_Some (mShutdownListener s) → waitForShutdown_done s' = true))).
Proof.
  unfold addIncomingConnection, preJoinSetup.
  set (s1 := preJoinThreadOwnership (we_tid w) s).
  assert (Hreg : we_tid w ∈ mThreads s1) by apply mThreads_registered.
  destruct (assignIncomingConnectionToThisThread (we_tid w) transport s1)
    as [conn s2] eqn:Hassign.
  unfold assignIncomingConnectionToThisThread, new_connection in Hassign.
  change (mMaxThreads s1) with (mMaxThreads s) in Hassign.
  change (mIncomingConnections s1) with (mIncomingConnections s) in Hassign.
  change (mMaxIncomingConnections s1) with (mMaxIncomingConnections s) in Hassign.
  change (mHeap s1) with (mHeap s) in Hassign.
  destruct (mMaxThreads s <=? size_of (mIncomingConnections s)) eqn:Hfull;
    [|destruct (size_of (mIncomingConnections s) <? mMaxIncomingConnections s) eqn:Hclosed];
    injection Hassign as <- <-.
  - (* refused: the pool is full *)
    destruct (we_exits w) eqn:Hex.
    + rewrite join_exit_done by done. cbn [obind connection].
      eexists. split; [done|]. split_and!; [done|done|done|].
      intros _. split_and!; [|done|intros; lia].
      intros Hnew. cbn. by apply mThreads_round_trip.
    + eexists. split; [done|]. split_and!; [done|done| |done].
      intros _. split; [done|by left].
  - (* refused: a connection has gone *)
    destruct (we_exits w) eqn:Hex.
    + rewrite join_exit_done by done. cbn [obind connection].
      eexists. split; [done|]. split_and!; [done|done|done|].
      intros _. split_and!; [|done|intros; lia].
      intros Hnew. cbn. by apply mThreads_round_trip.
    + eexists. split; [done|]. split_and!; [done|done| |done].
      intros _. split; [done|by left].
  - (* granted *)
    match goal with |- context [(_, ?x)] => set (s2 := x) end.
    destruct (we_exits w) eqn:Hex.
    + rewrite join_exit_done; [|done|].
      2:{ intros p [= <-]. cbn. apply elem_of_app. right. by apply list_elem_of_singleton. }
      cbn [obind connection].
      set (s3 := set_mThreads (mThreads s2 ∖ {[we_tid w]}) s2).
      destruct (remove_frame (length (mHeap s)) s3) as (Hout & Hmt & Hth & Hmax).
      eexists. split; [done|].
      assert (Hpool : ∃ rest,
                mIncomingConnections (snd (removeIncomingConnection (length (mHeap s)) s3))
                  = rest ∧
                erase_first (length (mHeap s)) (mIncomingConnections s ++ [length (mHeap s)])
                  = Some rest ∧
                length rest = length (mIncomingConnections s) ∧
                (length (mHeap s) ∉ mIncomingConnections s →
                 rest = mIncomingConnections s)).
      { destruct (erase_first_app_last (length (mHeap s)) (mIncomingConnections s))
          as (rest & He & Hlen & Hsame).
        exists rest. split_and!; [|done..].
        unfold removeIncomingConnection, removeIncomingConnection_locked.
        change (mIncomingConnections s3)
          with (mIncomingConnections s ++ [length (mHeap s)]).
        rewrite He. destruct (_ && _); [|done]. cbn [snd].
        unfold onSessionAllIncomingThreadsEnded. by repeat case_match. }
      destruct Hpool as (rest & Hrest & He & Hlen & Hsame).
      split_and!; [by rewrite Hout|by rewrite Hmt|done|].
      intros _. split_and!.
      * intros Hnew. rewrite Hth. cbn. by apply mThreads_round_trip.
      * intros Hv. rewrite Hrest. apply Hsame. by apply pool_valid_fresh.
      * intros _ _. split.
        -- unfold closed_for_admission. rewrite Hrest, Hmax. cbn.
           unfold size_of. rewrite length_app, Hlen. cbn [length]. lia.
        -- intros Hempty Hl [b Hb].
           assert (rest = []) as ->
             by (destruct rest; [done|]; by rewrite Hempty in Hlen).
           unfold removeIncomingConnection, removeIncomingConnection_locked.
           change (mIncomingConnections s3)
             with (mIncomingConnections s ++ [length (mHeap s)]).
           rewrite He. unfold promote_listener. cbn. rewrite Hl. cbn.
           unfold onSessionAllIncomingThreadsEnded, waitForShutdown_done. cbn.
           by rewrite Hl, Hb.
    + eexists. split; [done|]. split_and!; [done|done| |done].
      intros _. split; [done|by right].
Qed.

(** ** Client or server, and shutting down *)

(** X15. A session is set up for a server at most once and is then not a
    client.  After [setForServer] has returned [true], the session carries
    the given id, the server's listener and an unfired trigger; the pools
    and limits are as before; a client's [initShutdownTrigger] finds the
    trigger and leaves the session (and the server's listener) alone;
    [readId] and a second [setForServer] are fatal.  When [FdTrigger::make]
    fails, [setForServer] returns [false] and the session is unchanged. *)
Theorem X15_setForServer_makes_a_server_session
    (made : bool) (sessionId : RpcAddress) (s : RpcSession) (ok : bool) (s' : RpcSession) :
  setForServer made sessionId s = Done (ok, s') →
  ok = made ∧
  (ok = false → s' = s) ∧
  (ok = true →
     mForServer s' = true ∧ mId s' = Some sessionId ∧
     mEventListener s' = ExternalListenerRef ∧ mShutdownTrigger s' = Some false ∧
     mShutdownListener s' = mShutdownListener s ∧ pools_same s s' ∧
     (∀ made', initShutdownTrigger made' s' = (OK, s')) ∧
     (∀ env tid, readId env tid s' = Aborts) ∧
     (∀ made' id', setForServer made' id' s' = Aborts)).
Proof.
  unfold setForServer.
  destruct (mForServer s); [done|]. destruct (promote_listener s); [done|].
  destruct (mShutdownTrigger s); [done|].
  destruct made; intros [= <- <-]; (split; [done|]); (split; [done|]); [|done].
  intros _. by split_and!.
Qed.

(** X16. [initShutdownTrigger] returns [OK] exactly when the session has a
    trigger afterwards, and [INVALID_OPERATION] otherwise.  Once it has
    returned [OK], calling it again changes nothing.  A call on a session
    without a trigger installs the session's own shutdown listener, with its
    flag down, even when the trigger cannot be made; the pools and limits
    are never touched, and [setForServer] on the result is fatal. *)
Theorem X16_initShutdownTrigger_installs_trigger_and_listener
    (made : bool) (s : RpcSession) :
  (fst (initShutdownTrigger made s) = OK ↔
     is_Some (mShutdownTrigger (snd (initShutdownTrigger made s)))) ∧
  (fst (initShutdownTrigger made s) ≠ OK →
     fst (initShutdownTrigger made s) = INVALID_OPERATION ∧
     made = false ∧ mShutdownTrigger s = None) ∧
  (fst (initShutdownTrigger made s) = OK →
     ∀ made', initShutdownTrigger made' (snd (initShutdownTrigger made s))
              = (OK, snd (initShutdownTrigger made s))) ∧
  (mShutdownTrigger s = None →
     mEventListener (snd (initShutdownTrigger made s)) = ShutdownListenerRef ∧
     mShutdownListener (snd (initShutdownTrigger made s)) = Some false) ∧
  pools_same s (snd (initShutdownTrigger made s)) ∧
  (∀ made' id, setForServer made' id (snd (initShutdownTrigger made s)) = Aborts).
Proof.
  assert (Hserver : ∀ made' id s0,
            is_Some (mShutdownTrigger s0) ∨ promote_listener s0 = true →
            setForServer made' id s0 = Aborts).
  { intros made' id s0 H. unfold setForServer.
    destruct (mForServer s0); [done|].
    destruct H as [[fired H]| ->]; [|done]. rewrite H. by destruct (promote_listener s0). }
  unfold initShutdownTrigger.
  destruct (mShutdownTrigger s) as [fired|] eqn:Htrig; cbn [fst snd].
  - split_and!.
    + rewrite Htrig. split; [by eexists|done].
    + done.
    + intros _ made'. by rewrite Htrig.
    + done.
    + done.
    + intros made' id. apply Hserver. left. by rewrite Htrig.
  - destruct made; cbn [fst snd]; split_and!.
    + split; [by eexists|done].
    + done.
    + done.
    + done.
    + done.
    + intros made' id. apply Hserver. by right.
    + split; [done|]. by intros [? ?].
    + done.
    + done.
    + done.
    + done.
    + intros made' id. apply Hserver. by right.
Qed.

Lemma waitForShutdown_prefix wakeups logged s s' n :
  waitForShutdown wakeups logged s = Done (s', n) →
  waitForShutdown_done s' = true ∧
  ∃ k, (k ≤ length wakeups)%nat ∧
    s' = foldl (λ s0 w, snd w s0) s (take k wakeups) ∧
    n = (logged + length (filter (λ w, fst w = true) (take k wakeups)))%nat ∧
    (waitForShutdown_done s = true → k = 0%nat).
Proof.
  revert logged s. induction wakeups as [|[timeout w] ws IH]; intros logged s;
    cbn [waitForShutdown]; destruct (waitForShutdown_done s) eqn:Hdone; try done.
  - intros [= <- <-]. split; [done|]. exists 0%nat. cbn. split_and!; [lia|done|lia|done].
  - intros [= <- <-]. split; [done|]. exists 0%nat. cbn. split_and!; [lia|done|lia|done].
  - intros H. apply IH in H as (Hd & k & Hk & -> & -> & _). split; [done|].
    exists (S k). cbn [take foldl length snd]. split_and!; [lia|done| |done].
    rewrite filter_cons. cbn [fst]. destruct timeout.
    + rewrite decide_True by done. cbn [length]. lia.
    + rewrite decide_False by done. lia.
Qed.

(** X17. [shutdownAndWait] is fatal on a session without a trigger.
    Without waiting it fires the trigger, changes nothing else and returns
    [true], and doing it again makes no difference.  With waiting it
    returns only [true], and only in a state where the trigger has fired,
    the shutdown listener's flag is up and [mThreads] is empty; it has then
    waited through some prefix of the wake-ups, written one error line for
    each that was a timeout, and not waited at all when the flag was up
    already. *)
Theorem X17_shutdownAndWait_returns_after_the_workers
    (wakeups : list (bool * (RpcSession → RpcSession))) (s : RpcSession) :
  (mShutdownTrigger s = None → ∀ wait, shutdownAndWait wait wakeups s = Aborts) ∧
  (is_Some (mShutdownTrigger s) →
     shutdownAndWait false wakeups s
       = Done (true, set_mShutdownTrigger (Some true) s, 0%nat) ∧
     shutdownAndWait false wakeups (set_mShutdownTrigger (Some true) s)
       = Done (true, set_mShutdownTrigger (Some true) s, 0%nat)) ∧
  (∀ b s' n, shutdownAndWait true wakeups s = Done (b, s', n) →
     b = true ∧ waitForShutdown_done s' = true ∧ mThreads s' = ∅ ∧
     ∃ k, (k ≤ length wakeups)%nat ∧
       s' = foldl (λ s0 w, snd w s0) (set_mShutdownTrigger (Some true) s)
              (take k wakeups) ∧
       n = length (filter (λ w, fst w = true) (take k wakeups)) ∧
       (waitForShutdown_done s = true → k = 0%nat)).
Proof.
  unfold shutdownAndWait, shutdownAndWait_begin. split_and!.
  - intros ->. done.
  - intros [fired ->]. cbn. split; [done|]. by destruct s.
  - intros b s' n. destruct (mShutdownTrigger s) as [fired|]; [|done].
    cbn [mShutdownListener set_mShutdownTrigger].
    destruct (mShutdownListener s) as [flag|] eqn:Hflag; [|done]. cbn [obind].
    destruct (waitForShutdown wakeups 0 _) as [[s1 n1]| |] eqn:Hwait; [|done..].
    cbn [obind fst snd]. unfold shutdownAndWait_end.
    destruct (bool_decide (mThreads s1 = ∅)) eqn:Hth; [|done]. cbn [obind].
    intros [= <- <- <-]. apply bool_decide_eq_true in Hth.
    apply waitForShutdown_prefix in Hwait as (Hd & k & Hk & Hs & Hn & Hzero).
    split_and!; [done..|]. exists k. split_and!; [done..|].
    intros Hdone. apply Hzero. unfold waitForShutdown_done in *. cbn. by rewrite Hflag in *.
Qed.

(** X18. The destructor of a session is fatal while an incoming connection
    is in the pool: on a session with an empty incoming pool it runs; after
    a granted [assignIncomingConnectionToThisThread] it is fatal; and after
    the worker's [removeIncomingConnection] of that connection it runs
    again. *)
Theorem X18_session_with_a_worker_cannot_be_destroyed
    (tid : pid_t) (transport : Z) (s : RpcSession) (p : ptr) :
  mIncomingConnections s = [] →
  fst (assignIncomingConnectionToThisThread tid transport s) = Some p →
  RpcSession_destroy s = Done tt ∧
  RpcSession_destroy (snd (assignIncomingConnectionToThisThread tid transport s))
    = Aborts ∧
  removeIncomingConnection p (snd (assignIncomingConnectionToThisThread tid transport s))
    = (true, snd (removeIncomingConnection p
                    (snd (assignIncomingConnectionToThisThread tid transport s)))) ∧
  RpcSession_destroy
    (snd (removeIncomingConnection p
            (snd (assignIncomingConnectionToThisThread tid transport s))))
    = Done tt.
Proof.
  intros Hempty. unfold assignIncomingConnectionToThisThread, new_connection.
  rewrite Hempty. destruct (_ <=? _); [done|]. destruct (_ <? _); [done|].
  cbn [fst snd]. intros [= <-].
  unfold RpcSession_destroy, removeIncomingConnection, removeIncomingConnection_locked.
  cbn [mIncomingConnections set_mHeap set_mMaxIncomingConnections
    set_mIncomingConnections].
  rewrite !Hempty. cbn [app erase_first].
  rewrite bool_decide_eq_true_2 by done.
  change (size_of (@nil nat)) with 0. change (size_of [length (mHeap s)]) with 1.
  cbn [Z.eqb negb andb]. split_and!; [done|done| |].
  - by destruct (promote_listener _).
  - destruct (promote_listener _); cbn [snd]; [|done].
    unfold onSessionAllIncomingThreadsEnded. by repeat case_match.
Qed.

(** ** Connections that cannot be set up *)

Lemma addIncomingConnection_status w transport s st s' :
  addIncomingConnection w transport s = Done (st, s') → st = OK.
Proof.
  unfold addIncomingConnection.
  destruct (preJoinSetup _ _ _ _) as [r s2]. destruct (we_exits w).
  - destruct (join_exit _ _ _); cbn [obind]; intros H; by simplify_eq.
  - intros H; by simplify_eq.
Qed.

Lemma initAndAddConnection_fail env tid fd sid incoming s st s' :
  initAndAddConnection env tid fd sid incoming s = Done (st, s') → st ≠ OK → s' = s.
Proof.
  unfold initAndAddConnection.
  destruct (mShutdownTrigger s); [|done].
  destruct (ie_newTransport env) as [server|]; [|by intros [= <- <-]].
  destruct (negb (_ =? OK)); [by intros [= <- <-]|].
  destruct incoming.
  - intros H Hne. by apply addIncomingConnection_status in H.
  - unfold addOutgoingConnection, addOutgoingConnection_publish, new_connection.
    cbn zeta. by intros [= <- <-].
Qed.

Lemma setupOneSocketConnection_loop_fail tries env tid sid incoming s trace st s' tr :
  setupOneSocketConnection_loop tries env tid sid incoming s trace = Done (st, s', tr) →
  st ≠ OK → s' = s.
Proof.
  revert trace. induction tries as [|t rest IH]; intros trace;
    cbn [setupOneSocketConnection_loop].
  { by intros [= <- <- <-]. }
  destruct (ce_socket (env t)) as [fd|e]; [|by intros [= <- <- <-]].
  destruct (connect_errno (env t)) as [[st0|e] evs]; [by intros [= <- <- <-]|].
  destruct (e =? ECONNRESET); [apply IH|].
  destruct (negb (e =? 0)); [by intros [= <- <- <-]|].
  destruct (initAndAddConnection _ _ _ _ _ _) as [[st1 s1]| |] eqn:Hinit; cbn [obind];
    [|done..].
  intros [= <- <- <-] Hne. by eapply initAndAddConnection_fail.
Qed.

(** X19. A connection setup that fails leaves the session as it was.  When
    [setupOneSocketConnection] or [initAndAddConnection] returns a status
    other than [OK], no member of the session and no connection object has
    changed: nothing is left behind in either pool by a socket that could
    not be opened or connected, a transport that could not be made or a
    header that could not be written.  For an incoming connection the
    converse holds as well: once the header is written the result is [OK],
    whether or not a worker took the connection. *)
Theorem X19_failed_connection_setup_changes_nothing
    (env : nat → connect_env) (ienv : init_env) (tid : pid_t) (fd : Z)
    (sid : RpcAddress) (incoming : bool) (s : RpcSession) :
  (∀ st s' tr,
     setupOneSocketConnection env tid sid incoming s = Done (st, s', tr) →
     st ≠ OK → s' = s) ∧
  (∀ st s',
     initAndAddConnection ienv tid fd sid incoming s = Done (st, s') →
     st ≠ OK → s' = s) ∧
  (∀ server, is_Some (mShutdownTrigger s) → ie_newTransport ienv = Some server →
     (∀ h, ie_writeHeader ienv h = OK) →
     ∃ s', initAndAddConnection ienv tid fd sid incoming s = Done (OK, s')).
Proof.
  split_and!.
  - intros st s' tr. apply setupOneSocketConnection_loop_fail.
  - intros st s'. apply initAndAddConnection_fail.
  - intros server [fired Htrig] Hnew Hwrite. unfold initAndAddConnection.
    rewrite Htrig, Hnew, Hwrite. cbn [Z.eqb OK negb]. destruct incoming.
    + destruct (addIncomingConnection_total (ie_worker ienv) server s) as (s' & ->). by eexists.
    + unfold addOutgoingConnection, addOutgoingConnection_publish, new_connection.
      cbn zeta. by eexists.
Qed.

(** ** Inet clients and the debugging client *)

Lemma setupInetClient_loop_result ais tid s st s' :
  setupInetClient_loop ais tid s = Done (st, s') →
  (st = OK ∧ ∃ ai s0, ai ∈ ais ∧
     setupSocketClient (ai_addr ai) (ai_peer ai) tid s0 = Done (OK, s')) ∨
  st = NAME_NOT_FOUND.
Proof.
  revert s. induction ais as [|ai rest IH]; intros s; cbn [setupInetClient_loop].
  { intros [= <- <-]. by right. }
  destruct (setupSocketClient _ _ _ _) as [[st1 s1]| |] eqn:Hsetup; cbn [obind fst snd];
    [|done..].
  destruct (st1 =? OK) eqn:Hst.
  - apply Z.eqb_eq in Hst as ->. intros [= <- <-]. left. split; [done|].
    exists ai, s. split; [by left|done].
  - intros H. apply IH in H as [(Hok & ai' & s0 & Hin & H)|Hnf]; subst st;
      [left|by right].
    split; [done|]. exists ai', s0. split; [by right|done].
Qed.

(** An attempt on a session that already has an outgoing connection is
    fatal. *)
Lemma setupInetClient_loop_fatal ai rest tid s :
  mOutgoingConnections s ≠ [] → setupInetClient_loop (ai :: rest) tid s = Aborts.
Proof.
  intros Hne. cbn [setupInetClient_loop]. unfold setupSocketClient, setupClient.
  by rewrite (size_of_nonempty _ Hne).
Qed.

(** X20. [setupInetClient] returns [UNKNOWN_ERROR] when the address does not
    resolve, without touching the session; [OK] when the setup through one
    of the resolved addresses returned [OK], and then with the session as
    that setup left it; and [NAME_NOT_FOUND] in every other case in which
    it returns: the statuses of the attempts that failed are not passed
    on. *)
Theorem X20_setupInetClient_statuses
    (aiStart : list addrinfo) (tid : pid_t) (s : RpcSession)
    (st : status_t) (s' : RpcSession) :
  setupInetClient aiStart tid s = Done (st, s') →
  (aiStart = [] ∧ st = UNKNOWN_ERROR ∧ s' = s) ∨
  (aiStart ≠ [] ∧ st = NAME_NOT_FOUND) ∨
  (aiStart ≠ [] ∧ st = OK ∧
   ∃ ai s0, ai ∈ aiStart ∧
     setupSocketClient (ai_addr ai) (ai_peer ai) tid s0 = Done (OK, s')).
Proof.
  unfold setupInetClient. destruct aiStart as [|ai rest].
  - intros [= <- <-]. by left.
  - intros H. right. apply setupInetClient_loop_result in H as [[Hok H]|Hnf]; subst st.
    + right. by split_and!.
    + left. by split.
Qed.

(** X21. [setupInetClient] does not get past an address whose setup failed
    after the first connection was made.  When the setup through the first
    resolved address connects and adds its first outgoing connection and
    then fails (here: while the protocol version is agreed), that
    connection stays in the outgoing pool, and the attempt on the next
    address runs into the fatal check of [setupClient] that a session is set
    up only once. *)
Theorem X21_setupInetClient_second_attempt_is_fatal
    (ai : addrinfo) (rest : list addrinfo) (tid : pid_t) (s s1 s2 : RpcSession)
    (tr : list sock_event) (st : status_t) :
  mOutgoingConnections s = [] →
  fst (initShutdownTrigger (se_FdTrigger_make (ai_peer ai)) s) = OK →
  (∀ t, errno_set (ai_addr ai Seed t)) →
  (∀ t p s0, pools_same s0 (ie_sendConnectionInit (ce_init (ai_addr ai Seed t)) p s0)) →
  setupOneSocketConnection (ai_addr ai Seed) tid RpcAddress_zero false
    (snd (initShutdownTrigger (se_FdTrigger_make (ai_peer ai)) s)) = Done (OK, s1, tr) →
  negotiate_version (ai_peer ai) tid s1 = Done (st, s2) → st ≠ OK →
  rest ≠ [] →
  setupSocketClient (ai_addr ai) (ai_peer ai) tid s = Done (st, s2) ∧
  mOutgoingConnections s2 ≠ [] ∧
  setupInetClient (ai :: rest) tid s = Aborts.
Proof.
  intros Hout Hinit Herr Hquiet Hseed Hneg Hst Hrest.
  assert (Hsetup : setupSocketClient (ai_addr ai) (ai_peer ai) tid s = Done (st, s2)).
  { unfold setupSocketClient, setupClient. rewrite Hout. cbn [size_of length Z.of_nat Z.eqb negb].
    destruct (initShutdownTrigger _ s) as [st0 s0]. cbn [fst snd] in *. subst st0.
    cbn [Z.eqb OK negb]. rewrite Hseed. cbn [obind fst snd Z.eqb OK negb].
    rewrite Hneg. cbn [obind fst snd].
    destruct (st =? OK) eqn:E; [by apply Z.eqb_eq in E|done]. }
  assert (Hs2 : mOutgoingConnections s2 ≠ []).
  { destruct (socket_connect_ok (ai_addr ai) tid Seed RpcAddress_zero false
                (snd (initShutdownTrigger (se_FdTrigger_make (ai_peer ai)) s)) s1 Herr)
      as (t & fd' & Hadd); [by rewrite Hseed|].
    apply initAndAddConnection_outgoing in Hadd as (Hsz & _); [|apply Hquiet].
    apply negotiate_version_pools_same in Hneg as (Hsame & _).
    rewrite Hsame. intros Hnil. rewrite Hnil in Hsz. unfold size_of in Hsz. cbn in Hsz. lia. }
  split_and!; [done|done|].
  unfold setupInetClient. cbn [setupInetClient_loop]. rewrite Hsetup. cbn [obind fst snd].
  destruct (st =? OK) eqn:E; [by apply Z.eqb_eq in E|].
  destruct rest as [|ai2 rest']; [done|]. by apply setupInetClient_loop_fatal.
Qed.

(** X22. [addNullDebuggingClient] either fails, with [INVALID_OPERATION]
    (no trigger could be made), the negated [errno] of [open], or
    [UNKNOWN_ERROR] (no transport), and then leaves the pools and the
    connection objects as they were; or it returns [OK] having appended one
    new, free connection on the new transport to the outgoing pool, without
    running [RpcState::sendConnectionInit].  On a well-formed session any
    thread can then acquire a connection without waiting.  (Assumed of the
    environment: a failing [open] sets a non-zero [errno].) *)
Theorem X22_addNullDebuggingClient_adds_one_free_connection
    (made : bool) (opened : sys_result) (newTransport : option Z)
    (sendConnectionInit : ptr → RpcSession → RpcSession) (tid : pid_t) (s : RpcSession) :
  opened ≠ SysErr 0 →
  (fst (addNullDebuggingClient made opened newTransport sendConnectionInit tid s) ≠ OK →
     pools_same s (snd (addNullDebuggingClient made opened newTransport
                          sendConnectionInit tid s)) ∧
     mHeap (snd (addNullDebuggingClient made opened newTransport
                   sendConnectionInit tid s)) = mHeap s ∧
     (fst (addNullDebuggingClient made opened newTransport sendConnectionInit tid s)
        = INVALID_OPERATION ∨
      (∃ e, opened = SysErr e ∧
         fst (addNullDebuggingClient made opened newTransport sendConnectionInit tid s)
           = - e) ∨
      (newTransport = None ∧
       fst (addNullDebuggingClient made opened newTransport sendConnectionInit tid s)
         = UNKNOWN_ERROR))) ∧
  (∀ s', addNullDebuggingClient made opened newTransport sendConnectionInit tid s
           = (OK, s') →
     ∃ server, newTransport = Some server ∧
       mOutgoingConnections s' = mOutgoingConnections s ++ [length (mHeap s)] ∧
       mHeap s' = mHeap s ++ [mkRpcConnection server None allowNested_initial] ∧
       mIncomingConnections s' = mIncomingConnections s ∧
       is_Some (mShutdownTrigger s') ∧
       (session_wf s → size_of (mOutgoingConnections s) < VECTOR_MAX →
        session_wf s' ∧
        ∀ wakeups tid' use, ∃ r, find wakeups tid' use s' = Done r ∧
          fr_status r = OK ∧ fr_waits r = 0%nat)) ∧
  (∀ other, addNullDebuggingClient made opened newTransport other tid s
            = addNullDebuggingClient made opened newTransport sendConnectionInit tid s).
Proof.
  intros Herrno. unfold addNullDebuggingClient.
  pose proof (initShutdownTrigger_pools_same made s) as Hsame.
  assert (Hinit : mHeap (snd (initShutdownTrigger made s)) = mHeap s ∧
                  mOutgoingConnectionsOffset (snd (initShutdownTrigger made s))
                    = mOutgoingConnectionsOffset s ∧
                  (fst (initShutdownTrigger made s) = OK →
                   is_Some (mShutdownTrigger (snd (initShutdownTrigger made s)))) ∧
                  (fst (initShutdownTrigger made s) ≠ OK →
                   fst (initShutdownTrigger made s) = INVALID_OPERATION)).
  { unfold initShutdownTrigger. destruct (mShutdownTrigger s) eqn:Htrig; cbn.
    - split_and!; try done; try (intros _; rewrite ?Htrig; by eexists).
    - destruct made; cbn; split_and!; try done; try (intros _; by eexists). }
  destruct (initShutdownTrigger made s) as [st0 s0]. cbn [fst snd] in *.
  destruct Hinit as (Hheap & Hoff & Htrig & Hinv).
  destruct (st0 =? OK) eqn:Hst0; cbn [negb].
  2:{ apply Z.eqb_neq in Hst0. split_and!; [|by intros s' [= ? _]|done].
      intros _. split_and!; [done|done|]. left. by apply Hinv. }
  apply Z.eqb_eq in Hst0 as ->.
  destruct opened as [serverFd|e].
  2:{ split_and!; [| |done].
      - intros _. split_and!; [done|done|]. right. left. by exists e.
      - intros s' [= Hz _]. exfalso. apply Herrno. f_equal. unfold OK in Hz. lia. }
  destruct newTransport as [server|].
  2:{ split_and!; [|by intros s' [= ?]|done].
      intros _. split_and!; [done|done|]. right. by right. }
  unfold addOutgoingConnection, addOutgoingConnection_publish, new_connection.
  cbn zeta. cbn [fst snd]. split_and!; [done| |done].
  intros s' [= <-]. exists server. destruct Hsame as (Hout & Hin & _ & _).
  assert (Hnew : alter (set_exclusiveTid None) (length (mHeap s))
                   (mHeap s ++ [mkRpcConnection server (Some tid) allowNested_initial])
                 = mHeap s ++ [mkRpcConnection server None allowNested_initial]).
  { apply list_eq. intros q.
    destruct (decide (q = length (mHeap s))) as [->|Hq].
    - rewrite list_lookup_alter_eq. by rewrite !lookup_app_r, Nat.sub_diag by lia.
    - rewrite list_lookup_alter_ne by done.
      destruct (decide (q < length (mHeap s))%nat).
      + by rewrite !lookup_app_l by lia.
      + rewrite !lookup_app_r by lia.
        destruct (q - length (mHeap s))%nat eqn:E; [lia|done]. }
  set (s1 := store_exclusiveTid _ _ _).
  assert (Hs1 : mHeap s1 = mHeap s ++ [mkRpcConnection server None allowNested_initial] ∧
                mOutgoingConnections s1 = mOutgoingConnections s ++ [length (mHeap s)] ∧
                mIncomingConnections s1 = mIncomingConnections s ∧
                mOutgoingConnectionsOffset s1 = mOutgoingConnectionsOffset s ∧
                mShutdownTrigger s1 = mShutdownTrigger s0).
  { subst s1. cbn. by rewrite Hheap, Hnew, Hout, Hin, Hoff. }
  clearbody s1. destruct Hs1 as (H1 & H2 & H3 & H4 & H5).
  split_and!; [done..|rewrite H5; by apply Htrig|].
  intros (Hvo & Hvi & Hoffs) Hsz.
  assert (Hwf : session_wf s1).
  { unfold session_wf, offset_ok. rewrite H1, H2, H3, H4. split_and!.
    - by apply pool_valid_push.
    - by apply pool_valid_grow.
    - apply Hoffs.
    - unfold offset_ok, size_of in *. rewrite length_app. cbn [length]. lia. }
  split; [done|]. intros wakeups tid' use.
  destruct (find_acquires wakeups tid' use s1) as (r & Hr & Hok & Hw & _).
  - apply Hwf.
  - apply Hwf.
  - destruct Hwf as (_ & _ & Ho). unfold offset_ok in Ho.
    rewrite H2 in *. unfold size_of in *. rewrite length_app in *. cbn [length] in *. lia.
  - exists (length (mHeap s)), (mkRpcConnection server None allowNested_initial).
    rewrite H1, H2. split_and!; [|by rewrite lookup_app_r, Nat.sub_diag|done].
    apply elem_of_app. right. by apply list_elem_of_singleton.
  - by exists r.
Qed.

(** ** Attaching a worker to the Java VM *)

(** X23. The [JavaThreadAttacher] that [join] declares.  Without a Java VM
    it does nothing: no JNI call, no abort, [mAttached] stays [false].  With
    one, it is fatal exactly when the thread cannot be attached or the VM
    has gone when the object is destroyed; otherwise
    [AttachCurrentThread] and [DetachCurrentThread] are each called once,
    in that order.  As the destructor is written, the warning that the
    thread could not be detached is logged when [DetachCurrentThread]
    returned [JNI_OK], and [mAttached] is cleared when it did not. *)
Theorem X23_JavaThreadAttacher_pairs_attach_and_detach (e : jvm_env) :
  (jvm_at_construction e = false → JavaThreadAttacher_scope e = Done (false, [])) ∧
  (JavaThreadAttacher_scope e = Aborts ↔
     jvm_at_construction e = true ∧
     (jvm_attach_ok e = false ∨ jvm_at_destruction e = false)) ∧
  (∀ a tr, JavaThreadAttacher_scope e = Done (a, tr) →
     jvm_at_construction e = true →
     (∃ rest, tr = JniAttachCurrentThread :: JniDetachCurrentThread :: rest) ∧
     count_jni JniAttachCurrentThread tr = 1%nat ∧
     count_jni JniDetachCurrentThread tr = 1%nat ∧
     count_jni JniWarnUnableToDetach tr = (if jvm_detach_ok e then 1%nat else 0%nat) ∧
     a = jvm_detach_ok e).
Proof.
  destruct e as [[] [] [] []]; cbn; split_and!; try done;
    try (split; [done|]; intros [? [?|?]]; done);
    try (split; [intros _|done]; split; [done|]; (by left) || (by right));
    try (intros a tr [= <- <-] _; split_and!; [by eexists|done..]).
Qed.

(** ** Two threads, and the handshake *)

(** X24. Two threads never hold the same connection.  When [find] has
    returned [OK] to one thread, with whatever waits, and a second thread
    then calls [find] and gets [OK] without waiting while the first still
    holds its handle, the two handles name different connections. *)
Theorem X24_two_threads_never_share_a_connection
    (wakeups1 wakeups2 : list (RpcSession → RpcSession)) (tid1 tid2 : pid_t)
    (use1 use2 : ConnectionUse) (s : RpcSession) (r1 r2 : find_result) :
  tid1 ≠ tid2 →
  find wakeups1 tid1 use1 s = Done r1 → fr_status r1 = OK →
  find wakeups2 tid2 use2 (fr_session r1) = Done r2 →
  fr_waits r2 = 0%nat → fr_status r2 = OK →
  ∃ p1 p2, mConnection (fr_connection r1) = Some p1 ∧
           mConnection (fr_connection r2) = Some p2 ∧ p1 ≠ p2 ∧
           owner_of (fr_session r2) p1 = Some tid1 ∧
           owner_of (fr_session r2) p2 = Some tid2.
Proof.
  intros Hne Hfind1 Hok1 Hfind2 Hw2 Hok2.
  apply find_loop_owner in Hfind1 as [(_ & p1 & Hp1 & Hown1)|[Hwb _]];
    [|by rewrite Hwb in Hok1].
  pose proof Hfind2 as Hfind2'.
  apply find_loop_owner in Hfind2' as [(_ & p2' & Hp2' & Hown2)|[Hwb _]];
    [|by rewrite Hwb in Hok2].
  destruct (find_first_pass _ _ _ _ _ Hfind2 Hw2) as ([h s'|s'|s'] & Hit & Hr);
    [|by subst r2|done].
  apply find_iteration_bound in Hit as (p2 & c & Hconn & Hc & Hre & Hnew).
  cbn in Hc. subst r2. cbn [fr_connection fr_session fr_status] in *.
  assert (p2' = p2) as -> by congruence.
  apply owner_of_Some in Hown1 as (c1 & Hc1 & Hc1own).
  assert (Hdiff : p1 ≠ p2).
  { intros ->. assert (c1 = c) as -> by congruence.
    destruct (mReentrant h).
    - destruct (Hre eq_refl) as (Hown & _). congruence.
    - destruct (Hnew eq_refl) as (Hfree & _). congruence. }
  exists p1, p2. split_and!; [done..| |done].
  unfold owner_of. cbn.
  assert (mHeap s' !! p1 = Some c1) as ->; [|done].
  destruct (mReentrant h).
  - destruct (Hre eq_refl) as (_ & -> & _). done.
  - destruct (Hnew eq_refl) as (_ & _ & ->). cbn. by rewrite list_lookup_alter_ne.
Qed.

(** X25. The queries of the client handshake.  [getRemoteMaxThreads]
    returns the session exactly as it found it when it could bind a
    connection, whatever the peer answers.  [readId] then differs only in
    [mId]: the peer's session id when the query returned [OK], and the zero
    address, which is written before the peer is asked, when it did not.
    When no connection can be had, both return [WOULD_BLOCK] with [mId] as
    it was. *)
Theorem X25_handshake_queries_change_only_the_session_id
    (env : setup_env) (tid : pid_t) (s : RpcSession) :
  0 ≤ mWaitingThreads s < SIZE_MOD →
  (∀ st n s', getRemoteMaxThreads env tid s = Done (st, n, s') →
     (st = fst (se_getMaxThreads env) ∧ n = snd (se_getMaxThreads env) ∧ s' = s) ∨
     (st = WOULD_BLOCK ∧
      s' = set_mWaitingThreads (size_add (mWaitingThreads s) 1) s)) ∧
  (∀ st s', readId env tid s = Done (st, s') →
     mForServer s = false ∧
     ((st = OK ∧ fst (se_getSessionId env) = OK ∧
       s' = set_mId (Some (snd (se_getSessionId env))) s) ∨
      (st = fst (se_getSessionId env) ∧ st ≠ OK ∧
       s' = set_mId (Some RpcAddress_zero) s) ∨
      (st = WOULD_BLOCK ∧
       s' = set_mWaitingThreads (size_add (mWaitingThreads s) 1) s))).
Proof.
  intros Hrange. split.
  - intros st n s'. unfold getRemoteMaxThreads.
    destruct (find [] tid CLIENT s) as [r| |] eqn:Hfind; [|done..]. cbn [obind].
    destruct (find_nowait_cases _ _ _ _ _ Hrange Hfind (find_nil_waits _ _ _ _ Hfind))
      as [(Hok & _ & Hrel & Hoff)|(Hwb & Hconn & Hs)].
    + rewrite Hok. cbn [Z.eqb OK negb]. intros [= <- <- <-]. left.
      split_and!; [done..|]. rewrite Hrel, Hoff by done. by destruct s.
    + rewrite Hwb, Hconn. cbn. intros [= <- <- <-]. right. by rewrite Hs.
  - intros st s'. unfold readId. destruct (mForServer s) eqn:Hfs; [done|].
    destruct (find [] tid CLIENT s) as [r| |] eqn:Hfind; [|done..]. cbn [obind].
    destruct (find_nowait_cases _ _ _ _ _ Hrange Hfind (find_nil_waits _ _ _ _ Hfind))
      as [(Hok & [p Hp] & Hrel & Hoff)|(Hwb & Hconn & Hs)].
    + rewrite Hok. cbn [Z.eqb OK negb]. intros H. split; [done|].
      assert (Hrel' : release (fr_connection r) (fr_session r) = s)
        by (rewrite Hrel, Hoff by done; by destruct s).
      assert (Hcomm : ∀ id x, release (fr_connection r) (set_mId id x)
                              = set_mId id (release (fr_connection r) x)).
      { intros id x. unfold release, ExclusiveConnection_destroy.
        destruct (mReentrant _), (mConnection _); try done.
        cbn. by destruct (0 <? _). }
      destruct (fst (se_getSessionId env) =? OK) eqn:Hsid; cbn [negb] in H;
        injection H as <- <-; rewrite !Hcomm, Hrel'.
      * left. apply Z.eqb_eq in Hsid. split_and!; [done|done|]. by destruct s.
      * right. left. apply Z.eqb_neq in Hsid. by split_and!.
    + rewrite Hwb, Hconn. cbn. intros [= <- <-]. split; [done|]. right. right.
      by rewrite Hs.
Qed.

(** ** The handshake of a client, continued *)

Lemma setProtocolVersion_result v s accepted s1 :
  setProtocolVersion v s = (accepted, s1) →
  if accepted
  then s1 = set_mProtocolVersion (Some v) s ∧
       (v < RPC_WIRE_PROTOCOL_VERSION_NEXT ∨ v = RPC_WIRE_PROTOCOL_VERSION_EXPERIMENTAL) ∧
       (∀ p, mProtocolVersion s = Some p → v ≤ p)
  else s1 = s.
Proof.
  unfold setProtocolVersion. destruct (_ && _) eqn:Hknown; [by intros [= <- <-]|].
  assert (v < RPC_WIRE_PROTOCOL_VERSION_NEXT ∨ v = RPC_WIRE_PROTOCOL_VERSION_EXPERIMENTAL).
  { apply andb_false_iff in Hknown as [H|H]; [left; lia|right].
    apply negb_false_iff in H. lia. }
  destruct (mProtocolVersion s) as [p|] eqn:Hp.
  - destruct (p <? v) eqn:Hlt; intros [= <- <-]; [done|].
    split_and!; [done|done|]. intros ? [= <-]. lia.
  - intros [= <- <-]. by split_and!.
Qed.

(** X26. Agreeing on the protocol version.  The block of [setupClient] that
    reads the peer's answer returns [OK] only when the peer answered [OK]
    with a version this side knows and that is not above a version the
    session was capped at; that version is then the session's, and nothing
    else has changed.  When it returns anything else the stored version is
    as before. *)
Theorem X26_negotiated_version_respects_the_cap
    (env : setup_env) (tid : pid_t) (s : RpcSession) (st : status_t) (s' : RpcSession) :
  0 ≤ mWaitingThreads s < SIZE_MOD →
  negotiate_version env tid s = Done (st, s') →
  (st = OK →
     fst (se_readNewSessionResponse env) = OK ∧
     s' = set_mProtocolVersion (Some (snd (se_readNewSessionResponse env))) s ∧
     (snd (se_readNewSessionResponse env) < RPC_WIRE_PROTOCOL_VERSION_NEXT ∨
      snd (se_readNewSessionResponse env) = RPC_WIRE_PROTOCOL_VERSION_EXPERIMENTAL) ∧
     (∀ p, mProtocolVersion s = Some p → snd (se_readNewSessionResponse env) ≤ p)) ∧
  (st ≠ OK →
     mProtocolVersion s' = mProtocolVersion s ∧
     (s' = s ∨ st = WOULD_BLOCK ∧
               s' = set_mWaitingThreads (size_add (mWaitingThreads s) 1) s)).
Proof.
  intros Hrange. unfold negotiate_version.
  destruct (find [] tid CLIENT s) as [r| |] eqn:Hfind; [|done..]. cbn [obind].
  destruct (find_nowait_cases _ _ _ _ _ Hrange Hfind (find_nil_waits _ _ _ _ Hfind))
    as [(Hok & _ & Hrel & Hoff)|(Hwb & Hconn & Hs)].
  - assert (Hrel' : release (fr_connection r) (fr_session r) = s)
      by (rewrite Hrel, Hoff by done; by destruct s).
    rewrite Hok. cbn [Z.eqb OK negb].
    destruct (fst (se_readNewSessionResponse env) =? OK) eqn:Hresp; cbn [negb].
    2:{ apply Z.eqb_neq in Hresp. intros [= <- <-]. rewrite Hrel'.
        split; [done|]. intros _. split; [done|by left]. }
    apply Z.eqb_eq in Hresp.
    destruct (setProtocolVersion _ (fr_session r)) as [accepted s1] eqn:Hset.
    apply setProtocolVersion_result in Hset.
    destruct accepted; intros [= <- <-].
    + destruct Hset as (Hs1 & Hknown & Hcap).
      split; [|done]. intros _. split_and!; [done| |done|].
      * rewrite Hs1.
        assert (Hcomm : ∀ v x, release (fr_connection r) (set_mProtocolVersion v x)
                               = set_mProtocolVersion v (release (fr_connection r) x)).
        { intros v x. unfold release, ExclusiveConnection_destroy.
          destruct (mReentrant (fr_connection r)), (mConnection (fr_connection r)); try done.
          cbn. by destruct (0 <? _). }
        by rewrite Hcomm, Hrel'.
      * intros p Hp. apply Hcap. rewrite <- Hp, <- Hrel' at 1.
        unfold release, ExclusiveConnection_destroy.
        destruct (mReentrant (fr_connection r)), (mConnection (fr_connection r)); try done.
        cbn. by destruct (0 <? _).
    + rewrite Hset, Hrel'. split; [done|]. intros _. split; [done|by left].
  - rewrite Hwb, Hconn. cbn. intros [= <- <-]. rewrite Hs.
    split; [done|]. intros _. split; [done|]. by right.
Qed.

Lemma setupInetClient_loop_unreachable ais tid s :
  mOutgoingConnections s = [] → is_Some (mShutdownTrigger s) →
  Forall (λ ai, ∃ st s' tr,
            setupOneSocketConnection (ai_addr ai Seed) tid RpcAddress_zero false s
              = Done (st, s', tr) ∧ st ≠ OK) ais →
  setupInetClient_loop ais tid s = Done (NAME_NOT_FOUND, s).
Proof.
  intros Hout [fired Htrig]. induction 1 as [|ai rest (st & s' & tr & Hseed & Hst) _ IH];
    [done|].
  cbn [setupInetClient_loop]. unfold setupSocketClient, setupClient.
  rewrite Hout. change (size_of (@nil nat)) with 0. cbn [Z.eqb negb].
  unfold initShutdownTrigger. rewrite Htrig. cbn [Z.eqb OK negb].
  assert (s' = s) as -> by (by eapply setupOneSocketConnection_loop_fail).
  rewrite Hseed. cbn [obind fst snd].
  destruct (st =? OK) eqn:E; [by apply Z.eqb_eq in E|]. cbn [negb obind fst snd].
  rewrite E. exact IH.
Qed.

(** X27. When the first connection cannot be made through any of the
    resolved addresses, [setupInetClient] on a session that has its trigger
    tries them all, returns [NAME_NOT_FOUND] and leaves the session exactly
    as it was; the session can be set up again. *)
Theorem X27_setupInetClient_unreachable_addresses
    (aiStart : list addrinfo) (tid : pid_t) (s : RpcSession) :
  aiStart ≠ [] →
  mOutgoingConnections s = [] → is_Some (mShutdownTrigger s) →
  Forall (λ ai, ∃ st s' tr,
            setupOneSocketConnection (ai_addr ai Seed) tid RpcAddress_zero false s
              = Done (st, s', tr) ∧ st ≠ OK) aiStart →
  setupInetClient aiStart tid s = Done (NAME_NOT_FOUND, s) ∧
  ∀ more, setupInetClient (aiStart ++ more) tid s = setupInetClient_loop more tid s.
Proof.
  intros Hne Hout Htrig Hall. split.
  - unfold setupInetClient. destruct aiStart; [done|].
    by apply setupInetClient_loop_unreachable.
  - intros more. unfold setupInetClient.
    destruct (aiStart ++ more) as [|x l] eqn:Happ.
    { apply app_eq_nil in Happ as [-> _]. done. }
    rewrite <- Happ. clear Happ Hne.
    induction Hall as [|ai rest (st & s' & tr & Hseed & Hst) _ IH]; [done|].
    cbn [app setupInetClient_loop]. unfold setupSocketClient, setupClient.
    rewrite Hout. change (size_of (@nil nat)) with 0. cbn [Z.eqb negb].
    destruct Htrig as [fired Htrig].
    unfold initShutdownTrigger. rewrite Htrig. cbn [Z.eqb OK negb].
    assert (s' = s) as -> by (by eapply setupOneSocketConnection_loop_fail).
    rewrite Hseed. cbn [obind fst snd].
    destruct (st =? OK) eqn:E; [by apply Z.eqb_eq in E|]. cbn [negb obind fst snd].
    rewrite E. apply IH.
Qed.

(** ** One-way calls and calls by a thread that holds a connection *)

Lemma find_async_no_outgoing wakeups tid s :
  mOutgoingConnections s = [] →
  find wakeups tid CLIENT_ASYNC s =
    Done (mkFindResult WOULD_BLOCK (mkExclusiveConnection None false)
            (set_mWaitingThreads (size_add (mWaitingThreads s) 1) s) 0).
Proof.
  intros Hout. unfold find.
  assert (Hit : find_iteration tid CLIENT_ASYNC
                  (set_mWaitingThreads (size_add (mWaitingThreads s) 1) s)
                = Done (ReturnWouldBlock
                          (set_mWaitingThreads (size_add (mWaitingThreads s) 1) s))).
  { unfold find_iteration. cbn [mOutgoingConnections set_mWaitingThreads].
    rewrite Hout. rewrite findConnection_nil by done.
    cbn [obind fst snd join_available is_async negb andb].
    rewrite (bool_decide_eq_false_2 (None ≠ None)) by (intros H; by apply H).
    cbn [orb obind mOutgoingConnections set_mWaitingThreads]. by rewrite Hout. }
  destruct wakeups; cbn [find_loop]; by rewrite Hit.
Qed.

(** X28. A one-way call needs an outgoing connection.  On a session whose
    outgoing pool is empty, [find] for a [CLIENT_ASYNC] use returns
    [WOULD_BLOCK] without waiting, whoever calls: also for a thread that
    serves an incoming connection with [allowNested] set, whose synchronous
    calls are bound to that connection.  [transact] with [FLAG_ONEWAY] then
    returns [WOULD_BLOCK], without calling [RpcState::transact] and leaving
    every connection as it was. *)
Theorem X28_oneway_call_needs_an_outgoing_connection
    (state_transact : ptr → Z → RpcSession → status_t * RpcSession)
    (wakeups : list (RpcSession → RpcSession)) (tid : pid_t) (flags : Z)
    (s : RpcSession) :
  mOutgoingConnections s = [] → Z.land flags FLAG_ONEWAY ≠ 0 →
  find wakeups tid CLIENT_ASYNC s =
    Done (mkFindResult WOULD_BLOCK (mkExclusiveConnection None false)
            (set_mWaitingThreads (size_add (mWaitingThreads s) 1) s) 0) ∧
  transact state_transact wakeups tid flags s =
    Done (WOULD_BLOCK, set_mWaitingThreads (size_add (mWaitingThreads s) 1) s).
Proof.
  intros Hout Hflag. split; [by apply find_async_no_outgoing|].
  unfold transact. apply Z.eqb_neq in Hflag. rewrite Hflag.
  by rewrite find_async_no_outgoing.
Qed.

Lemma findConnection_loop_finds_held heap tid sockets hint idx available :
  Forall (valid_at heap sockets hint) idx →
  Exists (λ i, ∃ p c, visits heap sockets hint i p c ∧ exclusiveTid c = Some tid) idx →
  ∃ p a, findConnection_loop heap tid sockets hint idx None available = Done (Some p, a).
Proof.
  intros Hall. revert available.
  induction Hall as [|i idx (p & c & Hp & Hc) Hrest IH]; intros available Hex.
  { by apply Exists_nil in Hex. }
  cbn [findConnection_loop]. fold (scan_index sockets hint i). rewrite Hp, Hc.
  destruct (bool_decide (exclusiveTid c = Some tid)) eqn:E.
  - apply bool_decide_eq_true in E. rewrite E.
    rewrite (bool_decide_eq_false_2 (Some tid = None)) by done. rewrite andb_false_r.
    by eexists _, _.
  - apply bool_decide_eq_false in E.
    assert (Htail : Exists (λ i, ∃ p c, visits heap sockets hint i p c ∧
                                        exclusiveTid c = Some tid) idx).
    { apply Exists_cons in Hex as [(p' & c' & [Hp' Hc'] & Hown)|]; [|done].
      exfalso. rewrite Hp in Hp'. simplify_eq. }
    destruct (_ && _); by apply IH.
Qed.

(** X29. A thread that holds an outgoing connection is given a connection
    it holds, not another one.  On a well-formed session, [find] by a
    thread that is the [exclusiveTid] of some outgoing connection returns
    [OK] without waiting, for every use, with a reentrant handle on a
    connection whose [exclusiveTid] is that thread; no connection changes
    owner, so the free connections stay free. *)
Theorem X29_find_reuses_a_connection_the_caller_holds
    (wakeups : list (RpcSession → RpcSession)) (tid : pid_t)
    (use : ConnectionUse) (s : RpcSession) (p : ptr) :
  session_wf s → p ∈ mOutgoingConnections s → owner_of s p = Some tid →
  ∃ r q, find wakeups tid use s = Done r ∧
    fr_status r = OK ∧ fr_waits r = 0%nat ∧
    fr_connection r = mkExclusiveConnection (Some q) true ∧
    owner_of s q = Some tid ∧ mHeap (fr_session r) = mHeap s.
Proof.
  intros Hwf Hin Hown.
  set (s0 := set_mWaitingThreads (size_add (mWaitingThreads s) 1) s).
  assert (Hwf0 : session_wf s0) by done.
  destruct (find_iteration_total tid use s0 Hwf0) as (st & Hit).
  assert (∃ q s', st = Bound (mkExclusiveConnection (Some q) true) s')
    as (q & s' & ->).
  { destruct Hwf as (Hout & Hinc & Hoff).
    apply owner_of_Some in Hown as (c & Hc & Hcown).
    assert (Hpos : 0 < size_of (mOutgoingConnections s)).
    { destruct (mOutgoingConnections s); [by apply elem_of_nil in Hin|].
      unfold size_of. cbn [length]. lia. }
    assert (∃ e a, findConnection (mHeap s0) tid None (Some None)
                     (mOutgoingConnections s0) (mOutgoingConnectionsOffset s0)
                   = Done (Some e, a)) as (e & a & Hscan).
    { unfold findConnection. cbn [mHeap mOutgoingConnections mOutgoingConnectionsOffset
        set_mWaitingThreads s0].
      replace ((0 <? size_of (mOutgoingConnections s)) &&
               (size_of (mOutgoingConnections s) <=? mOutgoingConnectionsOffset s))
        with false by (symmetry; apply andb_false_iff; unfold offset_ok in Hoff; lia).
      rewrite bool_decide_eq_false_2 by (intros H; by apply H).
      apply findConnection_loop_finds_held.
      - eapply Forall_impl;
          [apply (seq_visits (mHeap s) (mOutgoingConnections s)
                    (mOutgoingConnectionsOffset s) (λ _, True)); [done|]|].
        + apply Forall_forall. done.
        + intros i (x & d & Hx & _). by exists x, d.
      - apply list_elem_of_lookup in Hin as [j Hj].
        destruct (scan_covers (mOutgoingConnections s) (mOutgoingConnectionsOffset s) j)
          as (i & Hi & Hidx);
          [unfold offset_ok in Hoff; lia | apply Hout | by eapply lookup_lt_Some |].
        apply Exists_exists. exists i. split.
        + apply list_elem_of_In, in_seq. lia.
        + exists p, c. unfold visits. by rewrite Hidx. }
    unfold find_iteration in Hit. rewrite Hscan in Hit. cbn [obind fst snd] in Hit.
    destruct (negb (is_async use)).
    - destruct (findConnection _ _ _ _ (mIncomingConnections _) _) as [[ei ai]| |];
        [|done..].
      cbn [obind fst snd] in Hit. destruct ei as [x|].
      + destruct (mHeap _ !! x) as [d|]; [|done].
        destruct (allowNested d); cbn [obind] in Hit; [simplify_eq; by eexists _, _|].
        destruct (is_refcount use && _); cbn [obind] in Hit; simplify_eq;
          by eexists _, _.
      + cbn [obind] in Hit. simplify_eq. by eexists _, _.
    - cbn [obind] in Hit. simplify_eq. by eexists _, _. }
  apply find_iteration_bound in Hit as Hspec.
  destruct Hspec as (q' & c & Hconn & Hc & Hre & _). cbn in Hconn, Hc.
  injection Hconn as <-. destruct (Hre eq_refl) as (Hown' & Hs' & _).
  eexists _, q. unfold find. fold s0.
  destruct wakeups; cbn [find_loop]; rewrite Hit; cbn [obind];
    (split; [reflexivity|]); cbn [fr_status fr_waits fr_connection fr_session];
    (split_and!; [done|done|done|by rewrite (owner_of_lookup _ _ c)|]);
    cbn; by rewrite Hs'.
Qed.

End Session.

(* ================================================================== *)
(* ================================================================== *)
(** * [Scheduler::ConfigEvent] *)

(** X30. [operator|] on [Scheduler::ConfigEvent] is a logical or with
    [Changed] as true: the result is [Changed] exactly when one of the
    operands is; the operator is commutative, associative and idempotent
    with [None] as its unit, so that combining any number of events, in any
    grouping, gives [Changed] exactly when one of them is [Changed]. *)
Theorem X30_ConfigEvent_or_is_a_logical_or :
  (∀ a b, Scheduler.or a b = Scheduler.Changed ↔
          a = Scheduler.Changed ∨ b = Scheduler.Changed) ∧
  (∀ a b, Scheduler.or a b = Scheduler.or b a) ∧
  (∀ a b c, Scheduler.or a (Scheduler.or b c) = Scheduler.or (Scheduler.or a b) c) ∧
  (∀ a, Scheduler.or a a = a ∧ Scheduler.or Scheduler.None a = a ∧
        Scheduler.or a Scheduler.None = a) ∧
  (∀ l, foldr Scheduler.or Scheduler.None l = Scheduler.Changed ↔
        Scheduler.Changed ∈ l) ∧
  (∀ l, foldl Scheduler.or Scheduler.None l = foldr Scheduler.or Scheduler.None l).
Proof.
  assert (Hor : ∀ a b, Scheduler.or a b = Scheduler.Changed ↔
                       a = Scheduler.Changed ∨ b = Scheduler.Changed).
  { intros [] []; cbn; split; try done; try (by left); try (by right); by intros [|]. }
  assert (Hassoc : ∀ a b c,
            Scheduler.or a (Scheduler.or b c) = Scheduler.or (Scheduler.or a b) c)
    by (by intros [] [] []).
  split_and!.
  - exact Hor.
  - by intros [] [].
  - exact Hassoc.
  - by intros [].
  - induction l as [|x l IH]; cbn [foldr].
    + split; [done|]. by intros ?%elem_of_nil.
    + rewrite Hor, IH, elem_of_cons. split; intros [?|?]; auto.
  - intros l.
    assert (Hacc : ∀ acc, foldl Scheduler.or acc l
                          = Scheduler.or acc (foldr Scheduler.or Scheduler.None l)).
    { induction l as [|x l IH]; intros acc; cbn [foldl foldr]; [by destruct acc|].
      by rewrite IH, Hassoc. }
    rewrite Hacc. by destruct (foldr _ _ l).
Qed.

(** * The properties at sample inputs *)

(** [ex_server]: thread 7 serves nothing and there is no outgoing
    connection, so [find] and [transact] return [WOULD_BLOCK]. *)
Lemma C1_witness :
  (∃ r, find [] 7 CLIENT ex_server = Done r ∧
        fr_status r = WOULD_BLOCK ∧ fr_waits r = 0%nat ∧
        mConnection (fr_connection r) = None) ∧
  (∃ s', transact 1 (λ _ _ s, (OK, s)) [] 7 0 ex_server = Done (WOULD_BLOCK, s')).
Proof.
  apply (C1_find_would_block_without_waiting 1 [] 7 CLIENT ex_server
           (λ _ _ s, (OK, s)) 0).
  - reflexivity.
  - split; [|vm_compute; discriminate].
    repeat constructor. by eexists.
  - repeat constructor. intros c Hc. vm_compute in Hc.
    injection Hc as <-. discriminate.
Defined.

(** The same call: thread 7 gets [WOULD_BLOCK] and [mWaitingThreads], 0
    before the call, is 1 after it. *)
Lemma C2_witness :
  find [] 7 CLIENT ex_server = Done ex_would_block ∧
  fr_status ex_would_block = WOULD_BLOCK ∧
  mWaitingThreads ex_server = 0 ∧
  mWaitingThreads (fr_session ex_would_block) = 1.
Proof.
  assert (Hfind : find [] 7 CLIENT ex_server = Done ex_would_block)
    by (vm_compute; reflexivity).
  destruct (C2_find_waiting_threads_by_return_path [] 7 CLIENT ex_server
              ex_would_block) as [[Hok _]|[Hwb Hcount]].
  - vm_compute. split; discriminate || reflexivity.
  - constructor.
  - exact Hfind.
  - discriminate Hok.
  - split_and!; [exact Hfind | exact Hwb | reflexivity | exact Hcount].
Defined.

(** Three one-way calls on [ex_client3], whose offset is 1, use the
    connections at 1, 2 and 0. *)
Lemma C3_witness :
  ∃ s1 s2 s3,
    acquire_release 7 CLIENT_ASYNC ex_client3 = Done (OK, Some 1%nat, s1) ∧
    acquire_release 8 CLIENT_ASYNC s1 = Done (OK, Some 2%nat, s2) ∧
    acquire_release 9 CLIENT_ASYNC s2 = Done (OK, Some 0%nat, s3).
Proof.
  destruct (proj2 (proj2 C3_async_offset_rotation) 7 8 9 ex_client3 1 [0; 1; 2]%nat)
    as (c1 & c2 & c3 & s1 & s2 & s3 & H1 & H2 & H3 & E1 & E2 & E3).
  - reflexivity.
  - reflexivity.
  - repeat constructor; eexists; split; reflexivity.
  - reflexivity.
  - lia.
  - vm_compute. split; discriminate || reflexivity.
  - vm_compute in E1, E2, E3.
    injection E1 as <-. injection E2 as <-. injection E3 as <-.
    by exists s1, s2, s3.
Defined.

(** Thread 7 lets go of the only connection of [ex_busy] while one thread
    waits: the connection becomes free and one waiter is notified. *)
Lemma C4_witness :
  ∃ s' n,
    ExclusiveConnection_destroy (mkExclusiveConnection (Some 0%nat) false) ex_busy
      = (s', n) ∧
    owner_of s' 0%nat = None ∧ n = 1%nat.
Proof.
  destruct (proj1 (C4_release_exclusive_connection
                     (mkExclusiveConnection (Some 0%nat) false) ex_busy 0%nat
                     (mkRpcConnection 10 (Some 7) false) eq_refl eq_refl) eq_refl)
    as (s' & n & Hd & Hown & Hone & _).
  exists s', n. split_and!; [done..|]. apply Hone. vm_compute. reflexivity.
Defined.

(** With version 0 known and 4026531840 the experimental one: a session
    capped at the experimental version refuses 4026531841 and accepts 0. *)
Lemma C6_witness :
  let s := set_mProtocolVersion (Some 4026531840) (ex_fresh 1) in
  setProtocolVersion 1 4026531840 4026531841 s = (false, s) ∧
  setProtocolVersion 1 4026531840 0 s = (true, set_mProtocolVersion (Some 0) s).
Proof.
  cbn zeta.
  pose proof (C6_protocol_version_only_lowered 1 4026531840 4026531840 4026531841
                (set_mProtocolVersion (Some 4026531840) (ex_fresh 1)) eq_refl) as Hup.
  pose proof (C6_protocol_version_only_lowered 1 4026531840 4026531840 0
                (set_mProtocolVersion (Some 4026531840) (ex_fresh 1)) eq_refl) as Hdown.
  split.
  - apply (proj1 Hup). lia.
  - apply (proj2 Hdown); [lia | left; lia].
Defined.






(** The seed connection of a client: created for thread 7, free on return,
    and taken by thread 8 at once. *)
Lemma C10_witness :
  ∃ p s',
    addOutgoingConnection false (λ _ s, s) 7 50 true (ex_ready 1) = (OK, p, s') ∧
    owner_of s' p = None ∧
    mOutgoingConnections s' = [p] ∧
    ∃ r, find [] 8 CLIENT s' = Done r ∧ fr_status r = OK ∧ fr_waits r = 0%nat.
Proof.
  destruct (C10_add_outgoing_connection_is_free false (λ _ s, s) 7 50 true (ex_ready 1))
    as (p & s' & Hadd & _ & _ & (c & Hc & Hfree) & Hseq).
  - intros p s0. reflexivity.
  - destruct (Hseq (λ _, eq_refl)) as (Hout & _ & Hfind).
    destruct (Hfind) with (wakeups := @nil (RpcSession → RpcSession)) (t := 8)
                          (use := CLIENT) as (r & Hr & Hst & Hw & _).
    + split; [constructor | vm_compute; discriminate].
    + split; [constructor | vm_compute; discriminate].
    + vm_compute. split; discriminate || reflexivity.
    + vm_compute. reflexivity.
    + exists p, s'. split_and!; [done| |done|by exists r].
      unfold owner_of. by rewrite Hc.
Defined.

(** ** The further properties at sample inputs *)

Local Ltac wf_sample :=
  repeat split; try (repeat constructor; by eexists);
  try (vm_compute; discriminate); try (vm_compute; reflexivity).

(** Thread 7 on [ex_client3]: [find] returns [OK] with a connection that
    thread 7 owns. *)
Lemma X1_witness :
  ∃ r p, find [] 7 CLIENT ex_client3 = Done r ∧ fr_status r = OK ∧
         mConnection (fr_connection r) = Some p ∧ owner_of (fr_session r) p = Some 7.
Proof.
  destruct (find [] 7 CLIENT ex_client3) as [r| |] eqn:Hfind;
    [|vm_compute in Hfind; discriminate..].
  destruct (X1_find_returns_a_connection_of_the_caller [] 7 CLIENT ex_client3 r Hfind)
    as (_ & [(Hok & p & Hp & Hown)|[Hwb _]]).
  - by exists r, p.
  - exfalso. vm_compute in Hfind. injection Hfind as <-. discriminate Hwb.
Defined.

(** The same call: the connection was free before (position 1 of the pool,
    under the offset), and no other object changed. *)
Lemma X2_witness :
  ∃ r p c, find [] 7 CLIENT ex_client3 = Done r ∧
           mConnection (fr_connection r) = Some p ∧
           mHeap ex_client3 !! p = Some c ∧ exclusiveTid c = None ∧
           p ∈ mOutgoingConnections ex_client3.
Proof.
  destruct (find [] 7 CLIENT ex_client3) as [r| |] eqn:Hfind;
    [|vm_compute in Hfind; discriminate..].
  assert (Hr : fr_waits r = 0%nat ∧ fr_status r = OK ∧
               mReentrant (fr_connection r) = false).
  { vm_compute in Hfind. injection Hfind as <-. by split_and!. }
  destruct Hr as (Hw & Hok & Hre).
  destruct (X2_find_takes_own_or_free_connections_only [] 7 CLIENT ex_client3 r
              Hfind Hw Hok) as (p & c & Hp & Hc & Hown & _ & _ & _ & Hout & _).
  rewrite Hre in Hown. exists r, p, c. split_and!; [done..|]. by apply Hout.
Defined.

(** A synchronous acquire and release on [ex_client3] gives [ex_client3]
    back. *)
Lemma X3_witness :
  ∃ c, acquire_release 7 CLIENT ex_client3 = Done (OK, c, ex_client3).
Proof.
  destruct (acquire_release 7 CLIENT ex_client3) as [[[st c] s']| |] eqn:Hrun;
    [|vm_compute in Hrun; discriminate..].
  assert (st = OK) as -> by (vm_compute in Hrun; by injection Hrun as <- _ _).
  destruct (X3_acquire_then_release_restores_the_session 7 CLIENT ex_client3 c s')
    as (_ & _ & Hsame).
  - vm_compute. split; discriminate || reflexivity.
  - exact Hrun.
  - exists c. by rewrite Hsame.
Defined.

(** A synchronous [transact] on [ex_client3] through an [RpcState] that
    leaves the session alone returns [ex_client3]. *)
Lemma X4_witness :
  ∃ st, transact 1 (λ _ _ s, (OK, s)) [] 7 0 ex_client3 = Done (st, ex_client3).
Proof.
  destruct (transact 1 (λ _ _ s, (OK, s)) [] 7 0 ex_client3) as [[st s']| |] eqn:Hrun;
    [|vm_compute in Hrun; discriminate..].
  destruct (X4_calls_release_their_connection 1 (λ _ _ s, (OK, s)) (λ _ s, (OK, s))
              (λ _ s, (None, s)) 7 0 ex_client3) as (Ht & _ & _).
  - vm_compute. split; discriminate || reflexivity.
  - done.
  - done.
  - done.
  - exists st. destruct (Ht st s' Hrun) as [Hs|[Hwb _]].
    + rewrite Hs. vm_compute in Hrun. by injection Hrun as _ <-.
    + exfalso. vm_compute in Hrun. injection Hrun as <- _. discriminate Hwb.
Defined.

(** [ex_busy] is well formed: thread 8 is parked there, not aborted. *)
Lemma X5_witness :
  find [] 8 CLIENT ex_busy ≠ Aborts ∧
  (∀ r, find [] 8 CLIENT ex_busy = Done r → session_wf (fr_session r)).
Proof.
  apply (X5_find_does_not_abort_on_well_formed_sessions [] 8 CLIENT ex_busy).
  - wf_sample.
  - constructor.
Defined.

(** Releasing thread 7's handle on [ex_busy] and adding an outgoing
    connection to it keep it well formed. *)
Lemma X6_witness :
  session_wf (release (mkExclusiveConnection (Some 0%nat) false) ex_busy) ∧
  session_wf (snd (addOutgoingConnection false (λ _ s, s) 8 51 true ex_busy)).
Proof.
  destruct (X6_members_keep_the_session_well_formed false ex_busy)
    as (Hrel & _ & _ & Hadd).
  - wf_sample.
  - split; [apply Hrel|]. apply Hadd; [vm_compute; reflexivity|done].
Defined.

(** Thread 9 serves the incoming connection of [ex_server], which allows
    nesting: its call is bound to that connection at once, although the
    session has no outgoing connection. *)
Lemma X7_witness :
  ∃ r, find [] 9 CLIENT ex_server = Done r ∧ fr_status r = OK ∧
       fr_connection r = mkExclusiveConnection (Some 0%nat) true.
Proof.
  destruct (X7_nested_call_reuses_the_serving_connection [] 9 CLIENT ex_server 0%nat)
    as (r & p & Hfind & Hok & _ & Hconn & [Hin _] & _).
  - wf_sample.
  - discriminate.
  - split; [by left|reflexivity].
  - intros q' c [Hq _] Hc. apply list_elem_of_singleton in Hq as ->.
    vm_compute in Hc. by injection Hc as <-.
  - exists r. split_and!; [done..|].
    apply list_elem_of_singleton in Hin as ->. exact Hconn.
Defined.

(** On [ex_worker_busy] thread 9 is parked by a [CLIENT] acquisition and
    gets its own incoming connection for a [CLIENT_REFCOUNT] one. *)
Lemma X8_witness :
  find [] 9 CLIENT ex_worker_busy = Blocks ∧
  ∃ r, find [] 9 CLIENT_REFCOUNT ex_worker_busy = Done r ∧ fr_status r = OK ∧
       fr_connection r = mkExclusiveConnection (Some 1%nat) true.
Proof.
  destruct (X8_refcount_falls_back_to_the_serving_connection 9 ex_worker_busy)
    as (Hclient & _ & Hrefcount & _).
  - wf_sample.
  - discriminate.
  - constructor; [|constructor]. exists 7. split; [reflexivity|discriminate].
  - intros q c [Hq _] Hc. apply list_elem_of_singleton in Hq as ->.
    vm_compute in Hc. by injection Hc as <-.
  - split; [exact Hclient|].
    destruct (Hrefcount [] 1%nat) as (r & p & Hfind & Hok & _ & Hconn & [Hin _]).
    + split; [by left|reflexivity].
    + exists r. split_and!; [done..|].
      apply list_elem_of_singleton in Hin as ->. exact Hconn.
Defined.

(** Thread 8 is parked on [ex_busy]; when thread 7 lets go of the
    connection, [notify_one] is called and thread 8 returns [OK] after one
    wait. *)
Lemma X9_witness :
  find [] 8 CLIENT ex_busy = Blocks ∧
  ∃ r, find [release (mkExclusiveConnection (Some 0%nat) false)] 8 CLIENT ex_busy
         = Done r ∧
       fr_status r = OK ∧ fr_waits r = 1%nat.
Proof.
  assert (Hblocks : find [] 8 CLIENT ex_busy = Blocks) by (vm_compute; reflexivity).
  destruct (X9_release_wakes_a_parked_find 8 CLIENT ex_busy 0%nat)
    as (_ & _ & r & Hfind & Hok & Hw & _).
  - wf_sample.
  - vm_compute. split; discriminate || reflexivity.
  - by left.
  - exact Hblocks.
  - split; [exact Hblocks|]. by exists r.
Defined.

(** When thread 9's connection has left [ex_server], no worker is admitted
    any more. *)
Lemma X11_witness :
  let s' := snd (removeIncomingConnection 0%nat ex_server) in
  closed_for_admission s' ∧
  assignIncomingConnectionToThisThread false 10 41 s' = (None, s').
Proof.
  cbn zeta.
  destruct (X11_no_admission_after_a_connection_is_removed false 1 4026531840
              0%nat ex_server) as (Hclosed & Hrest).
  - vm_compute. discriminate.
  - vm_compute. reflexivity.
  - split; [exact Hclosed|]. by destruct (Hrest _ Hclosed) as (Hassign & _).
Defined.

(** A fresh session made a server's session rejects [readId]. *)
Lemma X15_witness :
  ∃ s', setForServer true RpcAddress_zero (ex_fresh 1) = Done (true, s') ∧
        mForServer s' = true ∧ readId (ex_peer 1) 7 s' = Aborts.
Proof.
  destruct (setForServer true RpcAddress_zero (ex_fresh 1)) as [[ok s']| |] eqn:Hset;
    [|vm_compute in Hset; discriminate..].
  destruct (X15_setForServer_makes_a_server_session true RpcAddress_zero (ex_fresh 1)
              ok s' Hset) as (-> & _ & Hserver).
  destruct (Hserver eq_refl) as (Hfs & _ & _ & _ & _ & _ & _ & Hread & _).
  exists s'. split_and!; [done|done|apply Hread].
Defined.

(** The one worker of [ex_ready 1]: while it serves, the session cannot be
    destroyed; after it has gone, it can. *)
Lemma X18_witness :
  let s1 := snd (assignIncomingConnectionToThisThread false 100 50 (ex_ready 1)) in
  RpcSession_destroy s1 = Aborts ∧
  RpcSession_destroy (snd (removeIncomingConnection 0%nat s1)) = Done tt.
Proof.
  cbn zeta.
  destruct (X18_session_with_a_worker_cannot_be_destroyed false 100 50 (ex_ready 1) 0%nat)
    as (_ & Hserving & _ & Hgone).
  - reflexivity.
  - vm_compute. reflexivity.
  - by split.
Defined.

(** One resolved address whose peer takes every connection: the inet setup
    returns [OK], through that address. *)
Lemma X20_witness :
  ∃ s' s0,
    setupInetClient false 0 1 4026531840 [ex_ai (ex_peer 1)] 7 (ex_fresh 1)
      = Done (OK, s') ∧
    setupSocketClient false 0 1 4026531840 (ex_addr false) (ex_peer 1) 7 s0
      = Done (OK, s').
Proof.
  destruct (setupInetClient false 0 1 4026531840 [ex_ai (ex_peer 1)] 7 (ex_fresh 1))
    as [[st s']| |] eqn:Hrun; [|vm_compute in Hrun; discriminate..].
  assert (st = OK) as -> by (vm_compute in Hrun; by injection Hrun as <- _).
  destruct (X20_setupInetClient_statuses false 0 1 4026531840 [ex_ai (ex_peer 1)] 7
              (ex_fresh 1) OK s' Hrun)
    as [(Hnil & _)|[(_ & Hnf)|(_ & _ & ai & s0 & Hin & Hsetup)]].
  - discriminate Hnil.
  - discriminate Hnf.
  - apply list_elem_of_singleton in Hin as ->. by exists s', s0.
Defined.

(** Two resolved addresses, the peer behind the first of which does not
    answer the new session: the first attempt leaves its connection in the
    pool and the second attempt is fatal. *)
Lemma X21_witness :
  setupInetClient false 0 1 4026531840 [ex_ai ex_peer_silent; ex_ai (ex_peer 1)] 7
    (ex_fresh 1) = Aborts.
Proof.
  edestruct (X21_setupInetClient_second_attempt_is_fatal false 0 1 4026531840
               (ex_ai ex_peer_silent) [ex_ai (ex_peer 1)] 7 (ex_fresh 1))
    as (_ & _ & Hfatal); [..|exact Hfatal].
  - reflexivity.
  - reflexivity.
  - intros t. split; discriminate.
  - intros t p s0. repeat split.
  - vm_compute. reflexivity.
  - vm_compute. reflexivity.
  - discriminate.
  - discriminate.
Defined.

(** The debugging client on a fresh session: one free outgoing connection,
    which thread 8 can then acquire. *)
Lemma X22_witness :
  ∃ s' r,
    addNullDebuggingClient false true (SysOk 3) (Some 50) (λ _ s, s) 7 (ex_fresh 1)
      = (OK, s') ∧
    mOutgoingConnections s' = [0%nat] ∧
    find [] 8 CLIENT s' = Done r ∧ fr_status r = OK.
Proof.
  destruct (X22_addNullDebuggingClient_adds_one_free_connection false true (SysOk 3)
              (Some 50) (λ _ s, s) 7 (ex_fresh 1)) as (_ & Hok & _); [discriminate|].
  destruct (addNullDebuggingClient false true (SysOk 3) (Some 50) (λ _ s, s) 7 (ex_fresh 1))
    as [st s'] eqn:Hrun.
  assert (st = OK) as -> by (vm_compute in Hrun; by injection Hrun as <- _).
  destruct (Hok s' eq_refl) as (server & _ & Hout & _ & _ & _ & Hfind).
  destruct Hfind as (_ & Hfind); [wf_sample|vm_compute; reflexivity|].
  destruct (Hfind [] 8 CLIENT) as (r & Hr & Hst & _).
  by exists s', r.
Defined.

(** Threads 7 and 8 on [ex_client3], one after the other, both without a
    release in between: they get different connections. *)
Lemma X24_witness :
  ∃ r1 r2 p1 p2,
    find [] 7 CLIENT ex_client3 = Done r1 ∧
    find [] 8 CLIENT (fr_session r1) = Done r2 ∧
    mConnection (fr_connection r1) = Some p1 ∧
    mConnection (fr_connection r2) = Some p2 ∧ p1 ≠ p2.
Proof.
  destruct (find [] 7 CLIENT ex_client3) as [r1| |] eqn:Hfind1;
    [|vm_compute in Hfind1; discriminate..].
  assert (Hr1 : r1 = mkFindResult OK (mkExclusiveConnection (Some 1%nat) false)
                       (store_exclusiveTid 1%nat (Some 7) ex_client3) 0).
  { vm_compute in Hfind1. injection Hfind1 as <-. vm_compute. reflexivity. }
  destruct (find [] 8 CLIENT (fr_session r1)) as [r2| |] eqn:Hfind2;
    [|rewrite Hr1 in Hfind2; vm_compute in Hfind2; discriminate..].
  assert (Hr2 : fr_waits r2 = 0%nat ∧ fr_status r2 = OK).
  { rewrite Hr1 in Hfind2. vm_compute in Hfind2. injection Hfind2 as <-. by split. }
  destruct Hr2 as [Hw2 Hok2].
  destruct (X24_two_threads_never_share_a_connection [] [] 7 8 CLIENT CLIENT ex_client3
              r1 r2) as (p1 & p2 & Hp1 & Hp2 & Hne & _);
    [discriminate|done|by rewrite Hr1|done..|].
  by exists r1, r2, p1, p2.
Defined.

(** The peer reports three threads: [getRemoteMaxThreads] on [ex_client3]
    returns them and [ex_client3]. *)
Lemma X25_witness :
  getRemoteMaxThreads (ex_peer 3) 7 ex_client3 = Done (OK, 3, ex_client3).
Proof.
  destruct (getRemoteMaxThreads (ex_peer 3) 7 ex_client3) as [[[st n] s']| |] eqn:Hrun;
    [|vm_compute in Hrun; discriminate..].
  destruct (X25_handshake_queries_change_only_the_session_id (ex_peer 3) 7 ex_client3)
    as (Hmax & _); [vm_compute; split; discriminate || reflexivity|].
  destruct (Hmax st n s' Hrun) as [(-> & -> & ->)|(Hwb & _)]; [done|].
  exfalso. vm_compute in Hrun. injection Hrun as <- _ _. discriminate Hwb.
Defined.

(** [ex_client3] is capped at version 0 and the peer answers 0: the version
    is agreed and the session is otherwise as before. *)
Lemma X26_witness :
  negotiate_version 1 4026531840 (ex_peer 1) 7 ex_client3
    = Done (OK, set_mProtocolVersion (Some 0) ex_client3).
Proof.
  destruct (negotiate_version 1 4026531840 (ex_peer 1) 7 ex_client3)
    as [[st s']| |] eqn:Hrun; [|vm_compute in Hrun; discriminate..].
  assert (st = OK) as -> by (vm_compute in Hrun; by injection Hrun as <- _).
  destruct (X26_negotiated_version_respects_the_cap 1 4026531840 (ex_peer 1) 7
              ex_client3 OK s') as (Hok & _);
    [vm_compute; split; discriminate || reflexivity|done|].
  by destruct (Hok eq_refl) as (_ & -> & _).
Defined.

(** No socket can be opened for the only resolved address:
    [NAME_NOT_FOUND], and the session is as it was. *)
Lemma X27_witness :
  setupInetClient false 0 1 4026531840 [ex_unreachable] 7 (ex_ready 1)
    = Done (NAME_NOT_FOUND, ex_ready 1).
Proof.
  apply (X27_setupInetClient_unreachable_addresses false 0 1 4026531840
           [ex_unreachable] 7 (ex_ready 1)).
  - discriminate.
  - reflexivity.
  - by eexists.
  - constructor; [|constructor]. eexists _, _, _. split; [vm_compute; reflexivity|].
    discriminate.
Defined.

(** Thread 9 serves the incoming connection of [ex_server] (see
    [X7_witness]); its one-way call gets [WOULD_BLOCK]. *)
Lemma X28_witness :
  transact 1 (λ _ _ s, (OK, s)) [] 9 1 ex_server
    = Done (WOULD_BLOCK, set_mWaitingThreads 1 ex_server).
Proof.
  apply (X28_oneway_call_needs_an_outgoing_connection 1 (λ _ _ s, (OK, s)) [] 9 1
           ex_server).
  - reflexivity.
  - discriminate.
Defined.

(** Thread 7 holds the connection of [ex_busy]: a further call of its own is
    bound to that connection, reentrantly. *)
Lemma X29_witness :
  ∃ r, find [] 7 CLIENT_ASYNC ex_busy = Done r ∧ fr_status r = OK ∧
       fr_connection r = mkExclusiveConnection (Some 0%nat) true.
Proof.
  destruct (X29_find_reuses_a_connection_the_caller_holds [] 7 CLIENT_ASYNC ex_busy 0%nat)
    as (r & q & Hfind & Hok & _ & Hconn & _).
  - wf_sample.
  - by left.
  - reflexivity.
  - exists r. split_and!; [done..|].
    assert (q = 0%nat) as ->; [|exact Hconn].
    vm_compute in Hfind. injection Hfind as <-. by injection Hconn as <-.
Defined.
